(** * Cluster coordination core (node/Cluster.cpp): shallow embedding

    The member-to-member control plane of the cluster: the framer
    ([_send], [_flush] and the unsealing prologue of
    [handleIncomingStateMessage]), the peer affinity table, the relay
    decision [sendViaCluster], the announcement [replicateHavePeer], the
    periodic loop and the geographic redirector [findBetterEndpoint].

    Conventions.  Bytes, member ids, overlay addresses and timestamps are
    [Z]; a [uint64_t] difference is written [u64_sub].  A [Buffer<C>] is
    the list of its bytes.  Calls that leave the cluster object (frame
    sender, raw packet sender, switch, topology, multicast store) are
    recorded, in order, in the [events] field of the state; what the
    environment answers is an oracle over that history.  The node clock
    [RR->node->now()] is the argument [now] of every entry point.  Locks
    are not modelled: every entry point runs alone. *)

From Stdlib Require Import ZArith Lia Bool SpecFloat.
From stdpp Require Import base option list gmap sorting.

Local Open Scope Z_scope.

(** ** Machine integers and buffers *)

Definition u64_sub (a b : Z) : Z := (a - b) mod 2 ^ 64.

Definition to_int32 (v : Z) : Z := if v <? 2 ^ 31 then v else v - 2 ^ 32.

Definition size {A} (b : list A) : Z := Z.of_nat (length b).

(** [append((uint16_t)v)]: two bytes, most significant first. *)
Definition be16 (v : Z) : list Z := [(v / 256) mod 256; v mod 256].

Definition be_bytes (w : nat) (v : Z) : list Z :=
  map (fun i => (v / 256 ^ Z.of_nat i) mod 256) (rev (seq 0 w)).

(** Reading a big-endian integer; each [char] is read as its unsigned
    value. *)
Definition be_decode (bs : list Z) : Z :=
  fold_left (fun acc x => acc * 256 + x mod 256) bs 0.

(** Modelled from the spec: the bounds-checked accessors of Buffer.hpp
    ([field], [at<T>], [operator[]]), which raise when the requested range
    leaves the buffer; [None] is the raised exception. *)
Definition Buffer_field (b : list Z) (i l : Z) : option (list Z) :=
  if (0 <=? i) && (0 <=? l) && (i + l <=? size b)
  then Some (take (Z.to_nat l) (drop (Z.to_nat i) b))
  else None.

(** Modelled from the spec: [at<T>(i)] of Buffer.hpp for an unsigned
    integer type of [w] bytes, big-endian. *)
Definition Buffer_at (w : Z) (b : list Z) (i : Z) : option Z :=
  be_decode <$> Buffer_field b i w.

Definition Buffer_at16 := Buffer_at 2.
Definition Buffer_at32 := Buffer_at 4.
Definition Buffer_at64 := Buffer_at 8.

(** Modelled from the spec: [operator[]] of Buffer.hpp, one unsigned
    byte. *)
Definition Buffer_index (b : list Z) (i : Z) : option Z :=
  if (0 <=? i) && (i <? size b) then (fun x => x mod 256) <$> b !! Z.to_nat i
  else None.

(** ** Constants *)

(** Modelled from the spec: [CLUSTER_MAX_MEMBERS = 128] (Cluster.hpp). *)
Definition ZT_CLUSTER_MAX_MEMBERS : Z := 128.

(** Modelled from the spec: [MAX_MESSAGE_LEN = 16384], the bound used on
    send and on receive. *)
Definition ZT_CLUSTER_MAX_MESSAGE_LENGTH : Z := 16384.

(** Modelled from the spec: [CLUSTER_TIMEOUT = 30000 ms]. *)
Definition ZT_CLUSTER_TIMEOUT : Z := 30000.

(** Modelled from the spec: [CLUSTER_FLUSH_PERIOD], about 500 ms. *)
Definition ZT_CLUSTER_FLUSH_PERIOD : Z := 500.

(** Modelled from the spec: [HAVE_PEER_ANNOUNCE_PERIOD = 60000 ms]. *)
Definition ZT_CLUSTER_HAVE_PEER_ANNOUNCE_PERIOD : Z := 60000.

(** Modelled from the spec: [PEER_ACTIVITY_TIMEOUT = 300000 ms]. *)
Definition ZT_PEER_ACTIVITY_TIMEOUT : Z := 300000.

(** Modelled from the spec: the one-time authenticator key is 32 bytes of
    keystream. *)
Definition ZT_POLY1305_KEY_LEN : nat := 32.

(** Modelled from the spec: the one-time MAC is 16 bytes long. *)
Definition ZT_POLY1305_MAC_LEN : nat := 16.

(** Modelled from the spec: an overlay address is 5 bytes (40 bits). *)
Definition ZT_ADDRESS_LENGTH : Z := 5.

(** ** Cryptographic primitives

    Salsa20.hpp, Poly1305.hpp and SHA512.hpp are not part of Cluster.cpp:
    the cipher, the authenticator and the hash are an interface.  A cipher
    object is a keystream position; [encrypt12] XORs its input with the
    next keystream bytes and moves the position. *)
Class Crypto := {
  SHA512_hash : list Z -> list Z;
  Salsa20 : Type;
  Salsa20_init : list Z -> list Z -> Salsa20;
  Salsa20_keystream12 : Salsa20 -> nat -> Z;
  Salsa20_advance12 : Salsa20 -> nat -> Salsa20;
  Poly1305_tag : list Z -> list Z -> nat -> Z
}.

Fixpoint xor_stream (ks : nat -> Z) (i : nat) (data : list Z) : list Z :=
  match data with
  | [] => []
  | b :: rest => Z.lxor b (ks i) :: xor_stream ks (S i) rest
  end.

Section Framer.
Context `{Crypto}.

Definition encrypt12 (s : Salsa20) (data : list Z) : list Z * Salsa20 :=
  (xor_stream (Salsa20_keystream12 s) 0 data,
   Salsa20_advance12 s (length data)).

(** Modelled from the spec: Salsa20.hpp's [decrypt12], the same keystream
    XOR as [encrypt12]. *)
Definition decrypt12 (s : Salsa20) (data : list Z) : list Z * Salsa20 :=
  encrypt12 s data.

(** [Poly1305::compute(mac, data, len, key)]: the 16-byte tag. *)
Definition Poly1305_compute (data key : list Z) : list Z :=
  map (Poly1305_tag data key) (seq 0 ZT_POLY1305_MAC_LEN).

(** [memcpy(keytmp,key,32); for(i<8) keytmp[i] ^= iv[i]] *)
Definition keytmp_of (key iv : list Z) : list Z :=
  zip_with Z.lxor (take 8 key) (take 8 iv) ++ take 24 (drop 8 key).

(** The cipher object and one-time authenticator key both [_flush] and
    [handleIncomingStateMessage] derive from a key and the 16 leading
    bytes of the message. *)
Definition frame_cipher (key msg : list Z) : list Z * Salsa20 :=
  let s20 := Salsa20_init (keytmp_of key msg) (take 8 (drop 8 msg)) in
  encrypt12 s20 (replicate ZT_POLY1305_KEY_LEN 0).

(** The bytes [_flush] hands to [_sendFunction] for queue content [q]. *)
Definition seal_frame (key q : list Z) : list Z :=
  let '(polykey, s20) := frame_cipher key q in
  let ct := fst (encrypt12 s20 (drop 24 q)) in
  let mac := Poly1305_compute ct polykey in
  take 16 q ++ take 8 mac ++ ct.

(** [Utils::secureEq(mac, msg + 16, 8)] *)
Definition mac_ok (key msg : list Z) : bool :=
  let '(polykey, _) := frame_cipher key msg in
  let mac := Poly1305_compute (drop 24 msg) polykey in
  bool_decide (take 8 mac = take 8 (drop 16 msg)).

(** The content of [dmsg] after [decrypt12]. *)
Definition plain (key msg : list Z) : list Z :=
  let '(_, s20) := frame_cipher key msg in
  fst (decrypt12 s20 (drop 24 msg)).

(** The first block of [handleIncomingStateMessage]: [None] when the
    function returns before [dmsg] is filled. *)
Definition unseal_frame (key msg : list Z) : option (list Z) :=
  if (size msg <? 24) || (ZT_CLUSTER_MAX_MESSAGE_LENGTH <? size msg) then None
  else if negb (mac_ok key msg) then None
  else Some (plain key msg).

End Framer.

(** ** Addresses, identities, packets *)

(** Modelled from the spec: InetAddress.hpp.  A socket address is its
    family, its port and its raw IP bytes; the default-constructed address
    has family 0 and tests false. *)
Record InetAddress := mkInetAddress {
  ss_family : Z;
  ia_port : Z;
  rawIpData : list Z
}.

(** The address families of the platform's socket interface. *)
Definition AF_INET : Z := 2.
Definition AF_INET6 : Z := 10.

Definition InetAddress_nil : InetAddress := mkInetAddress 0 0 [].
Definition InetAddress_bool (a : InetAddress) : bool := negb (ss_family a =? 0).

(** The overlay's identities and its codecs (Identity.hpp,
    InetAddress.hpp) are not part of Cluster.cpp.
    [InetAddress_deserialize b p] works in place: it
    gives the content of the object after the call and either the number
    of bytes consumed or [None] when it raised. *)
Class Overlay := {
  Identity : Type
}.

Class Codec `{Overlay} := {
  Identity_address : Identity -> Z;
  Identity_bool : Identity -> bool;
  Identity_serialize : Identity -> list Z;
  Identity_deserialize : list Z -> Z -> option (Identity * Z);
  InetAddress_serialize : InetAddress -> list Z;
  InetAddress_deserialize : list Z -> Z -> InetAddress * option Z
}.

(** Modelled from the spec: Packet.hpp.  A packet is destination, source,
    verb and payload. *)
Record Packet := mkPacket {
  pk_dest : Z;
  pk_source : Z;
  pk_verb : Z;
  pk_payload : list Z
}.

(** ** The outside world *)

Section World.
Context `{Overlay}.

(** Calls leaving the cluster object, in the order they are made. *)
Inductive Event :=
| EvSendFunction (memberId : Z) (frame : list Z)
| EvPutPacket (localAddress remote : InetAddress) (data : list Z)
| EvSwitchSend (p : Packet) (encrypt : bool) (nwid : Z)
| EvMulticastAdd (now nwid : Z) (mac adi : Z) (member : Z)
| EvSaveIdentity (id : Identity)
| EvRemovePathByAddress (peer : Z) (a : InetAddress).

End World.

(** What the runtime environment answers.  Peers are named by their
    overlay address; every oracle sees the history of calls so far. *)
Class Host `{Overlay} := {
  secureRandom : nat -> nat -> Z;
  identity_address : Z;
  identity_sha512PrivateKey : list Z;
  ZEROTIER_ONE_VERSION_MAJOR : Z;
  ZEROTIER_ONE_VERSION_MINOR : Z;
  ZEROTIER_ONE_VERSION_REVISION : Z;
  ZT_PROTO_VERSION : Z;
  VERB_RENDEZVOUS : Z;
  Packet_capacity : Z;
  Topology_getPeerNoCache : list Event -> Z -> Z -> bool;
  Peer_getBestActiveAddresses : list Event -> Z -> Z -> InetAddress * InetAddress;
  Topology_eachPeer : list Event -> list Identity;
  Peer_getBestPath : list Event -> Z -> Z -> option InetAddress;
  addressToLocationFunction : InetAddress -> option (Z * Z * Z)
}.

(** ** Cluster state *)

(** Modelled from the spec: the member record of Cluster.hpp (link key,
    send queue, advertised location, load and endpoints, heartbeat
    times). *)
Record _Member := mk_Member {
  key : list Z;
  q : list Z;
  m_x : Z;
  m_y : Z;
  m_z : Z;
  load : Z;
  zeroTierPhysicalEndpoints : list InetAddress;
  lastReceivedAliveAnnouncement : Z;
  lastAnnouncedAliveTo : Z
}.

(** Modelled from the spec: a record after [clear()], every field zero
    or empty. *)
Definition _Member_clear : _Member := mk_Member [] [] 0 0 0 0 [] 0 0.

(** Modelled from the spec: a peer affinity entry of Cluster.hpp, time of
    last update and owning member id. *)
Record _PA := mk_PA { ts : Z; mid : Z }.

Section State.
Context `{Overlay}.

(** The data members of the [Cluster] object that the functions of
    Cluster.cpp read and write, then the count of calls made to the random
    source and the history of calls to the outside. *)
Record Cluster := mkCluster {
  _id : Z;
  _x : Z;
  _y : Z;
  _z : Z;
  _masterSecret : list Z;
  _key : list Z;
  _hasAddressToLocationFunction : bool;
  _zeroTierPhysicalEndpoints : list InetAddress;
  _members : Z -> _Member;
  _memberIds : list Z;
  _peerAffinities : gmap Z _PA;
  _lastCleanedPeerAffinities : Z;
  _lastCheckedPeersForAnnounce : Z;
  _lastFlushed : Z;
  randomCalls : nat;
  events : list Event
}.

Definition with_members (f : Z -> _Member) (c : Cluster) : Cluster :=
  mkCluster (_id c) (_x c) (_y c) (_z c) (_masterSecret c) (_key c)
    (_hasAddressToLocationFunction c) (_zeroTierPhysicalEndpoints c)
    f (_memberIds c) (_peerAffinities c) (_lastCleanedPeerAffinities c)
    (_lastCheckedPeersForAnnounce c) (_lastFlushed c) (randomCalls c) (events c).

Definition with_memberIds (l : list Z) (c : Cluster) : Cluster :=
  mkCluster (_id c) (_x c) (_y c) (_z c) (_masterSecret c) (_key c)
    (_hasAddressToLocationFunction c) (_zeroTierPhysicalEndpoints c)
    (_members c) l (_peerAffinities c) (_lastCleanedPeerAffinities c)
    (_lastCheckedPeersForAnnounce c) (_lastFlushed c) (randomCalls c) (events c).

Definition with_peerAffinities (a : gmap Z _PA) (c : Cluster) : Cluster :=
  mkCluster (_id c) (_x c) (_y c) (_z c) (_masterSecret c) (_key c)
    (_hasAddressToLocationFunction c) (_zeroTierPhysicalEndpoints c)
    (_members c) (_memberIds c) a (_lastCleanedPeerAffinities c)
    (_lastCheckedPeersForAnnounce c) (_lastFlushed c) (randomCalls c) (events c).

Definition with_lastCleanedPeerAffinities (t : Z) (c : Cluster) : Cluster :=
  mkCluster (_id c) (_x c) (_y c) (_z c) (_masterSecret c) (_key c)
    (_hasAddressToLocationFunction c) (_zeroTierPhysicalEndpoints c)
    (_members c) (_memberIds c) (_peerAffinities c) t
    (_lastCheckedPeersForAnnounce c) (_lastFlushed c) (randomCalls c) (events c).

Definition with_lastCheckedPeersForAnnounce (t : Z) (c : Cluster) : Cluster :=
  mkCluster (_id c) (_x c) (_y c) (_z c) (_masterSecret c) (_key c)
    (_hasAddressToLocationFunction c) (_zeroTierPhysicalEndpoints c)
    (_members c) (_memberIds c) (_peerAffinities c) (_lastCleanedPeerAffinities c)
    t (_lastFlushed c) (randomCalls c) (events c).

Definition with_lastFlushed (t : Z) (c : Cluster) : Cluster :=
  mkCluster (_id c) (_x c) (_y c) (_z c) (_masterSecret c) (_key c)
    (_hasAddressToLocationFunction c) (_zeroTierPhysicalEndpoints c)
    (_members c) (_memberIds c) (_peerAffinities c) (_lastCleanedPeerAffinities c)
    (_lastCheckedPeersForAnnounce c) t (randomCalls c) (events c).

Definition with_randomCalls (n : nat) (c : Cluster) : Cluster :=
  mkCluster (_id c) (_x c) (_y c) (_z c) (_masterSecret c) (_key c)
    (_hasAddressToLocationFunction c) (_zeroTierPhysicalEndpoints c)
    (_members c) (_memberIds c) (_peerAffinities c) (_lastCleanedPeerAffinities c)
    (_lastCheckedPeersForAnnounce c) (_lastFlushed c) n (events c).

Definition with_events (l : list Event) (c : Cluster) : Cluster :=
  mkCluster (_id c) (_x c) (_y c) (_z c) (_masterSecret c) (_key c)
    (_hasAddressToLocationFunction c) (_zeroTierPhysicalEndpoints c)
    (_members c) (_memberIds c) (_peerAffinities c) (_lastCleanedPeerAffinities c)
    (_lastCheckedPeersForAnnounce c) (_lastFlushed c) (randomCalls c) l.

Definition emit (e : Event) (c : Cluster) : Cluster :=
  with_events (events c ++ [e]) c.

(** [_members[i] = m] *)
Definition set_member (i : Z) (m : _Member) (c : Cluster) : Cluster :=
  with_members (fun j => if j =? i then m else _members c j) c.

Definition with_q (b : list Z) (m : _Member) : _Member :=
  mk_Member (key m) b (m_x m) (m_y m) (m_z m) (load m)
    (zeroTierPhysicalEndpoints m) (lastReceivedAliveAnnouncement m)
    (lastAnnouncedAliveTo m).

Definition with_key (k : list Z) (m : _Member) : _Member :=
  mk_Member k (q m) (m_x m) (m_y m) (m_z m) (load m)
    (zeroTierPhysicalEndpoints m) (lastReceivedAliveAnnouncement m)
    (lastAnnouncedAliveTo m).

Definition with_x (v : Z) (m : _Member) : _Member :=
  mk_Member (key m) (q m) v (m_y m) (m_z m) (load m)
    (zeroTierPhysicalEndpoints m) (lastReceivedAliveAnnouncement m)
    (lastAnnouncedAliveTo m).

Definition with_y (v : Z) (m : _Member) : _Member :=
  mk_Member (key m) (q m) (m_x m) v (m_z m) (load m)
    (zeroTierPhysicalEndpoints m) (lastReceivedAliveAnnouncement m)
    (lastAnnouncedAliveTo m).

Definition with_z (v : Z) (m : _Member) : _Member :=
  mk_Member (key m) (q m) (m_x m) (m_y m) v (load m)
    (zeroTierPhysicalEndpoints m) (lastReceivedAliveAnnouncement m)
    (lastAnnouncedAliveTo m).

Definition with_load (v : Z) (m : _Member) : _Member :=
  mk_Member (key m) (q m) (m_x m) (m_y m) (m_z m) v
    (zeroTierPhysicalEndpoints m) (lastReceivedAliveAnnouncement m)
    (lastAnnouncedAliveTo m).

Definition with_endpoints (l : list InetAddress) (m : _Member) : _Member :=
  mk_Member (key m) (q m) (m_x m) (m_y m) (m_z m) (load m)
    l (lastReceivedAliveAnnouncement m) (lastAnnouncedAliveTo m).

Definition with_lastReceivedAliveAnnouncement (t : Z) (m : _Member) : _Member :=
  mk_Member (key m) (q m) (m_x m) (m_y m) (m_z m) (load m)
    (zeroTierPhysicalEndpoints m) t (lastAnnouncedAliveTo m).

Definition with_lastAnnouncedAliveTo (t : Z) (m : _Member) : _Member :=
  mk_Member (key m) (q m) (m_x m) (m_y m) (m_z m) (load m)
    (zeroTierPhysicalEndpoints m) (lastReceivedAliveAnnouncement m) t.

(** [_members[i].field = ...] *)
Definition upd_member (i : Z) (f : _Member -> _Member) (c : Cluster) : Cluster :=
  set_member i (f (_members c i)) c.

End State.

(** ** Framer on the member queues *)

Section Core.
Context `{Crypto} `{Overlay} `{!Codec} `{!Host}.

Definition getSecureRandom (n : nat) (c : Cluster) : list Z * Cluster :=
  (map (secureRandom (randomCalls c)) (seq 0 n),
   with_randomCalls (S (randomCalls c)) c).

(** [q.clear(); q.append(iv,16); q.addSize(8); q.append((uint16_t)from);
    q.append((uint16_t)to)].  The eight reserved bytes have no specified
    content before [_flush] writes the MAC; the model holds zeros. *)
Definition open_q (iv : list Z) (from to : Z) : list Z :=
  iv ++ replicate 8 0 ++ be16 from ++ be16 to.

Definition _flush (memberId : Z) (c : Cluster) : Cluster :=
  let m := _members c memberId in
  if 24 + 2 + 2 <? size (q m) then
    let c1 := emit (EvSendFunction memberId (seal_frame (key m) (q m))) c in
    let '(iv, c2) := getSecureRandom 16 c1 in
    upd_member memberId (with_q (open_q iv (_id c) memberId)) c2
  else c.

(** One serialized sub-message: length of type and payload, type, payload. *)
Definition submessage (type : Z) (msg : list Z) : list Z :=
  be16 (size msg + 1) ++ [type mod 256] ++ msg.

Definition _send (memberId : Z) (type : Z) (msg : list Z) (c : Cluster) : Cluster :=
  let len := size msg in
  if ZT_CLUSTER_MAX_MESSAGE_LENGTH - (24 + 2 + 2) <? len + 3 then c
  else
    let c1 :=
      if ZT_CLUSTER_MAX_MESSAGE_LENGTH <? size (q (_members c memberId)) + len + 3
      then _flush memberId c else c in
    upd_member memberId (fun m => with_q (q m ++ submessage type msg) m) c1.

(** The three [replicate*] functions share this loop over [_memberIds]. *)
Definition send_to_all (type : Z) (msg : list Z) (c : Cluster) : Cluster :=
  fold_left (fun c' m => _send m type msg c') (_memberIds c) c.

(** ** Member registry *)

(** [stmp = master; stmp[0] ^= hton(id); hash; hash; first 32 bytes] *)
Definition derive_key (master : list Z) (id : Z) : list Z :=
  let stmp := zip_with Z.lxor (take 2 master) (be16 id) ++ drop 2 master in
  take 32 (SHA512_hash (SHA512_hash stmp)).

(** The constructor: no member, empty affinity table, timers at zero. *)
Definition Cluster_new (id : Z) (zeroTierPhysicalEndpoints : list InetAddress)
    (x y z : Z) (addressToLocation : bool) : Cluster :=
  mkCluster id x y z identity_sha512PrivateKey
    (derive_key identity_sha512PrivateKey id) addressToLocation
    zeroTierPhysicalEndpoints (fun _ => _Member_clear) [] ∅ 0 0 0 0%nat [].

Fixpoint insert_sorted (x : Z) (l : list Z) : list Z :=
  match l with
  | [] => [x]
  | y :: r => if x <=? y then x :: l else y :: insert_sorted x r
  end.

(** [push_back] then [std::sort], as a fold of sorted insertions. *)
Definition sort_ids (l : list Z) : list Z := fold_right insert_sorted [] l.

Definition addMember (memberId : Z) (c : Cluster) : Cluster :=
  if (ZT_CLUSTER_MAX_MEMBERS <=? memberId) || (memberId =? _id c) then c
  else if bool_decide (memberId ∈ _memberIds c) then c
  else
    let c1 := with_memberIds (sort_ids (_memberIds c ++ [memberId])) c in
    let c2 := set_member memberId _Member_clear c1 in
    let c3 := upd_member memberId (with_key (derive_key (_masterSecret c) memberId)) c2 in
    let '(iv, c4) := getSecureRandom 16 c3 in
    upd_member memberId (with_q (open_q iv (_id c) memberId)) c4.

Definition removeMember (memberId : Z) (c : Cluster) : Cluster :=
  with_memberIds (filter (fun m => m ≠ memberId) (_memberIds c)) c.

(** ** Exceptions

    The decoder of [handleIncomingStateMessage] runs inside [try] blocks:
    a computation either returns or raises, and in both cases keeps the
    writes made so far. *)
Definition Exn (A : Type) : Type := Cluster -> option A * Cluster.

Definition ret {A} (a : A) : Exn A := fun c => (Some a, c).

Definition bind {A B} (m : Exn A) (k : A -> Exn B) : Exn B :=
  fun c => match m c with
           | (Some a, c') => k a c'
           | (None, c') => (None, c')
           end.

Definition lift {A} (o : option A) : Exn A := fun c => (o, c).

Definition modify (f : Cluster -> Cluster) : Exn unit := fun c => (Some tt, f c).

Definition ask {A} (f : Cluster -> A) : Exn A := fun c => (Some (f c), c).

(** [try { m } catch ( ... ) { }] *)
Definition catch (m : Exn unit) (c : Cluster) : Cluster := snd (m c).

Notation "x <~ e ;~ k" := (bind e (fun x => k))
  (at level 20, e at level 100, k at level 200, only parsing).
Notation "' p <~ e ;~ k" := (bind e (fun p => k))
  (at level 20, p pattern, e at level 100, k at level 200, only parsing).
Notation "e ;;~ k" := (bind e (fun _ => k))
  (at level 100, k at level 200, right associativity, only parsing).

(** ** Control protocol handler *)

(** Modelled from the spec: the [StateMessageType] enumeration of
    Cluster.hpp (types 1 to 6 of the control protocol). *)
Inductive StateMessageType :=
| STATE_MESSAGE_NOP
| STATE_MESSAGE_ALIVE
| STATE_MESSAGE_HAVE_PEER
| STATE_MESSAGE_MULTICAST_LIKE
| STATE_MESSAGE_COM
| STATE_MESSAGE_PROXY_UNITE
| STATE_MESSAGE_PROXY_SEND.

Definition type_code (t : StateMessageType) : Z :=
  match t with
  | STATE_MESSAGE_NOP => 0
  | STATE_MESSAGE_ALIVE => 1
  | STATE_MESSAGE_HAVE_PEER => 2
  | STATE_MESSAGE_MULTICAST_LIKE => 3
  | STATE_MESSAGE_COM => 4
  | STATE_MESSAGE_PROXY_UNITE => 5
  | STATE_MESSAGE_PROXY_SEND => 6
  end.

(** The [case] label a type byte selects; [None] is [default]. *)
Definition type_of_code (b : Z) : option StateMessageType :=
  if b =? 1 then Some STATE_MESSAGE_ALIVE
  else if b =? 2 then Some STATE_MESSAGE_HAVE_PEER
  else if b =? 3 then Some STATE_MESSAGE_MULTICAST_LIKE
  else if b =? 4 then Some STATE_MESSAGE_COM
  else if b =? 5 then Some STATE_MESSAGE_PROXY_UNITE
  else if b =? 6 then Some STATE_MESSAGE_PROXY_SEND
  else None.

(** A local [InetAddress] filled by [deserialize]: only a returning call
    leaves a value behind. *)
Definition InetAddress_read (b : list Z) (p : Z) : option (InetAddress * Z) :=
  match InetAddress_deserialize b p with
  | (a, Some n) => Some (a, n)
  | (_, None) => None
  end.

(** The endpoint loop of the ALIVE case: [push_back(InetAddress())],
    [deserialize] in place, [pop_back()] when the result tests false. *)
Fixpoint alive_endpoints (n : nat) (from : Z) (dmsg : list Z) (ptr : Z) : Exn unit :=
  match n with
  | O => ret tt
  | S n' =>
    let '(a, r) := InetAddress_deserialize dmsg ptr in
    modify (upd_member from (fun m =>
              with_endpoints (zeroTierPhysicalEndpoints m ++ [a]) m)) ;;~
    len <~ lift r ;~
    (if InetAddress_bool a then ret tt
     else modify (upd_member from (fun m =>
              with_endpoints (removelast (zeroTierPhysicalEndpoints m)) m))) ;;~
    alive_endpoints n' from dmsg (ptr + len)
  end.

Definition case_ALIVE (from now : Z) (dmsg : list Z) (ptr : Z) : Exn unit :=
  let ptr := ptr + 7 in
  x <~ lift (Buffer_at32 dmsg ptr) ;~
  modify (upd_member from (with_x (to_int32 x))) ;;~
  let ptr := ptr + 4 in
  y <~ lift (Buffer_at32 dmsg ptr) ;~
  modify (upd_member from (with_y (to_int32 y))) ;;~
  let ptr := ptr + 4 in
  z <~ lift (Buffer_at32 dmsg ptr) ;~
  modify (upd_member from (with_z (to_int32 z))) ;;~
  let ptr := ptr + 4 in
  let ptr := ptr + 8 in
  l <~ lift (Buffer_at64 dmsg ptr) ;~
  modify (upd_member from (with_load l)) ;;~
  let ptr := ptr + 8 in
  let ptr := ptr + 8 in
  physicalAddressCount <~ lift (Buffer_index dmsg ptr) ;~
  let ptr := ptr + 1 in
  modify (upd_member from (with_endpoints [])) ;;~
  alive_endpoints (Z.to_nat physicalAddressCount) from dmsg ptr ;;~
  modify (upd_member from (with_lastReceivedAliveAnnouncement now)).

Definition case_HAVE_PEER (from now : Z) (dmsg : list Z) (ptr : Z) : Exn unit :=
  '(id, n) <~ lift (Identity_deserialize dmsg ptr) ;~
  let ptr := ptr + n in
  '(physicalAddress, _) <~ lift (InetAddress_read dmsg ptr) ;~
  if Identity_bool id then
    (if InetAddress_bool physicalAddress then
       myPeerRecord <~ ask (fun c =>
         Topology_getPeerNoCache (events c) (Identity_address id) now) ;~
       if (myPeerRecord : bool) then
         modify (emit (EvRemovePathByAddress (Identity_address id) physicalAddress))
       else ret tt
     else ret tt) ;;~
    modify (emit (EvSaveIdentity id)) ;;~
    modify (fun c => with_peerAffinities
              (<[Identity_address id := mk_PA now from]> (_peerAffinities c)) c)
  else ret tt.

Definition case_MULTICAST_LIKE (from now : Z) (dmsg : list Z) (ptr : Z) : Exn unit :=
  nwid <~ lift (Buffer_at64 dmsg ptr) ;~
  let ptr := ptr + 8 in
  address <~ lift (Buffer_field dmsg ptr ZT_ADDRESS_LENGTH) ;~
  let ptr := ptr + ZT_ADDRESS_LENGTH in
  mac <~ lift (Buffer_field dmsg ptr 6) ;~
  let ptr := ptr + 6 in
  adi <~ lift (Buffer_at32 dmsg ptr) ;~
  modify (emit (EvMulticastAdd now nwid (be_decode mac) adi (be_decode address))).

(** The remote path array of PROXY_UNITE, each entry deserialized in turn. *)
Fixpoint read_paths (n : nat) (dmsg : list Z) (ptr : Z) : option (list InetAddress) :=
  match n with
  | O => Some []
  | S n' =>
    match InetAddress_read dmsg ptr with
    | Some (a, len) => cons a <$> read_paths n' dmsg (ptr + len)
    | None => None
    end
  end.

(** The scan for the first IPv4 and the first IPv6 remote path. *)
Definition best_remote (paths : list InetAddress) : InetAddress * InetAddress :=
  fold_left (fun '(v4, v6) a =>
    if InetAddress_bool v4 && InetAddress_bool v6 then (v4, v6)
    else if ss_family a =? AF_INET then
      ((if InetAddress_bool v4 then v4 else a), v6)
    else if ss_family a =? AF_INET6 then
      (v4, (if InetAddress_bool v6 then v6 else a))
    else (v4, v6))
    paths (InetAddress_nil, InetAddress_nil).

Definition rendezvous_tail (a : InetAddress) (iplen : Z) : list Z :=
  be16 (ia_port a) ++ [iplen] ++ take (Z.to_nat iplen) (rawIpData a).

Definition case_PROXY_UNITE (from now : Z) (dmsg : list Z) (ptr : Z) : Exn unit :=
  localPeerAddress <~ lift (Buffer_field dmsg ptr ZT_ADDRESS_LENGTH) ;~
  let ptr := ptr + ZT_ADDRESS_LENGTH in
  remotePeerAddress <~ lift (Buffer_field dmsg ptr ZT_ADDRESS_LENGTH) ;~
  let ptr := ptr + ZT_ADDRESS_LENGTH in
  numRemotePeerPaths <~ lift (Buffer_index dmsg ptr) ;~
  let ptr := ptr + 1 in
  remotePeerPaths <~ lift (read_paths (Z.to_nat numRemotePeerPaths) dmsg ptr) ;~
  localPeer <~ ask (fun c =>
    Topology_getPeerNoCache (events c) (be_decode localPeerAddress) now) ;~
  if (localPeer : bool) && (0 <? numRemotePeerPaths) then
    '(bestLocalV4, bestLocalV6) <~ ask (fun c =>
      Peer_getBestActiveAddresses (events c) (be_decode localPeerAddress) now) ;~
    let '(bestRemoteV4, bestRemoteV6) := best_remote remotePeerPaths in
    let forLocal := [0] ++ remotePeerAddress in
    let forRemote (len : Z) :=
      remotePeerAddress ++ [VERB_RENDEZVOUS mod 256] ++ be16 len ++ [0]
        ++ localPeerAddress in
    let go (local remote : InetAddress) (iplen : Z) : Exn unit :=
      modify (_send from (type_code STATE_MESSAGE_PROXY_SEND)
                (forRemote (9 + iplen) ++ rendezvous_tail local iplen)) ;;~
      modify (_flush from) ;;~
      modify (emit (EvSwitchSend
                (mkPacket (be_decode localPeerAddress) identity_address
                   VERB_RENDEZVOUS (forLocal ++ rendezvous_tail remote iplen))
                true 0)) in
    if InetAddress_bool bestLocalV6 && InetAddress_bool bestRemoteV6 then
      go bestLocalV6 bestRemoteV6 16
    else if InetAddress_bool bestLocalV4 && InetAddress_bool bestRemoteV4 then
      go bestLocalV4 bestRemoteV4 4
    else ret tt
  else ret tt.

(** [Packet::append] raises when the packet's capacity is exceeded. *)
Definition Packet_append (p : Packet) (data : list Z) : option Packet :=
  if size (pk_payload p) + size data <=? Packet_capacity
  then Some (mkPacket (pk_dest p) (pk_source p) (pk_verb p) (pk_payload p ++ data))
  else None.

Definition case_PROXY_SEND (from now : Z) (dmsg : list Z) (ptr : Z) : Exn unit :=
  rcpt <~ lift (Buffer_field dmsg ptr ZT_ADDRESS_LENGTH) ;~
  let ptr := ptr + ZT_ADDRESS_LENGTH in
  verb <~ lift (Buffer_index dmsg ptr) ;~
  let ptr := ptr + 1 in
  len <~ lift (Buffer_at16 dmsg ptr) ;~
  let ptr := ptr + 2 in
  payload <~ lift (Buffer_field dmsg ptr len) ;~
  outp <~ lift (Packet_append (mkPacket (be_decode rcpt) identity_address verb []) payload) ;~
  modify (emit (EvSwitchSend outp true 0)).

(** The body of the inner [try]: read the type byte, run its [case]. *)
Definition dispatch (from now : Z) (dmsg : list Z) (ptr : Z) : Exn unit :=
  mtype <~ lift (Buffer_index dmsg ptr) ;~
  let ptr := ptr + 1 in
  match type_of_code mtype with
  | Some STATE_MESSAGE_ALIVE => case_ALIVE from now dmsg ptr
  | Some STATE_MESSAGE_HAVE_PEER => case_HAVE_PEER from now dmsg ptr
  | Some STATE_MESSAGE_MULTICAST_LIKE => case_MULTICAST_LIKE from now dmsg ptr
  | Some STATE_MESSAGE_COM => ret tt
  | Some STATE_MESSAGE_PROXY_UNITE => case_PROXY_UNITE from now dmsg ptr
  | Some STATE_MESSAGE_PROXY_SEND => case_PROXY_SEND from now dmsg ptr
  | Some STATE_MESSAGE_NOP | None => ret tt
  end.

(** The [while (ptr < dmsg.size())] loop.  Every round moves [ptr] forward
    by at least two, so [length dmsg] rounds of fuel are never used up
    (lemma [parse_loop_fuel]). *)
Fixpoint parse_loop (fuel : nat) (from now : Z) (dmsg : list Z) (ptr : Z)
    (c : Cluster) : Cluster :=
  match fuel with
  | O => c
  | S fuel' =>
    if ptr <? size dmsg then
      match Buffer_at16 dmsg ptr with
      | None => c
      | Some mlen =>
        let ptr := ptr + 2 in
        let nextPtr := ptr + mlen in
        if size dmsg <? nextPtr then c
        else parse_loop fuel' from now dmsg nextPtr
               (catch (dispatch from now dmsg ptr) c)
      end
    else c
  end.

Definition handleIncomingStateMessage (now : Z) (msg : list Z) (c : Cluster) : Cluster :=
  match unseal_frame (_key c) msg with
  | None => c
  | Some dmsg =>
    if size dmsg <? 4 then c
    else match Buffer_at16 dmsg 0, Buffer_at16 dmsg 2 with
         | Some fromMemberId, Some toMemberId =>
           if fromMemberId =? _id c then c
           else if negb (toMemberId =? _id c) then c
           else if negb (bool_decide (fromMemberId ∈ _memberIds c)) then c
           else parse_loop (length dmsg) fromMemberId now dmsg 4 c
         | _, _ => c
         end
  end.

(** ** Peer affinity map *)

(** [Address::appendTo]: the five bytes of an overlay address. *)
Definition Address_bytes (a : Z) : list Z := be_bytes 5 a.

(** The PROXY_UNITE request [sendViaCluster] prepares when [unite] is set;
    empty when the sending peer has no active address.  The local buffers
    of this file ([Buffer<1024>], [Buffer<2048>], [Buffer<4096>]) hold
    what the codecs write, so their [append] is list concatenation. *)
Definition unite_request (now fromPeerAddress toPeerAddress : Z) (c : Cluster) : list Z :=
  let '(v4, v6) :=
    if negb (fromPeerAddress =? 0)
       && Topology_getPeerNoCache (events c) fromPeerAddress now
    then Peer_getBestActiveAddresses (events c) fromPeerAddress now
    else (InetAddress_nil, InetAddress_nil) in
  let addrCount :=
    (if InetAddress_bool v4 then 1 else 0) + (if InetAddress_bool v6 then 1 else 0) in
  if addrCount =? 0 then []
  else Address_bytes toPeerAddress ++ Address_bytes fromPeerAddress ++ [addrCount]
       ++ (if InetAddress_bool v4 then InetAddress_serialize v4 else [])
       ++ (if InetAddress_bool v6 then InetAddress_serialize v6 else []).

Definition sendViaCluster (now fromPeerAddress toPeerAddress : Z) (data : list Z)
    (unite : bool) (c : Cluster) : bool * Cluster :=
  if 16384 <? size data then (false, c)
  else
    match _peerAffinities c !! toPeerAddress with
    | Some pa =>
      if negb (mid pa =? _id c) && (u64_sub now (ts pa) <? ZT_PEER_ACTIVITY_TIMEOUT)
      then
        let canHasPeer := mid pa in
        let buf := if unite then unite_request now fromPeerAddress toPeerAddress c
                   else [] in
        let c1 := if 0 <? size buf
                  then _send canHasPeer (type_code STATE_MESSAGE_PROXY_UNITE) buf c
                  else c in
        let c2 := match zeroTierPhysicalEndpoints (_members c1 canHasPeer) with
                  | front :: _ => emit (EvPutPacket InetAddress_nil front data) c1
                  | [] => c1
                  end in
        (true, c2)
      else (false, c)
    | None => (false, c)
    end.

(** Modelled from the spec: [_peerAffinities[address]] on an absent key
    creates a default [_PA] (Cluster.hpp), owned by no member, so an absent
    entry takes the branch of an entry owned by a different member. *)
Definition owned_by (id : Z) (pa : option _PA) : bool :=
  match pa with
  | Some pa => mid pa =? id
  | None => false
  end.

Definition replicateHavePeer (now : Z) (peerId : Identity)
    (physicalAddress : InetAddress) (c : Cluster) : Cluster :=
  let a := Identity_address peerId in
  let pa := _peerAffinities c !! a in
  let announce (c' : Cluster) :=
    send_to_all (type_code STATE_MESSAGE_HAVE_PEER)
      (Identity_serialize peerId ++ InetAddress_serialize physicalAddress) c' in
  if negb (owned_by (_id c) pa) then
    announce (with_peerAffinities (<[a := mk_PA now (_id c)]> (_peerAffinities c)) c)
  else if u64_sub now (from_option ts 0 pa) <? ZT_CLUSTER_HAVE_PEER_ANNOUNCE_PERIOD then c
  else
    announce (with_peerAffinities (<[a := mk_PA now (_id c)]> (_peerAffinities c)) c).

Definition replicateMulticastLike (nwid peerAddress mac adi : Z) (c : Cluster) : Cluster :=
  send_to_all (type_code STATE_MESSAGE_MULTICAST_LIKE)
    (be_bytes 8 nwid ++ Address_bytes peerAddress ++ be_bytes 6 mac ++ be_bytes 4 adi) c.

(** ** Periodic loop *)

(** The [Hashtable] walk of [doPeriodicTasks]: every entry whose age has
    reached five activity timeouts is erased. *)
Definition sweep (now : Z) (a : gmap Z _PA) : gmap Z _PA :=
  filter (fun kv : Z * _PA => u64_sub now (ts kv.2) < ZT_PEER_ACTIVITY_TIMEOUT * 5) a.

(** [_ClusterAnnouncePeers::operator()] *)
Definition announce_peer (now : Z) (c : Cluster) (peer : Identity) : Cluster :=
  match Peer_getBestPath (events c) (Identity_address peer) now with
  | Some p => replicateHavePeer now peer p c
  | None => c
  end.

Definition alive_message (now : Z) (c : Cluster) : list Z :=
  be16 ZEROTIER_ONE_VERSION_MAJOR ++ be16 ZEROTIER_ONE_VERSION_MINOR
  ++ be16 ZEROTIER_ONE_VERSION_REVISION ++ [ZT_PROTO_VERSION mod 256]
  ++ (if _hasAddressToLocationFunction c
      then be_bytes 4 (_x c) ++ be_bytes 4 (_y c) ++ be_bytes 4 (_z c)
      else be_bytes 4 0 ++ be_bytes 4 0 ++ be_bytes 4 0)
  ++ be_bytes 8 now ++ be_bytes 8 0 ++ be_bytes 8 0
  ++ [size (_zeroTierPhysicalEndpoints c) mod 256]
  ++ concat (map InetAddress_serialize (_zeroTierPhysicalEndpoints c)).

Definition flush_member (now : Z) (c : Cluster) (memberId : Z) : Cluster :=
  let c1 :=
    if ZT_CLUSTER_TIMEOUT / 2 - 1000 <=? u64_sub now (lastAnnouncedAliveTo (_members c memberId))
    then upd_member memberId (with_lastAnnouncedAliveTo now)
           (_send memberId (type_code STATE_MESSAGE_ALIVE) (alive_message now c) c)
    else c in
  _flush memberId c1.

(** The three blocks of [doPeriodicTasks], in program order. *)
Definition periodic_sweep (now : Z) (c : Cluster) : Cluster :=
  if ZT_PEER_ACTIVITY_TIMEOUT * 5 <=? u64_sub now (_lastCleanedPeerAffinities c)
  then with_peerAffinities (sweep now (_peerAffinities c))
         (with_lastCleanedPeerAffinities now c)
  else c.

Definition periodic_announce (now : Z) (c : Cluster) : Cluster :=
  if ZT_CLUSTER_HAVE_PEER_ANNOUNCE_PERIOD / 4 <=? u64_sub now (_lastCheckedPeersForAnnounce c)
  then fold_left (announce_peer now) (Topology_eachPeer (events c))
         (with_lastCheckedPeersForAnnounce now c)
  else c.

Definition periodic_flush (now : Z) (c : Cluster) : Cluster :=
  if ZT_CLUSTER_FLUSH_PERIOD <=? u64_sub now (_lastFlushed c)
  then fold_left (flush_member now) (_memberIds c) (with_lastFlushed now c)
  else c.

Definition doPeriodicTasks (now : Z) (c : Cluster) : Cluster :=
  periodic_flush now (periodic_announce now (periodic_sweep now c)).

(** ** Redirector *)

(** A C [double] is an IEEE 754 binary64 number. *)
Definition double_of_int (v : Z) : spec_float := binary_normalize 53 1024 v 0 false.

Definition _dist3d (x1 y1 z1 x2 y2 z2 : Z) : spec_float :=
  let dx := SFsub 53 1024 (double_of_int x2) (double_of_int x1) in
  let dy := SFsub 53 1024 (double_of_int y2) (double_of_int y1) in
  let dz := SFsub 53 1024 (double_of_int z2) (double_of_int z1) in
  SFsqrt 53 1024
    (SFadd 53 1024
       (SFadd 53 1024 (SFmul 53 1024 dx dx) (SFmul 53 1024 dy dy))
       (SFmul 53 1024 dz dz)).

(** The condition under which [findBetterEndpoint] considers a member. *)
Definition considered (now : Z) (m : _Member) : bool :=
  (u64_sub now (lastReceivedAliveAnnouncement m) <? ZT_CLUSTER_TIMEOUT)
  && (negb (m_x m =? 0) || negb (m_y m =? 0) || negb (m_z m =? 0))
  && (0 <? size (zeroTierPhysicalEndpoints m)).

(** One round of the loop over [_memberIds]; the accumulator is
    [(bestDistance, bestMember, best)]. *)
Definition closer (now px py pz : Z) (c : Cluster)
    (acc : spec_float * Z * list InetAddress) (memberId : Z)
    : spec_float * Z * list InetAddress :=
  let m := _members c memberId in
  if considered now m then
    let mdist := _dist3d (m_x m) (m_y m) (m_z m) px py pz in
    if SFltb mdist acc.1.1 then (mdist, memberId, zeroTierPhysicalEndpoints m)
    else acc
  else acc.

Fixpoint first_in_family (family : Z) (l : list InetAddress) : option InetAddress :=
  match l with
  | [] => None
  | a :: r => if ss_family a =? family then Some a else first_in_family family r
  end.

(** [bestDistance] before the loop: [2147483648.0] when offloading. *)
Definition baseline (offload : bool) (c : Cluster) (px py pz : Z) : spec_float :=
  if offload then double_of_int 2147483648
  else _dist3d (_x c) (_y c) (_z c) px py pz.

(** [Some a] is [return true] with [redirectTo = a]. *)
Definition findBetterEndpoint (now : Z) (peerAddress : Z)
    (peerPhysicalAddress : InetAddress) (offload : bool) (c : Cluster)
    : option InetAddress :=
  if _hasAddressToLocationFunction c then
    match addressToLocationFunction peerPhysicalAddress with
    | None => None
    | Some (px, py, pz) =>
      let '(_, _, best) :=
        fold_left (closer now px py pz c) (_memberIds c)
          (baseline offload c px py pz, _id c, []) in
      first_in_family (ss_family peerPhysicalAddress) best
    end
  else None.


(** ** Vocabulary of the statements *)

(** A run of [_send] calls on one member's queue. *)
Definition enqueue_all (memberId : Z) (msgs : list (Z * list Z)) (c : Cluster) : Cluster :=
  fold_left (fun c' tm => _send memberId tm.1 tm.2 c') msgs c.

Definition serialized_size (msgs : list (Z * list Z)) : Z :=
  fold_right (fun tm acc => size tm.2 + 3 + acc) 0 msgs.

Definition serialized (msgs : list (Z * list Z)) : list Z :=
  concat (map (fun tm => submessage tm.1 tm.2) msgs).

Definition respects (R : Cluster -> Cluster -> Prop) {A} (m : Exn A) : Prop :=
  forall c, R c (m c).2.

(** [dispatched dmsg ptr p]: the loop entered with its pointer at [ptr]
    runs the inner [try] of some round with the pointer at [p], the
    position of that sub-message's type byte. *)
Inductive dispatched (dmsg : list Z) : Z -> Z -> Prop :=
| dispatched_here ptr mlen :
    ptr < size dmsg ->
    Buffer_at16 dmsg ptr = Some mlen ->
    ptr + 2 + mlen <= size dmsg ->
    dispatched dmsg ptr (ptr + 2)
| dispatched_later ptr mlen p :
    ptr < size dmsg ->
    Buffer_at16 dmsg ptr = Some mlen ->
    ptr + 2 + mlen <= size dmsg ->
    dispatched dmsg (ptr + 2 + mlen) p ->
    dispatched dmsg ptr p.

(** What the decoder can do to one entry of the affinity table: leave it,
    or set it to the sender and the current time. *)
Definition affinity_step (P now from : Z) (c c' : Cluster) : Prop :=
  _peerAffinities c' !! P = _peerAffinities c !! P
  \/ _peerAffinities c' !! P = Some (mk_PA now from).

(** What [_send] and [_flush] leave alone. *)
Definition same_tables (c c' : Cluster) : Prop :=
  _peerAffinities c' = _peerAffinities c
  /\ _id c' = _id c
  /\ _memberIds c' = _memberIds c
  /\ (forall i, zeroTierPhysicalEndpoints (_members c' i)
                = zeroTierPhysicalEndpoints (_members c i))
  /\ exists sent, events c' = events c ++ sent
                  /\ Forall (fun e => exists m f, e = EvSendFunction m f) sent.

(** What the announcements of the periodic loop do to the affinity
    table: an entry stays, or becomes ours with the current time. *)
Definition refresh_step (now : Z) (c c' : Cluster) : Prop :=
  _id c' = _id c
  /\ forall P, _peerAffinities c' !! P = _peerAffinities c !! P
               \/ _peerAffinities c' !! P = Some (mk_PA now (_id c)).

Definition member_distance (c : Cluster) (M px py pz : Z) : spec_float :=
  _dist3d (m_x (_members c M)) (m_y (_members c M)) (m_z (_members c M)) px py pz.

(** Member [M] is considered by the loop and lies closer than [base]. *)
Definition beats (now px py pz : Z) (c : Cluster) (base : spec_float) (M : Z) : Prop :=
  considered now (_members c M) = true
  /\ SFltb (member_distance c M px py pz) base = true.

(** No member seen and considered is strictly closer than [M]. *)
Definition nearest_of (now px py pz : Z) (c : Cluster) (seen : list Z) (M : Z) : Prop :=
  forall M', M' ∈ seen -> considered now (_members c M') = true ->
    SFltb (member_distance c M' px py pz) (member_distance c M px py pz) = false.

(** The loop invariant of [findBetterEndpoint] over the member ids seen so
    far: nothing chosen yet and no member seen beats the baseline, or the
    chosen endpoints are those of a member seen that beats it and to which
    no member seen is strictly closer. *)
Definition scan_inv (now px py pz : Z) (c : Cluster) (base : spec_float)
    (seen : list Z) (acc : spec_float * Z * list InetAddress) : Prop :=
  (acc.1.1 = base /\ acc.2 = [] /\ forall M, M ∈ seen -> ~ beats now px py pz c base M)
  \/ (exists M, M ∈ seen /\ beats now px py pz c base M
                /\ nearest_of now px py pz c seen M
                /\ acc.1.1 = member_distance c M px py pz
                /\ acc.2 = zeroTierPhysicalEndpoints (_members c M)).

End Core.

(** ** The rest of the interface and the vocabulary of its properties *)

Section Coverage.
Context `{Crypto} `{Overlay} `{!Codec} `{!Host}.

(** The certificate reaches this function as a value; [com] is what
    [com.serialize(buf)] writes. *)
Definition replicateCertificateOfNetworkMembership (com : list Z) (c : Cluster) : Cluster :=
  send_to_all (type_code STATE_MESSAGE_COM) com c.

(** The frames handed to [_sendFunction] for member [m], oldest first. *)
Definition frames_to (m : Z) (evs : list Event) : list (list Z) :=
  omap (fun e => match e with
                 | EvSendFunction m' f => if m' =? m then Some f else None
                 | _ => None
                 end) evs.

(** A queue as [addMember] and [_flush] open it and [_send] extends it:
    a 16-byte IV, the MAC slot, our id, the member's id, then what is
    pending, within the buffer's capacity. *)
Definition queue_ok (c : Cluster) (m : Z) : Prop :=
  exists iv pending,
    length iv = 16%nat
    /\ q (_members c m) = open_q iv (_id c) m ++ pending
    /\ size (q (_members c m)) <= ZT_CLUSTER_MAX_MESSAGE_LENGTH.

(** The first test of [_send]: can the sub-message fit in a frame at all? *)
Definition fits (msg : list Z) : bool :=
  size msg + 3 <=? ZT_CLUSTER_MAX_MESSAGE_LENGTH - (24 + 2 + 2).

(** What a frame carries behind the two member ids, read with [key]. *)
Definition frame_body (key f : list Z) : list Z := drop 4 (plain key f).

(** From [c] to [c'], member [m] is sent the frames [fs], each a
    well-formed frame from us to [m], and the bytes carried by these
    frames followed by what is pending afterwards are what was pending
    before followed by [added]. *)
Definition stream_step (m : Z) (c c' : Cluster) (fs : list (list Z)) (added : list Z) : Prop :=
  frames_to m (events c') = frames_to m (events c) ++ fs
  /\ Forall (fun f => exists body,
                unseal_frame (key (_members c m)) f
                = Some (be16 (_id c) ++ be16 m ++ body)) fs
  /\ concat (map (frame_body (key (_members c m))) fs) ++ drop 28 (q (_members c' m))
     = drop 28 (q (_members c m)) ++ added
  /\ key (_members c' m) = key (_members c m)
  /\ _id c' = _id c
  /\ queue_ok c' m.

(** The rounds of the decoding loop over sub-messages laid out one after
    the other from position [ptr]: each is dispatched, in order. *)
Fixpoint dispatch_all (from now : Z) (dmsg : list Z) (ptr : Z)
    (msgs : list (Z * list Z)) (c : Cluster) : Cluster :=
  match msgs with
  | [] => c
  | tm :: rest =>
    dispatch_all from now dmsg (ptr + 3 + size tm.2) rest
      (catch (dispatch from now dmsg (ptr + 2)) c)
  end.

(** The member id set as [addMember] and [removeMember] keep it. *)
Definition wf_members (c : Cluster) : Prop :=
  StronglySorted Z.lt (_memberIds c)
  /\ Forall (fun m => 0 <= m < ZT_CLUSTER_MAX_MEMBERS /\ m <> _id c) (_memberIds c).

(** A value the codec reads back, wherever it was written. *)
Definition InetAddress_round_trip (a : InetAddress) : Prop :=
  forall pre post,
    InetAddress_deserialize (pre ++ InetAddress_serialize a ++ post) (size pre)
    = (a, Some (size (InetAddress_serialize a))).

Definition Identity_round_trip (id : Identity) : Prop :=
  forall pre post,
    Identity_deserialize (pre ++ Identity_serialize id ++ post) (size pre)
    = Some (id, size (Identity_serialize id)).

(** From [c] to [c'] nothing has changed but the record of member
    [from], which is now [m']. *)
Definition writes_member (from : Z) (m' : _Member) (c c' : Cluster) : Prop :=
  _members c' from = m'
  /\ (forall j, j <> from -> _members c' j = _members c j)
  /\ with_members (_members c) c' = c.

(** The PROXY_UNITE payload: the peer on the receiving member's side, the
    peer on the sending member's side and the paths of the latter. *)
Definition unite_payload (localPeer remotePeer : Z) (paths : list InetAddress) : list Z :=
  Address_bytes localPeer ++ Address_bytes remotePeer ++ [size paths]
  ++ concat (map InetAddress_serialize paths).

(** The address pair the PROXY_UNITE case settles on: IPv6 on both sides
    if there is, else IPv4 on both sides if there is; with the number of
    address bytes sent. *)
Definition unite_match (bestLocal bestRemote : InetAddress * InetAddress)
    : option (InetAddress * InetAddress * Z) :=
  if InetAddress_bool bestLocal.2 && InetAddress_bool bestRemote.2
  then Some (bestLocal.2, bestRemote.2, 16)
  else if InetAddress_bool bestLocal.1 && InetAddress_bool bestRemote.1
  then Some (bestLocal.1, bestRemote.1, 4)
  else None.

(** What is fixed when the object is constructed. *)
Definition same_config (c c' : Cluster) : Prop :=
  _id c' = _id c /\ _x c' = _x c /\ _y c' = _y c /\ _z c' = _z c
  /\ _masterSecret c' = _masterSecret c /\ _key c' = _key c
  /\ _hasAddressToLocationFunction c' = _hasAddressToLocationFunction c
  /\ _zeroTierPhysicalEndpoints c' = _zeroTierPhysicalEndpoints c.

(** What the functions other than [addMember] and [removeMember] keep:
    the configuration, the member ids, every link key, the form of every
    queue; and an affinity entry they leave behind was there before or
    is owned by the local id or by a member. *)
Definition frame_step (c c' : Cluster) : Prop :=
  same_config c c'
  /\ _memberIds c' = _memberIds c
  /\ (forall m, key (_members c' m) = key (_members c m))
  /\ (forall m, queue_ok c m -> queue_ok c' m)
  /\ (forall P pa, _peerAffinities c' !! P = Some pa ->
        _peerAffinities c !! P = Some pa \/ mid pa = _id c \/ mid pa ∈ _memberIds c).

(** The calls handling a frame from member [from] can make: no packet
    is relayed, and frames go to [from] only. *)
Definition handler_event (from : Z) (e : Event) : Prop :=
  match e with
  | EvSendFunction m _ => m = from
  | EvPutPacket _ _ _ => False
  | _ => True
  end.

(** What handling a frame from member [from] can change: besides the
    above, only the record of [from] (but not the time of the last
    heartbeat sent to it), never a timer of the periodic loop; calls to
    the outside are only added. *)
Definition handler_step (from : Z) (c c' : Cluster) : Prop :=
  frame_step c c'
  /\ (forall j, j <> from -> _members c' j = _members c j)
  /\ lastAnnouncedAliveTo (_members c' from) = lastAnnouncedAliveTo (_members c from)
  /\ _lastCleanedPeerAffinities c' = _lastCleanedPeerAffinities c
  /\ _lastCheckedPeersForAnnounce c' = _lastCheckedPeersForAnnounce c
  /\ _lastFlushed c' = _lastFlushed c
  /\ exists evs, events c' = events c ++ evs /\ Forall (handler_event from) evs.

(** The ids whose record the code indexes: members, and owners other
    than the local id named by the affinity table. *)
Definition linked (c : Cluster) (m : Z) : Prop :=
  m ∈ _memberIds c
  \/ exists P pa, _peerAffinities c !! P = Some pa /\ mid pa = m /\ m <> _id c.

Definition cluster_inv (c : Cluster) : Prop :=
  wf_members c
  /\ _masterSecret c = identity_sha512PrivateKey
  /\ _key c = derive_key (_masterSecret c) (_id c)
  /\ (forall m, m ∈ _memberIds c ->
        key (_members c m) = derive_key (_masterSecret c) m)
  /\ (forall m, linked c m -> queue_ok c m)
  /\ (forall P pa, _peerAffinities c !! P = Some pa ->
        mid pa = _id c \/ 0 <= mid pa < ZT_CLUSTER_MAX_MEMBERS).

(** One call of a state-changing function of the interface. *)
Inductive interface_step : Cluster -> Cluster -> Prop :=
| step_addMember m c :
    0 <= m -> interface_step c (addMember m c)
| step_removeMember m c :
    interface_step c (removeMember m c)
| step_handleIncomingStateMessage now msg c :
    interface_step c (handleIncomingStateMessage now msg c)
| step_sendViaCluster now fromPeerAddress toPeerAddress data unite c :
    interface_step c (sendViaCluster now fromPeerAddress toPeerAddress data unite c).2
| step_replicateHavePeer now peerId physicalAddress c :
    interface_step c (replicateHavePeer now peerId physicalAddress c)
| step_replicateMulticastLike nwid peerAddress mac adi c :
    interface_step c (replicateMulticastLike nwid peerAddress mac adi c)
| step_replicateCertificateOfNetworkMembership com c :
    interface_step c (replicateCertificateOfNetworkMembership com c)
| step_doPeriodicTasks now c :
    interface_step c (doPeriodicTasks now c).

(** The states an object can be in: constructed, then used. *)
Inductive reachable : Cluster -> Prop :=
| reachable_new id zeroTierPhysicalEndpoints x y z addressToLocation :
    reachable (Cluster_new id zeroTierPhysicalEndpoints x y z addressToLocation)
| reachable_step c c' :
    reachable c -> interface_step c c' -> reachable c'.

(** The same, for a sender that is a member. *)
Definition member_handler_step (from : Z) (c c' : Cluster) : Prop :=
  from ∈ _memberIds c -> handler_step from c c'.

(** The three timers of the periodic loop. *)
Definition same_timers (c c' : Cluster) : Prop :=
  _lastCleanedPeerAffinities c' = _lastCleanedPeerAffinities c
  /\ _lastCheckedPeersForAnnounce c' = _lastCheckedPeersForAnnounce c
  /\ _lastFlushed c' = _lastFlushed c.

(** Bytes at the end of a frame that are no whole sub-message: fewer
    than the two bytes of a length, or a length that overruns the
    frame. *)
Definition truncated (tail : list Z) : Prop :=
  size tail < 2
  \/ exists len rest, tail = be16 len ++ rest /\ size rest < len mod 65536.

(** The affinity table names the local member as the owner of peer [a],
    by an entry refreshed less than an announce period before [now]. *)
Definition owns (now : Z) (c : Cluster) (a : Z) : Prop :=
  exists pa, _peerAffinities c !! a = Some pa
             /\ mid pa = _id c
             /\ u64_sub now (ts pa) < ZT_CLUSTER_HAVE_PEER_ANNOUNCE_PERIOD.

End Coverage.

(** ** The status surface *)

(** Modelled from the spec: what [status] takes from outside Cluster.cpp,
    the count of active peers of the topology and the capacity of the
    endpoint array of a member status record. *)
Class StatusHost `{Overlay} := {
  Topology_countActive : list Event -> Z;
  ZT_CLUSTER_MAX_ZT_PHYSICAL_ADDRESSES : Z
}.

(** Modelled from the spec: a member status record of the status
    surface (id, alive, milliseconds since the last heartbeat, location,
    load, endpoints, peer count); [numZeroTierPhysicalEndpoints] is the
    length of the endpoint list. *)
Record ZT_ClusterMemberStatus := mkMemberStatus {
  st_id : Z;
  st_msSinceLastHeartbeat : Z;
  st_alive : Z;
  st_x : Z;
  st_y : Z;
  st_z : Z;
  st_load : Z;
  st_peers : Z;
  st_zeroTierPhysicalEndpoints : list InetAddress
}.

Definition with_peers (n : Z) (s : ZT_ClusterMemberStatus) : ZT_ClusterMemberStatus :=
  mkMemberStatus (st_id s) (st_msSinceLastHeartbeat s) (st_alive s) (st_x s) (st_y s)
    (st_z s) (st_load s) n (st_zeroTierPhysicalEndpoints s).

(** Modelled from the spec: the snapshot; [clusterSize] is the length of
    [members]. *)
Record ZT_ClusterStatus := mkStatus {
  myId : Z;
  members : list ZT_ClusterMemberStatus
}.

Section StatusSurface.
Context `{Crypto} `{Overlay} `{!Codec} `{!Host} `{!StatusHost}.

(** An index into [ms] and [_members], arrays of
    [ZT_CLUSTER_MAX_MEMBERS] elements. *)
Definition in_bounds (i : Z) : bool := (0 <=? i) && (i <? ZT_CLUSTER_MAX_MEMBERS).

(** The copy loop with its sanity check on the number of endpoints. *)
Definition status_endpoints (l : list InetAddress) : list InetAddress :=
  take (Z.to_nat ZT_CLUSTER_MAX_ZT_PHYSICAL_ADDRESSES) l.

Definition self_status (c : Cluster) : ZT_ClusterMemberStatus :=
  mkMemberStatus (_id c) 0 1 (_x c) (_y c) (_z c) 0 (Topology_countActive (events c))
    (status_endpoints (_zeroTierPhysicalEndpoints c)).

Definition member_status (now : Z) (c : Cluster) (memberId : Z) : ZT_ClusterMemberStatus :=
  let m := _members c memberId in
  let since := Z.min (2 ^ 32 - 1) (u64_sub now (lastReceivedAliveAnnouncement m)) in
  mkMemberStatus memberId since (if since <? ZT_CLUSTER_TIMEOUT then 1 else 0)
    (m_x m) (m_y m) (m_z m) (load m) 0
    (status_endpoints (zeroTierPhysicalEndpoints m)).

(** The loop over [_memberIds]: the records filled so far and, for each
    id, the index of its record ([ms]).  [None] is an index outside
    [ms]. *)
Fixpoint status_members (now : Z) (c : Cluster) (ids : list Z)
    (entries : list ZT_ClusterMemberStatus) (ms : gmap Z nat)
    : option (list ZT_ClusterMemberStatus * gmap Z nat) :=
  match ids with
  | [] => Some (entries, ms)
  | memberId :: rest =>
    if ZT_CLUSTER_MAX_MEMBERS <=? size entries then Some (entries, ms)
    else if in_bounds memberId then
      status_members now c rest (entries ++ [member_status now c memberId])
        (<[memberId := length entries]> ms)
    else None
  end.

(** One round of the walk over the affinity table.  The counter is taken
    without a width: it counts entries of a table held in memory. *)
Definition count_peer (now : Z) (c : Cluster) (ms : gmap Z nat)
    (acc : option (list ZT_ClusterMemberStatus)) (v : _PA)
    : option (list ZT_ClusterMemberStatus) :=
  match acc with
  | None => None
  | Some entries =>
    if in_bounds (mid v) then
      match ms !! mid v with
      | Some i =>
        if negb (mid v =? _id c) && (u64_sub now (ts v) <? ZT_PEER_ACTIVITY_TIMEOUT)
        then Some (alter (fun s => with_peers (st_peers s + 1) s) i entries)
        else Some entries
      | None => Some entries
      end
    else None
  end.

(** [status]: [None] when the code indexes [ms] or [_members] outside
    the array. *)
Definition status (now : Z) (c : Cluster) : option ZT_ClusterStatus :=
  if in_bounds (_id c) then
    match status_members now c (_memberIds c) [self_status c] {[_id c := 0%nat]} with
    | Some (entries, ms) =>
      mkStatus (_id c)
        <$> fold_left (count_peer now c ms) (map_to_list (_peerAffinities c)).*2
              (Some entries)
    | None => None
    end
  else None.

(** The affinity entries that name [m] as the owner and are not stale. *)
Definition owned_fresh (now : Z) (c : Cluster) (m : Z) : list _PA :=
  filter (fun v => mid v = m /\ u64_sub now (ts v) < ZT_PEER_ACTIVITY_TIMEOUT)
    (map_to_list (_peerAffinities c)).*2.

(** [ms] points at the record of each id filled so far, and no id has
    two records. *)
Definition ms_ok (entries : list ZT_ClusterMemberStatus) (ms : gmap Z nat) : Prop :=
  NoDup (map st_id entries)
  /\ forall m i, ms !! m = Some i <-> st_id <$> entries !! i = Some m.

(** How often the walk over [vs] increments the counter of record [e]. *)
Definition peer_count (now : Z) (c : Cluster) (vs : list _PA)
    (e : ZT_ClusterMemberStatus) : Z :=
  size (filter (fun v => mid v = st_id e /\ st_id e <> _id c
                         /\ u64_sub now (ts v) < ZT_PEER_ACTIVITY_TIMEOUT) vs).

End StatusSurface.

(** ** Test doubles and scenario states

    A keystream, an authenticator, codecs and an environment simple enough
    to run the model on concrete frames and states. *)

Definition sum_bytes (l : list Z) : Z := fold_right Z.add 0 l.

Definition test_crypto : Crypto := {|
  SHA512_hash := fun l => map (fun i => (sum_bytes l + 3 * Z.of_nat i) mod 256) (seq 0 64);
  Salsa20 := Z;
  Salsa20_init := fun key iv => sum_bytes key + 5 * sum_bytes iv;
  Salsa20_keystream12 := fun s i => (31 * s + 7 * Z.of_nat i + 3) mod 256;
  Salsa20_advance12 := fun s n => s + 1 + Z.of_nat n / 64;
  Poly1305_tag := fun data key i => (sum_bytes data + sum_bytes key + Z.of_nat i) mod 256
|}.

Definition test_InetAddress_serialize (a : InetAddress) : list Z :=
  if ss_family a =? AF_INET then [4] ++ rawIpData a ++ be16 (ia_port a)
  else if ss_family a =? AF_INET6 then [6] ++ rawIpData a ++ be16 (ia_port a)
  else [0].

Definition test_InetAddress_deserialize (b : list Z) (p : Z) : InetAddress * option Z :=
  match Buffer_index b p with
  | None => (InetAddress_nil, None)
  | Some t =>
    if t =? 0 then (InetAddress_nil, Some 1)
    else if t =? 4 then
      match Buffer_field b (p + 1) 4, Buffer_at16 b (p + 5) with
      | Some ip, Some port => (mkInetAddress AF_INET port ip, Some 7)
      | Some ip, None => (mkInetAddress AF_INET 0 ip, None)
      | None, _ => (mkInetAddress AF_INET 0 [], None)
      end
    else if t =? 6 then
      match Buffer_field b (p + 1) 16, Buffer_at16 b (p + 17) with
      | Some ip, Some port => (mkInetAddress AF_INET6 port ip, Some 19)
      | Some ip, None => (mkInetAddress AF_INET6 0 ip, None)
      | None, _ => (mkInetAddress AF_INET6 0 [], None)
      end
    else (InetAddress_nil, None)
  end.

(** An identity reduced to its overlay address. *)
Definition test_overlay : Overlay := {| Identity := Z |}.

Definition test_codec : @Codec test_overlay :=
  @Build_Codec test_overlay
    (fun id : Z => id)
    (fun id : Z => negb (id =? 0))
    (fun id : Z => be_bytes 5 id)
    (fun b p =>
       match Buffer_field b p 5 with
       | Some bs => Some (be_decode bs, 5)
       | None => None
       end)
    test_InetAddress_serialize
    test_InetAddress_deserialize.

(** Random bytes from a counter, overlay address [aabbccddee], an
    all-zero master secret, version 1.1.0, protocol 5, RENDEZVOUS verb 5,
    room for 2772 payload bytes in a packet, a topology that knows no peer
    and a geolocation that puts every address at (200,0,0). *)
Definition test_host : @Host test_overlay :=
  @Build_Host test_overlay
    (fun n i => (17 * Z.of_nat n + Z.of_nat i) mod 256)
    0xaabbccddee
    (replicate 64 0)
    1 1 0 5
    5
    2772
    (fun _ _ _ => false)
    (fun _ _ _ => (InetAddress_nil, InetAddress_nil))
    (fun _ => [])
    (fun _ _ _ => None)
    (fun _ => Some (200, 0, 0)).

Section Scenario.
#[local] Existing Instance test_crypto.
#[local] Existing Instance test_overlay.
#[local] Existing Instance test_codec.
#[local] Existing Instance test_host.

Definition endpoint_v4 (a b c d port : Z) : InetAddress :=
  mkInetAddress AF_INET port [a; b; c; d].

Definition endpoint_v6 (port : Z) : InetAddress :=
  mkInetAddress AF_INET6 port [32; 1; 13; 184; 0; 0; 0; 0; 0; 0; 0; 0; 0; 0; 0; 5].

(** Local member 1 at (0,0,0) with members 2 and 5. *)
Definition cluster_A : Cluster :=
  addMember 5 (addMember 2
    (Cluster_new 1 [endpoint_v4 192 0 2 1 9993] 0 0 0 true)).

(** Member 2 of the same cluster, at (7,-8,9), knowing member 1. *)
Definition cluster_B : Cluster :=
  addMember 1 (Cluster_new 2 [endpoint_v4 192 0 2 2 9993] 7 (-8) 9 true).

(** The frames a state has handed to the send function for member [m]. *)
Definition frames_for (m : Z) (c : Cluster) : list (list Z) :=
  omap (fun e => match e with
                 | EvSendFunction m' f => if m' =? m then Some f else None
                 | _ => None
                 end) (events c).

Definition test_iv : list Z := map Z.of_nat (seq 1 16).

(** A frame sealed with the inbound key of [cluster_A]. *)
Definition frame_to_A (sender recipient : Z) (body : list Z) : list Z :=
  seal_frame (_key cluster_A)
    (test_iv ++ replicate 8 0 ++ be16 sender ++ be16 recipient ++ body).

Definition peer_P : Z := 0x0102030405.
Definition peer_phys : InetAddress := endpoint_v4 198 51 100 7 9993.

Definition have_peer_frame : list Z :=
  frame_to_A 2 1
    (submessage (type_code STATE_MESSAGE_HAVE_PEER)
       (Identity_serialize peer_P ++ InetAddress_serialize peer_phys)).

(** Member 5 alive at (x,0,0), heard of at time 1000. *)
Definition cluster_geo (x : Z) (ep : InetAddress) : Cluster :=
  upd_member 5 (fun m =>
    with_lastReceivedAliveAnnouncement 1000 (with_endpoints [ep] (with_x x m)))
    cluster_A.

(** Two affinity entries owned by member 2: one written at time 0, one
    at time 1400000. *)
Definition cluster_old : Cluster :=
  with_peerAffinities
    (<[7 := mk_PA 0 2]> (<[peer_P := mk_PA 1400000 2]> ∅)) cluster_A.

(** One affinity entry owned by member 2, which advertises no endpoint. *)
Definition cluster_relay : Cluster :=
  with_peerAffinities (<[peer_P := mk_PA 1000 2]> ∅) cluster_A.

(** A MULTICAST_LIKE queued for member 2. *)
Definition like_body : list Z :=
  be_bytes 8 0x1122334455667788 ++ Address_bytes 0x0102030405
  ++ be_bytes 6 0x010203040506 ++ be_bytes 4 0xAABBCCDD.

Definition cluster_queued : Cluster :=
  _send 2 (type_code STATE_MESSAGE_MULTICAST_LIKE) like_body cluster_A.

(** A correctly sealed frame whose sender, 9, is no member. *)
Definition stranger_frame : list Z :=
  frame_to_A 9 1 (submessage (type_code STATE_MESSAGE_MULTICAST_LIKE) like_body).

End Scenario.

(** An environment that knows its peers: every peer is in the topology,
    its best active address is the IPv4 address 10.0.0.1 and its best
    path is [203.0.113.9]; the topology lists the peer [0102030405]. *)
Definition test_host_peers : @Host test_overlay :=
  @Build_Host test_overlay
    (fun n i => (17 * Z.of_nat n + Z.of_nat i) mod 256)
    0xaabbccddee
    (replicate 64 0)
    1 1 0 5
    5
    2772
    (fun _ _ _ => true)
    (fun _ _ _ => (mkInetAddress AF_INET 9993 [10; 0; 0; 1], InetAddress_nil))
    (fun _ => [0x0102030405])
    (fun _ _ _ => Some (mkInetAddress AF_INET 9993 [203; 0; 113; 9]))
    (fun _ => Some (200, 0, 0)).

(** A topology with three active peers and room for sixteen endpoints
    in a status record. *)
Definition test_status_host : @StatusHost test_overlay :=
  @Build_StatusHost test_overlay (fun _ => 3) 16.

Section ScenarioPeers.
#[local] Existing Instance test_crypto.
#[local] Existing Instance test_overlay.
#[local] Existing Instance test_codec.
#[local] Existing Instance test_host_peers.

(** Member 1 knowing member 2, and member 2 knowing member 1. *)
Definition cluster_PA : Cluster :=
  addMember 2 (Cluster_new 1 [endpoint_v4 192 0 2 1 9993] 0 0 0 true).

Definition cluster_PB : Cluster :=
  addMember 1 (Cluster_new 2 [endpoint_v4 192 0 2 2 9993] 7 (-8) 9 true).

(** The peer of member 2 and the paths of the peer of member 1. *)
Definition peer_Q : Z := 0x0a0b0c0d0e.
Definition paths_P : list InetAddress := [endpoint_v4 198 51 100 7 9993].

(** Member 1 with a PROXY_UNITE queued for member 2. *)
Definition cluster_uniting : Cluster :=
  _send 2 (type_code STATE_MESSAGE_PROXY_UNITE) (unite_payload peer_Q peer_P paths_P)
    cluster_PA.

End ScenarioPeers.

Section ScenarioFrames.
#[local] Existing Instance test_crypto.
#[local] Existing Instance test_overlay.
#[local] Existing Instance test_codec.
#[local] Existing Instance test_host.

(** A frame from member 2 holding one MULTICAST_LIKE and a stray byte. *)
Definition truncated_frame : list Z :=
  frame_to_A 2 1 (submessage (type_code STATE_MESSAGE_MULTICAST_LIKE) like_body ++ [0]).

End ScenarioFrames.

(** * Properties *)

(** ** Bytes and buffers *)

Lemma size_app {A} (a b : list A) : size (a ++ b) = size a + size b.
Proof. unfold size. rewrite length_app. lia. Qed.

Lemma size_nonneg {A} (a : list A) : 0 <= size a.
Proof. unfold size. lia. Qed.

Lemma size_be16 v : size (be16 v) = 2.
Proof. reflexivity. Qed.

Lemma be_decode_be16 v : be_decode (be16 v) = v mod 65536.
Proof.
  unfold be_decode, be16. simpl.
  rewrite !Z.mod_mod by lia.
  change 65536 with (256 * 256).
  rewrite Z.rem_mul_r by lia. lia.
Qed.

Lemma xor_stream_length ks i d : length (xor_stream ks i d) = length d.
Proof. revert i. induction d as [|b d IH]; intros i; simpl; [done | by rewrite IH]. Qed.

Lemma xor_stream_involutive ks i d : xor_stream ks i (xor_stream ks i d) = d.
Proof.
  revert i. induction d as [|b d IH]; intros i; simpl; [done |].
  rewrite IH, Z.lxor_assoc, Z.lxor_nilpotent, Z.lxor_0_r. done.
Qed.

(** ** Framer: sealing and unsealing *)

Section FramerProperties.
Context `{Crypto}.

Lemma Poly1305_compute_length d k : length (Poly1305_compute d k) = 16%nat.
Proof. unfold Poly1305_compute. by rewrite length_map, length_seq. Qed.

Lemma frame_cipher_prefix key a b :
  take 16 a = take 16 b -> frame_cipher key a = frame_cipher key b.
Proof.
  intros E. unfold frame_cipher, keytmp_of.
  assert (take 8 a = take 8 b) as E8.
  { change (take 8 a) with (take (8 `min` 16)%nat a).
    change (take 8 b) with (take (8 `min` 16)%nat b).
    by rewrite <- !take_take, E. }
  rewrite E8, !take_drop_commute. simpl. rewrite E. done.
Qed.

Lemma seal_eq key q :
  seal_frame key q =
  take 16 q
  ++ take 8 (Poly1305_compute
               (xor_stream (Salsa20_keystream12 (frame_cipher key q).2) 0 (drop 24 q))
               (frame_cipher key q).1)
  ++ xor_stream (Salsa20_keystream12 (frame_cipher key q).2) 0 (drop 24 q).
Proof. unfold seal_frame. destruct (frame_cipher key q) as [pk s]. done. Qed.

Lemma seal_size key q : 24 <= size q -> size (seal_frame key q) = size q.
Proof.
  intros Hq. rewrite seal_eq. unfold size in *.
  rewrite !length_app, !length_take, Poly1305_compute_length,
    xor_stream_length, length_drop. lia.
Qed.

(** Unsealing, under the key that sealed, any queue content that holds at
    least its 24-byte prefix gives back the bytes after that prefix. *)
Lemma unseal_seal key q :
  24 <= size q <= ZT_CLUSTER_MAX_MESSAGE_LENGTH ->
  unseal_frame key (seal_frame key q) = Some (drop 24 q).
Proof.
  intros Hq.
  assert (length (take 16 q) = 16%nat) as L16
    by (rewrite length_take; unfold size in Hq; lia).
  assert (take 16 (seal_frame key q) = take 16 q) as P16
    by (rewrite seal_eq; by apply take_app_length').
  pose proof (frame_cipher_prefix key _ _ P16) as FC.
  set (ct := xor_stream (Salsa20_keystream12 (frame_cipher key q).2) 0 (drop 24 q)).
  set (mac := Poly1305_compute ct (frame_cipher key q).1).
  assert (length (take 8 mac) = 8%nat) as L8
    by (rewrite length_take; unfold mac; rewrite Poly1305_compute_length; lia).
  assert (drop 24 (seal_frame key q) = ct) as D24.
  { rewrite seal_eq. fold ct mac. rewrite (app_assoc (take 16 q)).
    apply drop_app_length'. rewrite length_app. lia. }
  assert (take 8 (drop 16 (seal_frame key q)) = take 8 mac) as M8.
  { rewrite seal_eq. fold ct mac. rewrite drop_app_length' by done.
    by apply take_app_length'. }
  unfold unseal_frame. rewrite seal_size by lia.
  replace ((size q <? 24) || (ZT_CLUSTER_MAX_MESSAGE_LENGTH <? size q)) with false
    by (symmetry; apply orb_false_intro; [apply Z.ltb_ge | apply Z.ltb_ge]; lia).
  unfold mac_ok, plain, decrypt12, encrypt12. rewrite FC, D24, M8.
  destruct (frame_cipher key q) as [pk s] eqn:E. simpl in *.
  fold mac. rewrite bool_decide_eq_true_2 by done. simpl.
  unfold ct. by rewrite xor_stream_involutive.
Qed.

(** A frame is rejected exactly when its length is out of range or its
    MAC does not match; otherwise [dmsg] is [plain]. *)
Lemma unseal_None key msg :
  unseal_frame key msg = None <->
  size msg < 24 \/ ZT_CLUSTER_MAX_MESSAGE_LENGTH < size msg \/ mac_ok key msg = false.
Proof.
  unfold unseal_frame.
  destruct (size msg <? 24) eqn:E1; simpl.
  { apply Z.ltb_lt in E1. split; auto. }
  destruct (ZT_CLUSTER_MAX_MESSAGE_LENGTH <? size msg) eqn:E2; simpl.
  { apply Z.ltb_lt in E2. split; auto. }
  apply Z.ltb_ge in E1. apply Z.ltb_ge in E2.
  destruct (mac_ok key msg); simpl; split; auto; try discriminate.
  intros [?|[?|?]]; try lia; discriminate.
Qed.

Lemma unseal_Some key msg d : unseal_frame key msg = Some d -> d = plain key msg.
Proof.
  unfold unseal_frame.
  destruct ((size msg <? 24) || (ZT_CLUSTER_MAX_MESSAGE_LENGTH <? size msg));
    [discriminate |].
  destruct (mac_ok key msg); simpl; congruence.
Qed.

End FramerProperties.

(** ** Queues: [_send] and [_flush] *)

Section QueueProperties.
Context `{Crypto} `{Overlay} `{!Codec} `{!Host}.

Lemma _flush_small memberId c :
  size (q (_members c memberId)) <= 28 -> _flush memberId c = c.
Proof.
  intros Hs. unfold _flush.
  replace (24 + 2 + 2 <? size (q (_members c memberId))) with false; [done |].
  symmetry. apply Z.ltb_ge. lia.
Qed.

Lemma _flush_events memberId c :
  28 < size (q (_members c memberId)) ->
  events (_flush memberId c) =
  events c ++ [EvSendFunction memberId
                 (seal_frame (key (_members c memberId)) (q (_members c memberId)))].
Proof.
  intros Hs. unfold _flush.
  replace (24 + 2 + 2 <? size (q (_members c memberId))) with true; [done |].
  symmetry. apply Z.ltb_lt. lia.
Qed.

Lemma size_open_q iv from to : length iv = 16%nat -> size (open_q iv from to) = 28.
Proof. intros Hiv. unfold open_q, size. rewrite !length_app, Hiv. simpl. lia. Qed.

(** After a flush that sent something the queue is a fresh header. *)
Lemma _flush_q memberId c :
  28 < size (q (_members c memberId)) ->
  size (q (_members (_flush memberId c) memberId)) = 28.
Proof.
  intros Hs. unfold _flush.
  replace (24 + 2 + 2 <? size (q (_members c memberId))) with true
    by (symmetry; apply Z.ltb_lt; lia).
  simpl. rewrite Z.eqb_refl. simpl. by apply size_open_q.
Qed.

Lemma size_submessage type msg : size (submessage type msg) = size msg + 3.
Proof. unfold submessage, size. rewrite !length_app. simpl. lia. Qed.

(** [_send] when the sub-message fits behind what is already queued. *)
Lemma _send_fits memberId type msg c :
  28 <= size (q (_members c memberId)) ->
  size (q (_members c memberId)) + size msg + 3 <= ZT_CLUSTER_MAX_MESSAGE_LENGTH ->
  _send memberId type msg c =
  upd_member memberId (fun m => with_q (q m ++ submessage type msg) m) c.
Proof.
  intros H28 Hfit. unfold _send.
  replace (ZT_CLUSTER_MAX_MESSAGE_LENGTH - (24 + 2 + 2) <? size msg + 3) with false
    by (symmetry; apply Z.ltb_ge; lia).
  replace (ZT_CLUSTER_MAX_MESSAGE_LENGTH <? size (q (_members c memberId)) + size msg + 3)
    with false by (symmetry; apply Z.ltb_ge; lia).
  done.
Qed.

(** The queue never outgrows its buffer: the [append]s of [_send] cannot
    raise. *)
Lemma _send_bounded memberId type msg c :
  size (q (_members c memberId)) <= ZT_CLUSTER_MAX_MESSAGE_LENGTH ->
  size (q (_members (_send memberId type msg c) memberId)) <= ZT_CLUSTER_MAX_MESSAGE_LENGTH.
Proof.
  intros Hb. unfold _send.
  destruct (ZT_CLUSTER_MAX_MESSAGE_LENGTH - (24 + 2 + 2) <? size msg + 3) eqn:E1; [done |].
  apply Z.ltb_ge in E1.
  destruct (ZT_CLUSTER_MAX_MESSAGE_LENGTH <? size (q (_members c memberId)) + size msg + 3) eqn:E2.
  - apply Z.ltb_lt in E2.
    assert (28 < size (q (_members c memberId))) as H28 by lia.
    pose proof (_flush_q memberId c H28) as Hq.
    simpl. rewrite Z.eqb_refl. simpl. rewrite size_app, size_submessage, Hq. lia.
  - apply Z.ltb_ge in E2. simpl. rewrite Z.eqb_refl. simpl.
    rewrite size_app, size_submessage. lia.
Qed.

Lemma serialized_size_nonneg msgs : 0 <= serialized_size msgs.
Proof.
  induction msgs as [|tm msgs IH]; simpl; [lia |].
  pose proof (size_nonneg tm.2). lia.
Qed.

Lemma size_serialized msgs : size (serialized msgs) = serialized_size msgs.
Proof.
  induction msgs as [|tm msgs IH]; [done |].
  change (serialized (tm :: msgs)) with (submessage tm.1 tm.2 ++ serialized msgs).
  rewrite size_app, size_submessage, IH. simpl. lia.
Qed.

(** While everything fits in the frame being built, enqueueing appends
    the serialized sub-messages in call order and sends nothing. *)
Lemma enqueue_all_fits memberId msgs c :
  28 <= size (q (_members c memberId)) ->
  size (q (_members c memberId)) + serialized_size msgs <= ZT_CLUSTER_MAX_MESSAGE_LENGTH ->
  events (enqueue_all memberId msgs c) = events c
  /\ q (_members (enqueue_all memberId msgs c) memberId)
     = q (_members c memberId) ++ serialized msgs
  /\ key (_members (enqueue_all memberId msgs c) memberId) = key (_members c memberId).
Proof.
  revert c. induction msgs as [|tm msgs IH]; intros c H28 Hfit.
  { simpl. by rewrite app_nil_r. }
  simpl in Hfit. pose proof (serialized_size_nonneg msgs) as Hn.
  pose proof (size_nonneg tm.2) as Hp.
  change (enqueue_all memberId (tm :: msgs) c)
    with (enqueue_all memberId msgs (_send memberId tm.1 tm.2 c)).
  rewrite _send_fits by lia.
  set (c1 := upd_member memberId _ c).
  assert (q (_members c1 memberId) = q (_members c memberId) ++ submessage tm.1 tm.2) as Hq1
    by (unfold c1; simpl; by rewrite Z.eqb_refl).
  assert (key (_members c1 memberId) = key (_members c memberId)) as Hk1
    by (unfold c1; simpl; by rewrite Z.eqb_refl).
  destruct (IH c1) as (He & Hq & Hk).
  - rewrite Hq1, size_app. pose proof (size_nonneg (submessage tm.1 tm.2)). lia.
  - rewrite Hq1, size_app, size_submessage. lia.
  - rewrite He, Hq, Hk, Hq1, Hk1. repeat split.
    change (serialized (tm :: msgs)) with (submessage tm.1 tm.2 ++ serialized msgs).
    by rewrite <- app_assoc.
Qed.

End QueueProperties.

Lemma Buffer_field_middle (p a r : list Z) :
  Buffer_field (p ++ a ++ r) (size p) (size a) = Some a.
Proof.
  unfold Buffer_field.
  replace ((0 <=? size p) && (0 <=? size a) && (size p + size a <=? size (p ++ a ++ r)))
    with true.
  - unfold size. rewrite !Nat2Z.id.
    rewrite drop_app_length. by rewrite take_app_length.
  - symmetry. rewrite !andb_true_iff, !Z.leb_le, !size_app.
    pose proof (size_nonneg p). pose proof (size_nonneg a). pose proof (size_nonneg r).
    lia.
Qed.

Lemma Buffer_at16_middle (p r : list Z) (v : Z) :
  Buffer_at16 (p ++ be16 v ++ r) (size p) = Some (v mod 65536).
Proof.
  unfold Buffer_at16, Buffer_at.
  change 2 with (size (be16 v)). rewrite Buffer_field_middle. simpl.
  by rewrite be_decode_be16.
Qed.

Section FramerClaims.
Context `{Crypto} `{Overlay} `{!Codec} `{!Host}.

(** C1 — Framer round trip.  For a 32-byte link key, a 16-byte IV and a
    non-empty body of at most [ZT_CLUSTER_MAX_MESSAGE_LENGTH - 28] bytes
    queued behind the sender and recipient ids, [_flush] hands exactly one
    frame to the send function, and the inbound MAC check and decryption
    of [handleIncomingStateMessage], run with the same key on that frame,
    succeed and give back the plaintext: sender id, recipient id and the
    body bytes. *)
Theorem flush_unseal_roundtrip (c : Cluster) (memberId : Z)
    (iv slot body : list Z) (from to : Z) :
  length (key (_members c memberId)) = 32%nat ->
  length iv = 16%nat ->
  length slot = 8%nat ->
  body <> [] ->
  size body <= ZT_CLUSTER_MAX_MESSAGE_LENGTH - 28 ->
  q (_members c memberId) = iv ++ slot ++ be16 from ++ be16 to ++ body ->
  exists frame,
    events (_flush memberId c) = events c ++ [EvSendFunction memberId frame]
    /\ mac_ok (key (_members c memberId)) frame = true
    /\ unseal_frame (key (_members c memberId)) frame = Some (be16 from ++ be16 to ++ body)
    /\ Buffer_at16 (be16 from ++ be16 to ++ body) 0 = Some (from mod 65536)
    /\ Buffer_at16 (be16 from ++ be16 to ++ body) 2 = Some (to mod 65536).
Proof.
  intros _ Hiv Hslot Hne Hsz Hq.
  assert (size (q (_members c memberId)) = 28 + size body) as Hs.
  { rewrite Hq. unfold size. rewrite !length_app, Hiv, Hslot. simpl. lia. }
  assert (0 < size body) as Hpos.
  { destruct body; [done |]. unfold size. simpl. lia. }
  assert (drop 24 (q (_members c memberId)) = be16 from ++ be16 to ++ body) as Hd.
  { rewrite Hq, (app_assoc iv). apply drop_app_length'.
    rewrite length_app, Hiv, Hslot. done. }
  assert (unseal_frame (key (_members c memberId))
            (seal_frame (key (_members c memberId)) (q (_members c memberId)))
          = Some (be16 from ++ be16 to ++ body)) as Hu.
  { rewrite unseal_seal, Hd; [done |]. unfold ZT_CLUSTER_MAX_MESSAGE_LENGTH in *. lia. }
  exists (seal_frame (key (_members c memberId)) (q (_members c memberId))).
  split; [apply _flush_events; lia |].
  split.
  { destruct (mac_ok _ _) eqn:E; [done |].
    assert (unseal_frame (key (_members c memberId))
              (seal_frame (key (_members c memberId)) (q (_members c memberId))) = None) as Hn
      by (apply unseal_None; auto).
    congruence. }
  split; [done |].
  split.
  - apply (Buffer_at16_middle [] (be16 to ++ body) from).
  - apply (Buffer_at16_middle (be16 from) body to).
Qed.

(** C6 — Framer batching.  Starting from a freshly opened queue, a
    non-empty run of [_send] calls whose serialized sub-messages (payload
    length plus three bytes each) fit, with the 28-byte header, in
    [ZT_CLUSTER_MAX_MESSAGE_LENGTH] sends nothing by itself, and the
    following [_flush] sends exactly one frame; unsealed with the member's
    key, its body is the two member ids followed by the sub-messages,
    length-prefixed, in call order. *)
Theorem flush_batches_one_frame (c : Cluster) (memberId : Z) (iv : list Z)
    (msgs : list (Z * list Z)) :
  length iv = 16%nat ->
  q (_members c memberId) = open_q iv (_id c) memberId ->
  msgs <> [] ->
  28 + serialized_size msgs <= ZT_CLUSTER_MAX_MESSAGE_LENGTH ->
  events (enqueue_all memberId msgs c) = events c
  /\ exists frame,
       events (_flush memberId (enqueue_all memberId msgs c))
       = events c ++ [EvSendFunction memberId frame]
       /\ unseal_frame (key (_members c memberId)) frame
          = Some (be16 (_id c) ++ be16 memberId ++ serialized msgs).
Proof.
  intros Hiv Hq Hne Hfit.
  assert (size (q (_members c memberId)) = 28) as Hs
    by (rewrite Hq; by apply size_open_q).
  destruct (enqueue_all_fits memberId msgs c) as (He & Hq' & Hk); [lia | lia |].
  split; [done |].
  assert (0 < serialized_size msgs) as Hpos.
  { destruct msgs as [|tm msgs]; [done |]. simpl.
    pose proof (serialized_size_nonneg msgs). pose proof (size_nonneg tm.2). lia. }
  set (c' := enqueue_all memberId msgs c) in *.
  assert (size (q (_members c' memberId)) = 28 + serialized_size msgs) as Hs'
    by (rewrite Hq', size_app, size_serialized; lia).
  exists (seal_frame (key (_members c' memberId)) (q (_members c' memberId))).
  split.
  - rewrite _flush_events by lia. by rewrite He.
  - rewrite <- Hk, unseal_seal by lia. f_equal.
    rewrite Hq', Hq. unfold open_q.
    rewrite <- !app_assoc, (app_assoc iv).
    rewrite drop_app_length'; [done |].
    rewrite length_app, Hiv. done.
Qed.

End FramerClaims.

(** ** Inbound frames *)

Section HandlerClaims.
Context `{Crypto} `{Overlay} `{!Codec} `{!Host}.

Lemma mac_ok_false key msg :
  mac_ok key msg = false <->
  take 8 (Poly1305_compute (drop 24 msg) (frame_cipher key msg).1)
  <> take 8 (drop 16 msg).
Proof.
  unfold mac_ok. destruct (frame_cipher key msg) as [pk s]. simpl.
  rewrite bool_decide_eq_false. done.
Qed.

(** C2 — Frame-level rejection.  [handleIncomingStateMessage] returns with
    the state untouched (no write, no call to the outside, no sub-message
    dispatched) whenever the frame is shorter than 24 or longer than
    [ZT_CLUSTER_MAX_MESSAGE_LENGTH] bytes, or the first 8 bytes of the
    recomputed Poly1305 MAC differ from bytes 16..24, or the decrypted
    sender id is the local id, or the decrypted recipient id is not the
    local id, or the sender id is not in [_memberIds] -- also when the
    frame is correctly sealed. *)
Theorem frame_rejected (c : Cluster) (now : Z) (msg : list Z) :
  size msg < 24
  \/ ZT_CLUSTER_MAX_MESSAGE_LENGTH < size msg
  \/ take 8 (Poly1305_compute (drop 24 msg) (frame_cipher (_key c) msg).1)
     <> take 8 (drop 16 msg)
  \/ Buffer_at16 (plain (_key c) msg) 0 = Some (_id c)
  \/ (exists toMemberId,
        Buffer_at16 (plain (_key c) msg) 2 = Some toMemberId /\ toMemberId <> _id c)
  \/ (exists fromMemberId,
        Buffer_at16 (plain (_key c) msg) 0 = Some fromMemberId
        /\ fromMemberId ∉ _memberIds c) ->
  handleIncomingStateMessage now msg c = c.
Proof.
  intros Hbad. unfold handleIncomingStateMessage.
  destruct (unseal_frame (_key c) msg) as [d|] eqn:U; [| done].
  pose proof (unseal_Some _ _ _ U) as ->.
  destruct (size (plain (_key c) msg) <? 4); [done |].
  destruct (Buffer_at16 (plain (_key c) msg) 0) as [f|] eqn:Ef; [| done].
  destruct (Buffer_at16 (plain (_key c) msg) 2) as [t|] eqn:Et; [| done].
  destruct (f =? _id c) eqn:E1; [done |].
  destruct (t =? _id c) eqn:E2; simpl; [| done].
  destruct (bool_decide (f ∈ _memberIds c)) eqn:E3; simpl; [| done].
  apply Z.eqb_neq in E1. apply Z.eqb_eq in E2. apply bool_decide_eq_true in E3.
  exfalso.
  destruct Hbad as [Hb|[Hb|[Hb|[Hb|[(t' & Hb & Hne)|(f' & Hb & Hnm)]]]]].
  - assert (unseal_frame (_key c) msg = None) by (apply unseal_None; auto). congruence.
  - assert (unseal_frame (_key c) msg = None) by (apply unseal_None; auto). congruence.
  - apply mac_ok_false in Hb.
    assert (unseal_frame (_key c) msg = None) by (apply unseal_None; auto). congruence.
  - congruence.
  - congruence.
  - congruence.
Qed.

End HandlerClaims.

(** ** The decoder preserves what its steps preserve *)

Section Respects.
Context `{Crypto} `{Overlay} `{!Codec} `{!Host}.

Variable R : Cluster -> Cluster -> Prop.
Hypothesis R_refl : forall c, R c c.
Hypothesis R_trans : forall a b c, R a b -> R b c -> R a c.
Hypothesis R_with_q : forall i (b : _Member -> list Z) c,
  R c (upd_member i (fun m => with_q (b m) m) c).
Hypothesis R_emit : forall e c, R c (emit e c).
Hypothesis R_random : forall n c, R c (with_randomCalls n c).

Lemma respects_ret A (a : A) : respects R (ret a).
Proof. intros c. apply R_refl. Qed.

Lemma respects_lift A (o : option A) : respects R (lift o).
Proof. intros c. apply R_refl. Qed.

Lemma respects_ask A (f : Cluster -> A) : respects R (ask f).
Proof. intros c. apply R_refl. Qed.

Lemma respects_modify f : (forall c, R c (f c)) -> respects R (modify f).
Proof. intros Hf c. apply Hf. Qed.

Lemma respects_bind A B (m : Exn A) (k : A -> Exn B) :
  respects R m -> (forall a, respects R (k a)) -> respects R (bind m k).
Proof.
  intros Hm Hk c. unfold bind.
  specialize (Hm c). destruct (m c) as [[a|] c1]; simpl in *; [| done].
  eapply R_trans; [exact Hm | apply Hk].
Qed.

Lemma R_flush memberId c : R c (_flush memberId c).
Proof.
  unfold _flush. destruct (24 + 2 + 2 <? size (q (_members c memberId))); [| done].
  simpl. eapply R_trans; [apply R_emit |].
  eapply R_trans; [apply R_random |].
  apply (R_with_q memberId (fun _ => open_q _ _ _)).
Qed.

Lemma R_send memberId type msg c : R c (_send memberId type msg c).
Proof.
  unfold _send.
  destruct (ZT_CLUSTER_MAX_MESSAGE_LENGTH - (24 + 2 + 2) <? size msg + 3); [done |].
  eapply R_trans;
    [| apply (R_with_q memberId (fun m => q m ++ submessage type msg))].
  destruct (ZT_CLUSTER_MAX_MESSAGE_LENGTH <? _); [apply R_flush | done].
Qed.

Lemma R_fold {A} (f : Cluster -> A -> Cluster) (l : list A) c :
  (forall c' a, R c' (f c' a)) -> R c (fold_left f l c).
Proof.
  intros Hf. revert c. induction l as [|a l IH]; intros c; simpl; [done |].
  eapply R_trans; [apply Hf | apply IH].
Qed.

Lemma R_send_to_all type msg c : R c (send_to_all type msg c).
Proof. unfold send_to_all. apply R_fold. intros c' m. apply R_send. Qed.

(** The decoder also writes the other fields of a member record. *)
Hypothesis R_upd_member : forall i f c, R c (upd_member i f c).

Ltac respects_step :=
  cbv beta zeta;
  match goal with
  | |- respects _ (bind _ _) => apply respects_bind; [| intros ?]
  | |- respects _ (ret _) => apply respects_ret
  | |- respects _ (lift _) => apply respects_lift
  | |- respects _ (ask _) => apply respects_ask
  | |- respects _ (modify (upd_member _ _)) =>
      apply respects_modify; intros ?; apply R_upd_member
  | |- respects _ (modify (emit _)) =>
      apply respects_modify; intros ?; apply R_emit
  | |- respects _ (modify (_send _ _ _)) =>
      apply respects_modify; intros ?; apply R_send
  | |- respects _ (modify (_flush _)) =>
      apply respects_modify; intros ?; apply R_flush
  | |- respects _ (match ?x with _ => _ end) => destruct x
  end.

Lemma respects_alive_endpoints n from dmsg ptr :
  respects R (alive_endpoints n from dmsg ptr).
Proof.
  revert ptr. induction n as [|n IH]; intros ptr; simpl.
  - apply respects_ret.
  - repeat respects_step. apply IH.
Qed.

Lemma respects_case_ALIVE from now dmsg ptr :
  respects R (case_ALIVE from now dmsg ptr).
Proof.
  unfold case_ALIVE. repeat respects_step. apply respects_alive_endpoints.
Qed.

Lemma respects_case_MULTICAST_LIKE from now dmsg ptr :
  respects R (case_MULTICAST_LIKE from now dmsg ptr).
Proof. unfold case_MULTICAST_LIKE. repeat respects_step. Qed.

Lemma respects_case_PROXY_UNITE from now dmsg ptr :
  respects R (case_PROXY_UNITE from now dmsg ptr).
Proof. unfold case_PROXY_UNITE. repeat respects_step. Qed.

Lemma respects_case_PROXY_SEND from now dmsg ptr :
  respects R (case_PROXY_SEND from now dmsg ptr).
Proof. unfold case_PROXY_SEND. repeat respects_step. Qed.

(** The only write of the decoder to the affinity table. *)
Variables from now : Z.
Hypothesis R_have_peer : forall id c,
  R c (with_peerAffinities
         (<[Identity_address id := mk_PA now from]> (_peerAffinities c)) c).

Lemma respects_case_HAVE_PEER dmsg ptr :
  respects R (case_HAVE_PEER from now dmsg ptr).
Proof.
  unfold case_HAVE_PEER. repeat respects_step.
  all: apply respects_modify; intros ?; apply R_have_peer.
Qed.

Lemma respects_dispatch dmsg ptr :
  respects R (dispatch from now dmsg ptr).
Proof.
  unfold dispatch. apply respects_bind; [apply respects_lift |]. intros mtype.
  cbv zeta. destruct (type_of_code mtype) as [[]|].
  - apply respects_ret.
  - apply respects_case_ALIVE.
  - apply respects_case_HAVE_PEER.
  - apply respects_case_MULTICAST_LIKE.
  - apply respects_ret.
  - apply respects_case_PROXY_UNITE.
  - apply respects_case_PROXY_SEND.
  - apply respects_ret.
Qed.

Lemma R_parse_loop fuel dmsg ptr c :
  R c (parse_loop fuel from now dmsg ptr c).
Proof.
  revert ptr c. induction fuel as [|fuel IH]; intros ptr c; simpl; [done |].
  destruct (ptr <? size dmsg); [| done].
  destruct (Buffer_at16 dmsg ptr) as [mlen|]; [| done].
  destruct (size dmsg <? ptr + 2 + mlen); [done |].
  eapply R_trans; [| apply IH]. apply respects_dispatch.
Qed.

End Respects.

Lemma be_decode_nonneg bs : 0 <= be_decode bs.
Proof.
  unfold be_decode.
  assert (forall acc, 0 <= acc ->
            0 <= fold_left (fun a x => a * 256 + x mod 256) bs acc) as Hgen.
  { induction bs as [|b bs IH]; intros acc Hacc; simpl; [done |].
    apply IH. pose proof (Z.mod_pos_bound b 256 ltac:(lia)). lia. }
  apply Hgen. lia.
Qed.

Lemma Buffer_at_nonneg w b i v : Buffer_at w b i = Some v -> 0 <= v.
Proof.
  unfold Buffer_at. destruct (Buffer_field b i w); simpl; [| done].
  intros [= <-]. apply be_decode_nonneg.
Qed.

Section HandlerLoop.
Context `{Crypto} `{Overlay} `{!Codec} `{!Host}.

(** The fuel [handleIncomingStateMessage] gives the loop is enough: any
    two amounts of fuel that cover the bytes left give the same result. *)
Lemma parse_loop_fuel f1 f2 from now dmsg ptr c :
  size dmsg - ptr <= Z.of_nat f1 ->
  size dmsg - ptr <= Z.of_nat f2 ->
  parse_loop f1 from now dmsg ptr c = parse_loop f2 from now dmsg ptr c.
Proof.
  revert f2 ptr c. induction f1 as [|f1 IH]; intros f2 ptr c Hf1 Hf2.
  - destruct f2 as [|f2]; [done |]. simpl.
    replace (ptr <? size dmsg) with false; [done |].
    symmetry. apply Z.ltb_ge. lia.
  - destruct f2 as [|f2]; simpl.
    + replace (ptr <? size dmsg) with false; [done |].
      symmetry. apply Z.ltb_ge. lia.
    + destruct (ptr <? size dmsg); [| done].
      destruct (Buffer_at16 dmsg ptr) as [mlen|] eqn:E; [| done].
      apply Buffer_at_nonneg in E.
      destruct (size dmsg <? ptr + 2 + mlen); [done |].
      apply IH; lia.
Qed.

Lemma parse_loop_affinity P fuel from now dmsg ptr c :
  affinity_step P now from c (parse_loop fuel from now dmsg ptr c).
Proof.
  apply (R_parse_loop (affinity_step P now from)); unfold affinity_step.
  - auto.
  - intros a b d [Hab|Hab] [Hbd|Hbd]; rewrite ?Hbd, ?Hab; auto.
  - auto.
  - auto.
  - auto.
  - auto.
  - intros id c'. simpl.
    destruct (decide (Identity_address id = P)) as [->|Hne].
    + right. apply lookup_insert_eq.
    + left. by apply lookup_insert_ne.
Qed.

(** A well-formed HAVE_PEER sub-message writes the sender and the time
    under the address of the identity it carries. *)
Lemma dispatch_HAVE_PEER from now dmsg p id n physicalAddress n' c :
  Buffer_index dmsg p = Some (type_code STATE_MESSAGE_HAVE_PEER) ->
  Identity_deserialize dmsg (p + 1) = Some (id, n) ->
  InetAddress_read dmsg (p + 1 + n) = Some (physicalAddress, n') ->
  Identity_bool id = true ->
  _peerAffinities (catch (dispatch from now dmsg p) c) !! Identity_address id
  = Some (mk_PA now from).
Proof.
  intros Ht Hid Hpa Hv.
  unfold catch, dispatch, bind, lift. rewrite Ht. simpl.
  unfold case_HAVE_PEER, bind, lift. rewrite Hid, Hpa, Hv.
  destruct (InetAddress_bool physicalAddress); simpl.
  - destruct (Topology_getPeerNoCache _ _ _); simpl; apply lookup_insert_eq.
  - apply lookup_insert_eq.
Qed.

Lemma parse_loop_HAVE_PEER from now dmsg id n physicalAddress n' ptr p :
  dispatched dmsg ptr p ->
  Buffer_index dmsg p = Some (type_code STATE_MESSAGE_HAVE_PEER) ->
  Identity_deserialize dmsg (p + 1) = Some (id, n) ->
  InetAddress_read dmsg (p + 1 + n) = Some (physicalAddress, n') ->
  Identity_bool id = true ->
  forall fuel c,
    size dmsg - ptr <= Z.of_nat fuel ->
    _peerAffinities (parse_loop fuel from now dmsg ptr c) !! Identity_address id
    = Some (mk_PA now from).
Proof.
  intros Hd Ht Hid Hpa Hv.
  induction Hd as [ptr mlen Hlt Hlen Hnext | ptr mlen p Hlt Hlen Hnext Hd IH];
    intros fuel c Hfuel.
  - destruct fuel as [|fuel]; [lia |]. simpl.
    replace (ptr <? size dmsg) with true by (symmetry; apply Z.ltb_lt; lia).
    rewrite Hlen.
    replace (size dmsg <? ptr + 2 + mlen) with false by (symmetry; apply Z.ltb_ge; lia).
    destruct (parse_loop_affinity (Identity_address id) fuel from now dmsg
                (ptr + 2 + mlen) (catch (dispatch from now dmsg (ptr + 2)) c))
      as [E|E]; rewrite E; [| done].
    eapply dispatch_HAVE_PEER; eauto.
  - destruct fuel as [|fuel]; [lia |]. simpl.
    replace (ptr <? size dmsg) with true by (symmetry; apply Z.ltb_lt; lia).
    rewrite Hlen.
    replace (size dmsg <? ptr + 2 + mlen) with false by (symmetry; apply Z.ltb_ge; lia).
    apply IH; auto.
    apply Buffer_at_nonneg in Hlen. lia.
Qed.

Lemma Buffer_at_size w b i v : Buffer_at w b i = Some v -> i + w <= size b.
Proof.
  unfold Buffer_at, Buffer_field.
  destruct ((0 <=? i) && (0 <=? w) && (i + w <=? size b)) eqn:E; [| done].
  intros _. apply andb_true_iff in E as [_ E]. by apply Z.leb_le.
Qed.

(** C3 — HAVE_PEER affinity update.  When [handleIncomingStateMessage]
    accepts a frame from member [M] (a member of [_memberIds] other than
    the local id) and its loop reaches a well-formed HAVE_PEER sub-message
    carrying an identity, then afterwards the affinity entry of that
    identity's address is [(M, now)], whatever it was before.  And for any
    frame at all, an entry found in the table afterwards is either the
    entry that was there before or is owned by a member other than the
    local id: inbound HAVE_PEER never makes the local member the owner. *)
Theorem have_peer_affinity (c : Cluster) (now : Z) (msg : list Z) :
  (forall dmsg M p id n physicalAddress n',
     unseal_frame (_key c) msg = Some dmsg ->
     Buffer_at16 dmsg 0 = Some M ->
     M <> _id c ->
     Buffer_at16 dmsg 2 = Some (_id c) ->
     M ∈ _memberIds c ->
     dispatched dmsg 4 p ->
     Buffer_index dmsg p = Some (type_code STATE_MESSAGE_HAVE_PEER) ->
     Identity_deserialize dmsg (p + 1) = Some (id, n) ->
     InetAddress_read dmsg (p + 1 + n) = Some (physicalAddress, n') ->
     Identity_bool id = true ->
     _peerAffinities (handleIncomingStateMessage now msg c) !! Identity_address id
     = Some (mk_PA now M))
  /\ (forall P e,
        _peerAffinities (handleIncomingStateMessage now msg c) !! P = Some e ->
        _peerAffinities c !! P = Some e
        \/ (ts e = now /\ mid e <> _id c /\ mid e ∈ _memberIds c)).
Proof.
  split.
  - intros dmsg M p id n pa n' Hu HM Hne Hto Hin Hd Ht Hid Hpa Hv.
    unfold handleIncomingStateMessage. rewrite Hu.
    pose proof (Buffer_at_size _ _ _ _ Hto) as Hsz.
    replace (size dmsg <? 4) with false by (symmetry; apply Z.ltb_ge; lia).
    rewrite HM, Hto.
    replace (M =? _id c) with false by (symmetry; by apply Z.eqb_neq).
    rewrite Z.eqb_refl. simpl.
    rewrite bool_decide_eq_true_2 by done. simpl.
    eapply parse_loop_HAVE_PEER; eauto. unfold size. lia.
  - intros P e. unfold handleIncomingStateMessage.
    destruct (unseal_frame (_key c) msg) as [dmsg|]; [| auto].
    destruct (size dmsg <? 4); [auto |].
    destruct (Buffer_at16 dmsg 0) as [M|]; [| auto].
    destruct (Buffer_at16 dmsg 2) as [t|]; [| auto].
    destruct (M =? _id c) eqn:E1; [auto |].
    destruct (negb (t =? _id c)); [auto |].
    destruct (bool_decide (M ∈ _memberIds c)) eqn:E3; simpl; [| auto].
    apply Z.eqb_neq in E1. apply bool_decide_eq_true in E3.
    destruct (parse_loop_affinity P (length dmsg) M now dmsg 4 c) as [E|E];
      rewrite E; [auto |].
    intros [= <-]. right. simpl. auto.
Qed.

End HandlerLoop.

(** ** Relaying and announcing *)

Section AffinityClaims.
Context `{Crypto} `{Overlay} `{!Codec} `{!Host}.

Lemma same_tables_refl c : same_tables c c.
Proof.
  repeat split. exists []. split; [by rewrite app_nil_r | constructor].
Qed.

Lemma same_tables_trans a b c : same_tables a b -> same_tables b c -> same_tables a c.
Proof.
  intros (A1 & A2 & A3 & A4 & s1 & A5 & A6) (B1 & B2 & B3 & B4 & s2 & B5 & B6).
  unfold same_tables. split_and!.
  1-3: congruence.
  - intros i. by rewrite B4.
  - exists (s1 ++ s2). split; [by rewrite B5, A5, app_assoc | by apply Forall_app].
Qed.

Lemma same_tables_with_q i (b : _Member -> list Z) c :
  same_tables c (upd_member i (fun m => with_q (b m) m) c).
Proof.
  unfold same_tables. split_and!.
  1-3: done.
  - intros j. simpl. destruct (j =? i) eqn:E; [| done].
    by apply Z.eqb_eq in E as ->.
  - exists []. split; [by rewrite app_nil_r | constructor].
Qed.

Lemma same_tables_emit memberId frame c :
  same_tables c (emit (EvSendFunction memberId frame) c).
Proof.
  repeat split. exists [EvSendFunction memberId frame]. split; [done |].
  repeat constructor. eauto.
Qed.

Lemma same_tables_flush memberId c : same_tables c (_flush memberId c).
Proof.
  unfold _flush. destruct (24 + 2 + 2 <? size (q (_members c memberId)));
    [| apply same_tables_refl].
  simpl. eapply same_tables_trans; [apply same_tables_emit |].
  eapply same_tables_trans;
    [| apply (same_tables_with_q memberId (fun _ => open_q _ _ _))].
  repeat split. exists []. split; [by rewrite app_nil_r | constructor].
Qed.

Lemma same_tables_send memberId type msg c : same_tables c (_send memberId type msg c).
Proof.
  unfold _send.
  destruct (ZT_CLUSTER_MAX_MESSAGE_LENGTH - (24 + 2 + 2) <? size msg + 3);
    [apply same_tables_refl |].
  eapply same_tables_trans;
    [| apply (same_tables_with_q memberId (fun m => q m ++ submessage type msg))].
  destruct (ZT_CLUSTER_MAX_MESSAGE_LENGTH <? _);
    [apply same_tables_flush | apply same_tables_refl].
Qed.

Lemma same_tables_send_to_all type msg c : same_tables c (send_to_all type msg c).
Proof.
  unfold send_to_all. apply (R_fold same_tables same_tables_refl same_tables_trans).
  intros c' m. apply same_tables_send.
Qed.

(** With a monotonic clock the unsigned difference is the difference. *)
Lemma u64_sub_le a b : 0 <= b <= a -> a < 2 ^ 64 -> u64_sub a b = a - b.
Proof. intros Hb Ha. unfold u64_sub. apply Z.mod_small. lia. Qed.

(** C5 — [sendViaCluster] gating.  The call returns false and leaves the
    state as it was (no frame, no raw packet) whenever the payload is
    longer than 16384 bytes, or the affinity table has no entry for the
    destination peer, or the entry is owned by the local member, or the
    entry is stale ([now - ts >= ZT_PEER_ACTIVITY_TIMEOUT], the unsigned
    64-bit difference the code computes); in every other case it returns
    true. *)
Theorem sendViaCluster_gating (c : Cluster) (now fromPeerAddress toPeerAddress : Z)
    (data : list Z) (unite : bool) :
  let rejected :=
    16384 < size data
    \/ _peerAffinities c !! toPeerAddress = None
    \/ exists pa, _peerAffinities c !! toPeerAddress = Some pa
                  /\ (mid pa = _id c
                      \/ ZT_PEER_ACTIVITY_TIMEOUT <= u64_sub now (ts pa)) in
  (rejected ->
   sendViaCluster now fromPeerAddress toPeerAddress data unite c = (false, c))
  /\ (~ rejected ->
      (sendViaCluster now fromPeerAddress toPeerAddress data unite c).1 = true).
Proof.
  intros rejected. unfold sendViaCluster.
  destruct (16384 <? size data) eqn:E0.
  { apply Z.ltb_lt in E0. split; [done |]. intros Hn. exfalso. apply Hn. by left. }
  apply Z.ltb_ge in E0.
  destruct (_peerAffinities c !! toPeerAddress) as [pa|] eqn:Ea.
  2:{ split; [done |]. intros Hn. exfalso. apply Hn. right. by left. }
  destruct (mid pa =? _id c) eqn:E1; simpl.
  { apply Z.eqb_eq in E1. split; [done |]. intros Hn. exfalso. apply Hn.
    right. right. exists pa. auto. }
  apply Z.eqb_neq in E1.
  destruct (u64_sub now (ts pa) <? ZT_PEER_ACTIVITY_TIMEOUT) eqn:E2.
  - apply Z.ltb_lt in E2. split; [| done].
    intros [Hr|[Hr|(pa' & Hr & [Hr'|Hr'])]]; try lia; try discriminate;
      injection Hr as <-; try done; lia.
  - apply Z.ltb_ge in E2. split; [done |]. intros Hn. exfalso. apply Hn.
    right. right. exists pa. auto.
Qed.

(** C10 — relay with no endpoint.  When the affinity lookup of
    [sendViaCluster] succeeds (entry present, owned by a member other than
    the local one, fresh within [ZT_PEER_ACTIVITY_TIMEOUT]) but the owning
    member has no advertised physical endpoint, the call still returns
    true, and nothing is handed to the node's packet sender: whatever the
    call adds to the history of outside calls is a cluster frame. *)
Theorem sendViaCluster_no_endpoint (c : Cluster) (now fromPeerAddress toPeerAddress : Z)
    (data : list Z) (unite : bool) (pa : _PA) :
  size data <= 16384 ->
  _peerAffinities c !! toPeerAddress = Some pa ->
  mid pa <> _id c ->
  u64_sub now (ts pa) < ZT_PEER_ACTIVITY_TIMEOUT ->
  zeroTierPhysicalEndpoints (_members c (mid pa)) = [] ->
  (sendViaCluster now fromPeerAddress toPeerAddress data unite c).1 = true
  /\ exists sent,
       events (sendViaCluster now fromPeerAddress toPeerAddress data unite c).2
       = events c ++ sent
       /\ Forall (fun e => exists m f, e = EvSendFunction m f) sent.
Proof.
  intros Hsz Ha Hne Hfresh Hnil. unfold sendViaCluster.
  replace (16384 <? size data) with false by (symmetry; apply Z.ltb_ge; lia).
  rewrite Ha.
  replace (mid pa =? _id c) with false by (symmetry; by apply Z.eqb_neq).
  replace (u64_sub now (ts pa) <? ZT_PEER_ACTIVITY_TIMEOUT) with true
    by (symmetry; apply Z.ltb_lt; lia).
  cbv zeta. simpl negb. simpl andb. cbv iota.
  set (buf := if unite then _ else _).
  set (c1 := if 0 <? size buf then _ else c).
  assert (same_tables c c1) as (_ & _ & _ & Hep & Hev).
  { unfold c1. destruct (0 <? size buf);
      [apply same_tables_send | apply same_tables_refl]. }
  rewrite Hep, Hnil. simpl. split; [done |]. exact Hev.
Qed.

Lemma _flush_other i j c : j <> i -> _members (_flush i c) j = _members c j.
Proof.
  intros Hne. unfold _flush.
  destruct (24 + 2 + 2 <? size (q (_members c i))); [| done].
  simpl. by replace (j =? i) with false by (symmetry; by apply Z.eqb_neq).
Qed.

Lemma _send_other i j type msg c : j <> i -> _members (_send i type msg c) j = _members c j.
Proof.
  intros Hne. unfold _send.
  destruct (ZT_CLUSTER_MAX_MESSAGE_LENGTH - (24 + 2 + 2) <? size msg + 3); [done |].
  simpl. replace (j =? i) with false by (symmetry; by apply Z.eqb_neq).
  destruct (ZT_CLUSTER_MAX_MESSAGE_LENGTH <? _); [by apply _flush_other | done].
Qed.

(** A sub-message that can fit in a frame ends up last in the queue. *)
Lemma _send_q_suffix i type msg c :
  size msg + 3 <= ZT_CLUSTER_MAX_MESSAGE_LENGTH - 28 ->
  exists front, q (_members (_send i type msg c) i) = front ++ submessage type msg.
Proof.
  intros Hfit. unfold _send.
  replace (ZT_CLUSTER_MAX_MESSAGE_LENGTH - (24 + 2 + 2) <? size msg + 3) with false
    by (symmetry; apply Z.ltb_ge; lia).
  simpl. rewrite Z.eqb_refl. simpl. eauto.
Qed.

Lemma send_each_suffix type msg (l : list Z) m c :
  size msg + 3 <= ZT_CLUSTER_MAX_MESSAGE_LENGTH - 28 ->
  m ∈ l ->
  exists front,
    q (_members (fold_left (fun c' i => _send i type msg c') l c) m)
    = front ++ submessage type msg.
Proof.
  intros Hfit. induction l as [|x l IH] using rev_ind; intros Hin.
  { by apply elem_of_nil in Hin. }
  rewrite fold_left_app. simpl.
  destruct (decide (m = x)) as [->|Hne].
  - by apply _send_q_suffix.
  - rewrite _send_other by done. apply IH.
    apply elem_of_app in Hin as [Hin|Hin]; [done |].
    apply list_elem_of_singleton in Hin. done.
Qed.

(** C4 — debounce of [replicateHavePeer].  Let a call at time [t1] not be
    debounced itself.  It takes (or refreshes) ownership with timestamp
    [t1] and sends HAVE_PEER to every member of [_memberIds]: each of them
    has the sub-message at the end of its queue.  A further call at time
    [t2] with [t2 - t1 < ZT_CLUSTER_HAVE_PEER_ANNOUNCE_PERIOD] (unsigned
    64-bit difference), made while the entry is still owned by the local
    member with timestamp [t1], changes nothing: no sub-message is queued,
    no frame is sent and the timestamp stays [t1].  Two successive calls
    thus produce exactly one broadcast. *)
Theorem replicateHavePeer_debounce (c : Cluster) (t1 t2 : Z) (peerId : Identity)
    (a1 a2 : InetAddress) :
  let P := Identity_address peerId in
  let buf := Identity_serialize peerId ++ InetAddress_serialize a1 in
  let c1 := replicateHavePeer t1 peerId a1 c in
  (forall pa, _peerAffinities c !! P = Some pa -> mid pa = _id c ->
              ZT_CLUSTER_HAVE_PEER_ANNOUNCE_PERIOD <= u64_sub t1 (ts pa)) ->
  u64_sub t2 t1 < ZT_CLUSTER_HAVE_PEER_ANNOUNCE_PERIOD ->
  c1 = send_to_all (type_code STATE_MESSAGE_HAVE_PEER) buf
         (with_peerAffinities (<[P := mk_PA t1 (_id c)]> (_peerAffinities c)) c)
  /\ (size buf + 3 <= ZT_CLUSTER_MAX_MESSAGE_LENGTH - 28 ->
      forall m, m ∈ _memberIds c ->
        exists front, q (_members c1 m)
                      = front ++ submessage (type_code STATE_MESSAGE_HAVE_PEER) buf)
  /\ _peerAffinities c1 !! P = Some (mk_PA t1 (_id c))
  /\ (forall c', _id c' = _id c ->
        _peerAffinities c' !! P = Some (mk_PA t1 (_id c)) ->
        replicateHavePeer t2 peerId a2 c' = c')
  /\ replicateHavePeer t2 peerId a2 c1 = c1.
Proof.
  intros P buf c1 Hfirst Hsoon.
  assert (c1 = send_to_all (type_code STATE_MESSAGE_HAVE_PEER) buf
                 (with_peerAffinities (<[P := mk_PA t1 (_id c)]> (_peerAffinities c)) c))
    as Hc1.
  { unfold c1, replicateHavePeer. fold P. fold buf.
    destruct (_peerAffinities c !! P) as [pa|] eqn:Ea; simpl; [| done].
    destruct (mid pa =? _id c) eqn:Em; simpl; [| done].
    apply Z.eqb_eq in Em. specialize (Hfirst pa eq_refl Em).
    by replace (u64_sub t1 (ts pa) <? ZT_CLUSTER_HAVE_PEER_ANNOUNCE_PERIOD) with false
      by (symmetry; apply Z.ltb_ge; lia). }
  destruct (same_tables_send_to_all (type_code STATE_MESSAGE_HAVE_PEER) buf
              (with_peerAffinities (<[P := mk_PA t1 (_id c)]> (_peerAffinities c)) c))
    as (Haff & Hid & _).
  rewrite <- Hc1 in Haff, Hid. simpl in Haff, Hid.
  assert (_peerAffinities c1 !! P = Some (mk_PA t1 (_id c))) as Hown
    by (rewrite Haff; apply lookup_insert_eq).
  assert (forall c', _id c' = _id c ->
            _peerAffinities c' !! P = Some (mk_PA t1 (_id c)) ->
            replicateHavePeer t2 peerId a2 c' = c') as Hdeb.
  { intros c' Hid' Ha'. unfold replicateHavePeer. fold P. rewrite Ha'. simpl.
    rewrite Hid', Z.eqb_refl. simpl.
    by replace (u64_sub t2 t1 <? ZT_CLUSTER_HAVE_PEER_ANNOUNCE_PERIOD) with true
      by (symmetry; apply Z.ltb_lt; lia). }
  split_and!; try done.
  - intros Hfit m Hm. rewrite Hc1. unfold send_to_all. simpl.
    by apply send_each_suffix.
  - by apply Hdeb.
Qed.

End AffinityClaims.

(** ** Periodic sweep *)

Section PeriodicClaims.
Context `{Crypto} `{Overlay} `{!Codec} `{!Host}.

Lemma sweep_lookup now a P e :
  sweep now a !! P = Some e <->
  a !! P = Some e /\ u64_sub now (ts e) < ZT_PEER_ACTIVITY_TIMEOUT * 5.
Proof. unfold sweep. by rewrite map_lookup_filter_Some. Qed.

Lemma u64_sub_diag now : u64_sub now now = 0.
Proof. unfold u64_sub. by rewrite Z.sub_diag. Qed.

Lemma u64_fresh_not_old now t k :
  0 <= t -> now < 2 ^ 64 -> 0 <= k -> u64_sub now t < k -> ~ t < now - k.
Proof.
  intros Ht Hnow Hk Hf Hold. unfold u64_sub in Hf.
  rewrite Z.mod_small in Hf by lia. lia.
Qed.

Lemma refresh_step_refl now c : refresh_step now c c.
Proof. split; auto. Qed.

Lemma refresh_step_trans now a b c :
  refresh_step now a b -> refresh_step now b c -> refresh_step now a c.
Proof.
  intros [A1 A2] [B1 B2]. split; [congruence |].
  intros P. destruct (B2 P) as [E|E]; rewrite E; [apply A2 | rewrite A1; auto].
Qed.

Lemma refresh_step_same_tables now c c' : same_tables c c' -> refresh_step now c c'.
Proof. intros (Ha & Hi & _). split; [done |]. intros P. left. by rewrite Ha. Qed.

Lemma refresh_step_replicateHavePeer now peerId a c :
  refresh_step now c (replicateHavePeer now peerId a c).
Proof.
  assert (refresh_step now c
            (send_to_all (type_code STATE_MESSAGE_HAVE_PEER)
               (Identity_serialize peerId ++ InetAddress_serialize a)
               (with_peerAffinities
                  (<[Identity_address peerId := mk_PA now (_id c)]> (_peerAffinities c)) c)))
    as Hann.
  { eapply refresh_step_trans;
      [| apply refresh_step_same_tables, same_tables_send_to_all].
    split; [done |]. intros P. simpl.
    destruct (decide (Identity_address peerId = P)) as [->|Hne].
    - right. apply lookup_insert_eq.
    - left. by apply lookup_insert_ne. }
  unfold replicateHavePeer.
  destruct (negb (owned_by _ _)); [exact Hann |].
  destruct (u64_sub now _ <? _); [apply refresh_step_refl | exact Hann].
Qed.

Lemma same_affinities_flush_member now c m :
  refresh_step now c (flush_member now c m).
Proof.
  unfold flush_member.
  eapply refresh_step_trans; [| apply refresh_step_same_tables, same_tables_flush].
  destruct (_ <=? _); [| apply refresh_step_refl].
  eapply refresh_step_trans; [apply refresh_step_same_tables, same_tables_send |].
  split; [done |]. intros P. by left.
Qed.

(** C9 — affinity sweep.  When [doPeriodicTasks] runs its sweep at time
    [now] (that is, [now - _lastCleanedPeerAffinities] has reached five
    activity timeouts), every entry left in the affinity table has an age
    [now - ts] below five activity timeouts, so none has
    [ts < now - 5 * ZT_PEER_ACTIVITY_TIMEOUT]; and an entry whose age is
    below five activity timeouts is not removed: the sweep keeps it as it
    is, and at the end of the call it is still there, unchanged or
    refreshed by the announcements of the same call. *)
Theorem affinity_sweep (c : Cluster) (now : Z) :
  ZT_PEER_ACTIVITY_TIMEOUT * 5 <= u64_sub now (_lastCleanedPeerAffinities c) ->
  now < 2 ^ 64 ->
  (forall P e,
     _peerAffinities (doPeriodicTasks now c) !! P = Some e ->
     u64_sub now (ts e) < ZT_PEER_ACTIVITY_TIMEOUT * 5
     /\ (0 <= ts e -> ~ ts e < now - ZT_PEER_ACTIVITY_TIMEOUT * 5))
  /\ (forall P e,
        _peerAffinities c !! P = Some e ->
        u64_sub now (ts e) < ZT_PEER_ACTIVITY_TIMEOUT * 5 ->
        sweep now (_peerAffinities c) !! P = Some e
        /\ exists e', _peerAffinities (doPeriodicTasks now c) !! P = Some e'
                      /\ (e' = e \/ e' = mk_PA now (_id c))).
Proof.
  intros Htrig Hnow. unfold doPeriodicTasks.
  set (c1 := periodic_sweep now c).
  assert (refresh_step now c1 (periodic_flush now (periodic_announce now c1)))
    as [_ Hstep].
  { apply refresh_step_trans with (periodic_announce now c1).
    - unfold periodic_announce. destruct (_ <=? _); [| apply refresh_step_refl].
      eapply refresh_step_trans;
        [| apply (R_fold (refresh_step now) (refresh_step_refl now)
                    (refresh_step_trans now))].
      + split; [done |]. intros P. by left.
      + intros c' peer. unfold announce_peer.
        destruct (Peer_getBestPath _ _ _);
          [apply refresh_step_replicateHavePeer | apply refresh_step_refl].
    - unfold periodic_flush. destruct (_ <=? _); [| apply refresh_step_refl].
      eapply refresh_step_trans;
        [| apply (R_fold (refresh_step now) (refresh_step_refl now)
                    (refresh_step_trans now))].
      + split; [done |]. intros P. by left.
      + intros c' m. apply same_affinities_flush_member. }
  assert (c1 = with_peerAffinities (sweep now (_peerAffinities c))
                 (with_lastCleanedPeerAffinities now c)) as Ec1.
  { unfold c1, periodic_sweep.
    by replace (ZT_PEER_ACTIVITY_TIMEOUT * 5 <=? u64_sub now (_lastCleanedPeerAffinities c))
      with true by (symmetry; by apply Z.leb_le). }
  assert (_peerAffinities c1 = sweep now (_peerAffinities c)) as Hc1 by (by rewrite Ec1).
  assert (_id c1 = _id c) as Hid1 by (by rewrite Ec1).
  split.
  - intros P e He.
    assert (u64_sub now (ts e) < ZT_PEER_ACTIVITY_TIMEOUT * 5) as Hf.
    { destruct (Hstep P) as [E|E]; rewrite E in He.
      - rewrite Hc1 in He. by apply sweep_lookup in He as [_ ?].
      - injection He as <-. simpl. by rewrite u64_sub_diag. }
    split; [done |]. intros Hts.
    apply u64_fresh_not_old; done.
  - intros P e He Hf.
    assert (sweep now (_peerAffinities c) !! P = Some e) as Hs
      by (by apply sweep_lookup).
    split; [done |].
    destruct (Hstep P) as [E|E]; rewrite E.
    + exists e. rewrite Hc1. auto.
    + exists (mk_PA now (_id c1)). rewrite Hid1. auto.
Qed.

End PeriodicClaims.

(** ** Redirector *)

Lemma SFltb_trans a b c : SFltb a b = true -> SFltb b c = true -> SFltb a c = true.
Proof.
  unfold SFltb, SFcompare.
  destruct a as [sa|sa| |sa ma ea], b as [sb|sb| |sb mb eb], c as [sc|sc| |sc mc ec];
    try destruct sa; try destruct sb; try destruct sc; try done.
  all: change (Pos.compare_cont Eq ?x ?y) with (Pos.compare x y).
  all: destruct (Z.compare_spec ea eb), (Z.compare_spec eb ec), (Z.compare_spec ea ec);
    try done; try lia.
  all: destruct (Pos.compare_spec ma mb), (Pos.compare_spec mb mc),
         (Pos.compare_spec ma mc); try done; try lia.
Qed.

Lemma first_in_family_Some family l a :
  first_in_family family l = Some a -> a ∈ l /\ ss_family a = family.
Proof.
  induction l as [|b l IH]; simpl; [done |].
  destruct (ss_family b =? family) eqn:E.
  - intros [= <-]. apply Z.eqb_eq in E. split; [apply list_elem_of_here | done].
  - intros Hf. destruct (IH Hf). split; [by apply list_elem_of_further | done].
Qed.

Lemma first_in_family_is_Some family l a :
  a ∈ l -> ss_family a = family -> is_Some (first_in_family family l).
Proof.
  intros Hin Hfam. induction l as [|b l IH]; [by apply elem_of_nil in Hin |].
  simpl. destruct (ss_family b =? family) eqn:E; [eauto |].
  apply elem_of_cons in Hin as [->|Hin]; [| by apply IH].
  apply Z.eqb_neq in E. done.
Qed.

Section RedirectorClaims.
Context `{Crypto} `{Overlay} `{!Codec} `{!Host}.

Lemma SFltb_irrefl a : SFltb a a = false.
Proof.
  unfold SFltb, SFcompare. destruct a as [s|s| |s m e]; try destruct s; try done.
  all: rewrite Z.compare_refl.
  all: change (Pos.compare_cont Eq m m) with (Pos.compare m m).
  all: by rewrite Pos.compare_refl.
Qed.

Lemma scan_step now px py pz c base seen acc m :
  scan_inv now px py pz c base seen acc ->
  scan_inv now px py pz c base (seen ++ [m]) (closer now px py pz c acc m).
Proof.
  intros Hinv. unfold closer. fold (member_distance c m px py pz).
  destruct (considered now (_members c m)) eqn:Ec.
  - destruct (SFltb (member_distance c m px py pz) acc.1.1) eqn:Elt.
    + right. exists m. simpl.
      assert (SFltb (member_distance c m px py pz) base = true) as Hbase.
      { destruct Hinv as [(Hb & _ & _)|(M & _ & [_ HM] & _ & Hd & _)].
        - by rewrite <- Hb.
        - rewrite Hd in Elt.
          by apply SFltb_trans with (member_distance c M px py pz). }
      split_and!; try done.
      * apply elem_of_app. right. apply list_elem_of_here.
      * intros M' HM' Hc'.
        apply elem_of_app in HM' as [HM'|HM'].
        2:{ apply list_elem_of_singleton in HM' as ->. apply SFltb_irrefl. }
        destruct (SFltb (member_distance c M' px py pz) (member_distance c m px py pz))
          eqn:E'; [exfalso | done].
        destruct Hinv as [(Hb & _ & Hnone)|(M & _ & _ & Hmin & Hd & _)].
        -- apply (Hnone M' HM'). split; [done |].
           by apply SFltb_trans with (member_distance c m px py pz).
        -- rewrite Hd in Elt.
           pose proof (SFltb_trans _ _ _ E' Elt) as Hlt.
           rewrite (Hmin M' HM' Hc') in Hlt. discriminate.
    + destruct Hinv as [(Hb & Hnil & Hnone)|(M & Hin & HM & Hmin & Hd & He)].
      * left. split_and!; try done. intros M HM.
        apply elem_of_app in HM as [HM|HM]; [by apply Hnone |].
        apply list_elem_of_singleton in HM as ->.
        intros [_ Hlt]. rewrite Hb in Elt. congruence.
      * right. exists M. split_and!; try done.
        -- apply elem_of_app. by left.
        -- intros M' HM' Hc'.
           apply elem_of_app in HM' as [HM'|HM']; [by apply Hmin |].
           apply list_elem_of_singleton in HM' as ->. by rewrite <- Hd.
  - destruct Hinv as [(Hb & Hnil & Hnone)|(M & Hin & HM & Hmin & Hd & He)].
    + left. split_and!; try done. intros M HM.
      apply elem_of_app in HM as [HM|HM]; [by apply Hnone |].
      apply list_elem_of_singleton in HM as ->.
      intros [Hc _]. congruence.
    + right. exists M. split_and!; try done.
      * apply elem_of_app. by left.
      * intros M' HM' Hc'.
        apply elem_of_app in HM' as [HM'|HM']; [by apply Hmin |].
        apply list_elem_of_singleton in HM' as ->. congruence.
Qed.

Lemma scan_fold now px py pz c base l seen acc :
  scan_inv now px py pz c base seen acc ->
  scan_inv now px py pz c base (seen ++ l) (fold_left (closer now px py pz c) l acc).
Proof.
  revert seen acc. induction l as [|m l IH]; intros seen acc Hinv; simpl.
  - by rewrite app_nil_r.
  - replace (seen ++ m :: l) with ((seen ++ [m]) ++ l) by (by rewrite <- app_assoc).
    apply IH. by apply scan_step.
Qed.

Lemma scan_members now px py pz c offload :
  scan_inv now px py pz c (baseline offload c px py pz) (_memberIds c)
    (fold_left (closer now px py pz c) (_memberIds c)
       (baseline offload c px py pz, _id c, [])).
Proof.
  apply (scan_fold now px py pz c _ (_memberIds c) []).
  left. simpl. split_and!; try done. intros M HM. by apply elem_of_nil in HM.
Qed.

(** C7 — geo-redirect soundness.  Whenever [findBetterEndpoint] returns
    an endpoint [E], the geolocation function gave a point for the peer's
    physical address, and [E] is an advertised physical endpoint of a
    member [M] of [_memberIds] that is live (last ALIVE within
    [ZT_CLUSTER_TIMEOUT], location not (0,0,0), at least one endpoint),
    whose distance to that point, as [_dist3d] computes it, is strictly
    less than the baseline (our own distance when [offload] is false,
    2147483648.0 when it is true); and the address family of [E] is that
    of the peer's physical address. *)
Theorem findBetterEndpoint_sound (c : Cluster) (now peerAddress : Z)
    (peerPhysicalAddress : InetAddress) (offload : bool) (E : InetAddress) :
  findBetterEndpoint now peerAddress peerPhysicalAddress offload c = Some E ->
  exists M px py pz,
    addressToLocationFunction peerPhysicalAddress = Some (px, py, pz)
    /\ M ∈ _memberIds c
    /\ u64_sub now (lastReceivedAliveAnnouncement (_members c M)) < ZT_CLUSTER_TIMEOUT
    /\ (m_x (_members c M) <> 0 \/ m_y (_members c M) <> 0 \/ m_z (_members c M) <> 0)
    /\ zeroTierPhysicalEndpoints (_members c M) <> []
    /\ E ∈ zeroTierPhysicalEndpoints (_members c M)
    /\ SFltb (_dist3d (m_x (_members c M)) (m_y (_members c M)) (m_z (_members c M))
                px py pz)
             (if offload then double_of_int 2147483648
              else _dist3d (_x c) (_y c) (_z c) px py pz) = true
    /\ ss_family E = ss_family peerPhysicalAddress.
Proof.
  unfold findBetterEndpoint.
  destruct (_hasAddressToLocationFunction c); [| done].
  destruct (addressToLocationFunction peerPhysicalAddress) as [[[px py] pz]|]; [| done].
  pose proof (scan_members now px py pz c offload) as Hinv.
  destruct (fold_left _ _ _) as [[bd bm] best]. intros Hf.
  apply first_in_family_Some in Hf as [Hin Hfam].
  destruct Hinv as [(_ & Hnil & _)|(M & HM & [Hc Hlt] & _ & _ & He)]; simpl in *.
  { subst best. by apply elem_of_nil in Hin. }
  subst best. exists M, px, py, pz.
  unfold considered in Hc.
  apply andb_true_iff in Hc as [Hc Hc3]. apply andb_true_iff in Hc as [Hc1 Hc2].
  apply Z.ltb_lt in Hc1. apply Z.ltb_lt in Hc3.
  split_and!; try done.
  - rewrite !orb_true_iff, !negb_true_iff, !Z.eqb_neq in Hc2. tauto.
  - intros Hn. rewrite Hn in Hin. by apply elem_of_nil in Hin.
Qed.

(** C8 (amended) — offload.  With [offload] set and a point returned by
    the geolocation function, [findBetterEndpoint] returns an endpoint
    whenever some live member lies closer than 2147483648.0 to that point
    and every such member to which no live member is strictly closer
    advertises an endpoint in the address family of the peer's physical
    address. *)
Theorem findBetterEndpoint_offload (c : Cluster) (now peerAddress : Z)
    (peerPhysicalAddress : InetAddress) (px py pz : Z) :
  _hasAddressToLocationFunction c = true ->
  addressToLocationFunction peerPhysicalAddress = Some (px, py, pz) ->
  (exists M, M ∈ _memberIds c
             /\ beats now px py pz c (double_of_int 2147483648) M) ->
  (forall M, M ∈ _memberIds c ->
             beats now px py pz c (double_of_int 2147483648) M ->
             nearest_of now px py pz c (_memberIds c) M ->
             exists a, a ∈ zeroTierPhysicalEndpoints (_members c M)
                       /\ ss_family a = ss_family peerPhysicalAddress) ->
  is_Some (findBetterEndpoint now peerAddress peerPhysicalAddress true c).
Proof.
  intros Hgeo Hloc (M0 & HM0 & Hb0) Hfam.
  unfold findBetterEndpoint. rewrite Hgeo, Hloc.
  pose proof (scan_members now px py pz c true) as Hinv.
  destruct (fold_left _ _ _) as [[bd bm] best].
  destruct Hinv as [(_ & _ & Hnone)|(M & HM & Hb & Hmin & _ & He)]; simpl in *.
  { exfalso. by apply (Hnone M0). }
  destruct (Hfam M HM Hb Hmin) as (a & Ha & Hfa).
  subst best. by apply first_in_family_is_Some with a.
Qed.

End RedirectorClaims.

(** * Scenarios

    The model run on concrete states, with the test doubles standing in
    for the cipher, the codecs and the environment. *)

Section ScenarioChecks.
#[local] Existing Instance test_crypto.
#[local] Existing Instance test_overlay.
#[local] Existing Instance test_codec.
#[local] Existing Instance test_host.

(** S1: the frame member 2 would flush to us carries one MULTICAST_LIKE;
    handling it calls the multicast store once, with the fields sent. *)
Example scenario_round_trip :
  exists frame,
    events (_flush 2 cluster_queued) = [EvSendFunction 2 frame]
    /\ unseal_frame (key (_members cluster_A 2)) frame
       = Some (be16 1 ++ be16 2
               ++ submessage (type_code STATE_MESSAGE_MULTICAST_LIKE) like_body)
    /\ events (handleIncomingStateMessage 1000
                 (frame_to_A 2 1
                    (submessage (type_code STATE_MESSAGE_MULTICAST_LIKE) like_body))
                 cluster_A)
       = [EvMulticastAdd 1000 0x1122334455667788 0x010203040506 0xAABBCCDD
            0x0102030405].
Proof.
  exists (seal_frame (key (_members cluster_queued 2)) (q (_members cluster_queued 2))).
  split_and!; vm_compute; reflexivity.
Qed.

(** S2: with the lowest bit of the 25th byte flipped, nothing happens. *)
Example scenario_mac_tamper :
  let frame := frame_to_A 2 1
                 (submessage (type_code STATE_MESSAGE_MULTICAST_LIKE) like_body) in
  let tampered := alter (fun b => Z.lxor b 1) 24%nat frame in
  events (handleIncomingStateMessage 1000 tampered cluster_A) = []
  /\ _peerAffinities (handleIncomingStateMessage 1000 tampered cluster_A) = ∅.
Proof. split; vm_compute; reflexivity. Qed.

(** S3 and S4: takeover at time 2000, then a debounced call. *)
Example scenario_takeover_debounce :
  let c0 := handleIncomingStateMessage 1000 have_peer_frame cluster_A in
  let c1 := replicateHavePeer 2000 peer_P peer_phys c0 in
  let c2 := replicateHavePeer 32000 peer_P peer_phys c1 in
  _peerAffinities c0 !! peer_P = Some (mk_PA 1000 2)
  /\ _peerAffinities c1 !! peer_P = Some (mk_PA 2000 1)
  /\ q (_members c1 5)
     = q (_members c0 5)
       ++ submessage (type_code STATE_MESSAGE_HAVE_PEER)
            (Identity_serialize peer_P ++ InetAddress_serialize peer_phys)
  /\ _peerAffinities c2 !! peer_P = Some (mk_PA 2000 1)
  /\ q (_members c2 2) = q (_members c1 2)
  /\ q (_members c2 5) = q (_members c1 5)
  /\ events c2 = events c1.
Proof. split_and!; vm_compute; reflexivity. Qed.

(** A heartbeat: the periodic loop of member 2 at time 20000 sends one
    frame to member 1, and member 1, handling it at time 20005, records
    the location, the endpoint and the time of member 2. *)
Example scenario_alive_exchange :
  exists frame,
    frames_for 1 (doPeriodicTasks 20000 cluster_B) = [frame]
    /\ let c := handleIncomingStateMessage 20005 frame cluster_A in
       (m_x (_members c 2), m_y (_members c 2), m_z (_members c 2)) = (7, -8, 9)
       /\ zeroTierPhysicalEndpoints (_members c 2) = [endpoint_v4 192 0 2 2 9993]
       /\ lastReceivedAliveAnnouncement (_members c 2) = 20005
       /\ events c = [].
Proof.
  exists (seal_frame (key (_members cluster_B 1))
            (q (_members cluster_B 1)
             ++ submessage (type_code STATE_MESSAGE_ALIVE)
                  (alive_message 20000 cluster_B))).
  split; [vm_compute; reflexivity |].
  cbv zeta. split_and!; vm_compute; reflexivity.
Qed.

(** S6: member 5 at (100,0,0) is closer to (200,0,0) than we are. *)
Example scenario_geo_redirect :
  findBetterEndpoint 2000 peer_P peer_phys false
    (cluster_geo 100 (endpoint_v4 203 0 113 5 9993))
  = Some (endpoint_v4 203 0 113 5 9993)
  /\ findBetterEndpoint 2000 peer_P peer_phys false (cluster_geo 100 (endpoint_v6 9993))
     = None.
Proof. split; vm_compute; reflexivity. Qed.

(** The round trip of C1 on the queue of member 2. *)
Lemma flush_unseal_roundtrip_witness :
  exists frame,
    events (_flush 2 cluster_queued) = events cluster_queued ++ [EvSendFunction 2 frame]
    /\ mac_ok (key (_members cluster_queued 2)) frame = true
    /\ unseal_frame (key (_members cluster_queued 2)) frame
       = Some (be16 1 ++ be16 2
               ++ submessage (type_code STATE_MESSAGE_MULTICAST_LIKE) like_body).
Proof.
  destruct (flush_unseal_roundtrip cluster_queued 2
              (map Z.of_nat (seq 0 16)) (replicate 8 0)
              (submessage (type_code STATE_MESSAGE_MULTICAST_LIKE) like_body) 1 2)
    as (frame & He & Hm & Hu & _).
  - vm_compute. reflexivity.
  - vm_compute. reflexivity.
  - vm_compute. reflexivity.
  - vm_compute. discriminate.
  - vm_compute. discriminate.
  - vm_compute. reflexivity.
  - exists frame. split_and!; assumption.
Defined.

(** C6 on two sub-messages queued for member 2. *)
Lemma flush_batches_one_frame_witness :
  let msgs := [(3, like_body); (2, [9])] in
  exists frame,
    events (_flush 2 (enqueue_all 2 msgs cluster_A))
    = events cluster_A ++ [EvSendFunction 2 frame]
    /\ unseal_frame (key (_members cluster_A 2)) frame
       = Some (be16 1 ++ be16 2 ++ submessage 3 like_body ++ submessage 2 [9]).
Proof.
  intros msgs.
  destruct (flush_batches_one_frame cluster_A 2 (map Z.of_nat (seq 0 16)) msgs)
    as (_ & frame & He & Hu).
  - vm_compute. reflexivity.
  - vm_compute. reflexivity.
  - discriminate.
  - vm_compute. discriminate.
  - exists frame. split; [exact He | exact Hu].
Defined.

(** C2 on a correctly sealed frame from a sender that is no member. *)
Lemma frame_rejected_witness :
  handleIncomingStateMessage 1000 stranger_frame cluster_A = cluster_A.
Proof.
  apply frame_rejected.
  do 5 right. exists 9. split.
  - vm_compute. reflexivity.
  - vm_compute. intros Hin.
    apply elem_of_cons in Hin as [Hin|Hin]; [discriminate |].
    apply elem_of_cons in Hin as [Hin|Hin]; [discriminate |].
    by apply elem_of_nil in Hin.
Defined.

(** C3 on a HAVE_PEER frame from member 2. *)
Lemma have_peer_affinity_witness :
  _peerAffinities (handleIncomingStateMessage 1000 have_peer_frame cluster_A)
    !! Identity_address peer_P
  = Some (mk_PA 1000 2).
Proof.
  assert (unseal_frame (_key cluster_A) have_peer_frame
          = Some (plain (_key cluster_A) have_peer_frame)) as Hu
    by (vm_compute; reflexivity).
  assert (Buffer_at16 (plain (_key cluster_A) have_peer_frame) 0 = Some 2) as Hfrom
    by (vm_compute; reflexivity).
  assert (2 <> _id cluster_A) as Hne by (vm_compute; discriminate).
  assert (Buffer_at16 (plain (_key cluster_A) have_peer_frame) 2
          = Some (_id cluster_A)) as Hto
    by (vm_compute; reflexivity).
  assert (2 ∈ _memberIds cluster_A) as Hin
    by (vm_compute; apply list_elem_of_here).
  assert (dispatched (plain (_key cluster_A) have_peer_frame) 4 6) as Hd.
  { apply (dispatched_here _ 4 13).
    - vm_compute. reflexivity.
    - vm_compute. reflexivity.
    - vm_compute. discriminate. }
  assert (Buffer_index (plain (_key cluster_A) have_peer_frame) 6
          = Some (type_code STATE_MESSAGE_HAVE_PEER)) as Ht
    by (vm_compute; reflexivity).
  assert (Identity_deserialize (plain (_key cluster_A) have_peer_frame) (6 + 1)
          = Some (peer_P, 5)) as Hid
    by (vm_compute; reflexivity).
  assert (InetAddress_read (plain (_key cluster_A) have_peer_frame) (6 + 1 + 5)
          = Some (peer_phys, 7)) as Hpa
    by (vm_compute; reflexivity).
  assert (Identity_bool peer_P = true) as Hv by (vm_compute; reflexivity).
  exact (proj1 (have_peer_affinity cluster_A 1000 have_peer_frame)
           _ 2 6 peer_P 5 peer_phys 7 Hu Hfrom Hne Hto Hin Hd Ht Hid Hpa Hv).
Defined.

(** C4: a first call at 2000, a second one half a period later. *)
Lemma replicateHavePeer_debounce_witness :
  let c1 := replicateHavePeer 2000 peer_P peer_phys cluster_A in
  _peerAffinities c1 !! peer_P = Some (mk_PA 2000 1)
  /\ replicateHavePeer 32000 peer_P peer_phys c1 = c1.
Proof.
  intros c1.
  destruct (replicateHavePeer_debounce cluster_A 2000 32000 peer_P peer_phys peer_phys)
    as (_ & _ & Hown & _ & Hsame).
  - intros pa Hpa. vm_compute in Hpa. discriminate.
  - vm_compute. reflexivity.
  - split; [exact Hown | exact Hsame].
Defined.

(** C5 on an empty affinity table (scenario S5). *)
Lemma sendViaCluster_gating_witness :
  sendViaCluster 1500 9 peer_P [1; 2; 3] true cluster_A = (false, cluster_A).
Proof.
  apply (proj1 (sendViaCluster_gating cluster_A 1500 9 peer_P [1; 2; 3] true)).
  right. left. vm_compute. reflexivity.
Defined.

(** C10: member 2 owns the peer and has no endpoint. *)
Lemma sendViaCluster_no_endpoint_witness :
  (sendViaCluster 1500 9 peer_P [1; 2; 3] true cluster_relay).1 = true.
Proof.
  apply (sendViaCluster_no_endpoint cluster_relay 1500 9 peer_P [1; 2; 3] true
           (mk_PA 1000 2)).
  - vm_compute. discriminate.
  - vm_compute. reflexivity.
  - vm_compute. discriminate.
  - vm_compute. reflexivity.
  - vm_compute. reflexivity.
Defined.

(** C9: a sweep at time 1500000 keeps the entry written at 1400000. *)
Lemma affinity_sweep_witness :
  sweep 1500000 (_peerAffinities cluster_old) !! peer_P = Some (mk_PA 1400000 2).
Proof.
  assert (ZT_PEER_ACTIVITY_TIMEOUT * 5
          <= u64_sub 1500000 (_lastCleanedPeerAffinities cluster_old)) as Htrig
    by (vm_compute; discriminate).
  assert (1500000 < 2 ^ 64) as Hnow by (vm_compute; reflexivity).
  apply (proj2 (affinity_sweep cluster_old 1500000 Htrig Hnow) peer_P (mk_PA 1400000 2)).
  - vm_compute. reflexivity.
  - vm_compute. reflexivity.
Defined.

(** C7 on scenario S6. *)
Lemma findBetterEndpoint_sound_witness :
  exists M,
    M ∈ _memberIds (cluster_geo 100 (endpoint_v4 203 0 113 5 9993))
    /\ endpoint_v4 203 0 113 5 9993
       ∈ zeroTierPhysicalEndpoints
           (_members (cluster_geo 100 (endpoint_v4 203 0 113 5 9993)) M)
    /\ ss_family (endpoint_v4 203 0 113 5 9993) = ss_family peer_phys.
Proof.
  destruct (findBetterEndpoint_sound (cluster_geo 100 (endpoint_v4 203 0 113 5 9993))
              2000 peer_P peer_phys false (endpoint_v4 203 0 113 5 9993))
    as (M & px & py & pz & _ & HM & _ & _ & _ & HE & _ & Hfam).
  - vm_compute. reflexivity.
  - exists M. split_and!; assumption.
Defined.

(** C8 as stated fails: offloading, with a point for the peer and member
    5 live (heard of 1000 ms ago, at (100,0,0), one endpoint), no endpoint
    is returned, because that endpoint is IPv6 and the peer came in over
    IPv4. *)
Lemma offload_completeness_counterexample :
  let c := cluster_geo 100 (endpoint_v6 9993) in
  _hasAddressToLocationFunction c = true
  /\ addressToLocationFunction peer_phys = Some (200, 0, 0)
  /\ 5 ∈ _memberIds c
  /\ u64_sub 2000 (lastReceivedAliveAnnouncement (_members c 5)) < ZT_CLUSTER_TIMEOUT
  /\ m_x (_members c 5) <> 0
  /\ zeroTierPhysicalEndpoints (_members c 5) = [endpoint_v6 9993]
  /\ findBetterEndpoint 2000 peer_P peer_phys true c = None.
Proof.
  split_and!.
  - reflexivity.
  - reflexivity.
  - vm_compute. apply list_elem_of_further, list_elem_of_here.
  - vm_compute. reflexivity.
  - vm_compute. discriminate.
  - vm_compute. reflexivity.
  - vm_compute. reflexivity.
Qed.

(** The offload baseline is finite: a live member 2147483848 away, with
    an endpoint in the peer's family, is not chosen either. *)
Example scenario_offload_far_member :
  findBetterEndpoint 2000 peer_P peer_phys true
    (cluster_geo (-2147483648) (endpoint_v4 203 0 113 5 9993))
  = None.
Proof. vm_compute. reflexivity. Qed.

(** The amended C8 on scenario S6 with offloading. *)
Lemma findBetterEndpoint_offload_witness :
  is_Some (findBetterEndpoint 2000 peer_P peer_phys true
             (cluster_geo 100 (endpoint_v4 203 0 113 5 9993))).
Proof.
  apply (findBetterEndpoint_offload (cluster_geo 100 (endpoint_v4 203 0 113 5 9993))
           2000 peer_P peer_phys 200 0 0).
  - reflexivity.
  - reflexivity.
  - exists 5. split; [vm_compute; apply list_elem_of_further, list_elem_of_here |].
    split; vm_compute; reflexivity.
  - intros M HM Hb _. vm_compute in HM.
    apply elem_of_cons in HM as [->|HM].
    { destruct Hb as [Hc _]. vm_compute in Hc. discriminate. }
    apply elem_of_cons in HM as [->|HM]; [| by apply elem_of_nil in HM].
    exists (endpoint_v4 203 0 113 5 9993). split; [| reflexivity].
    vm_compute. apply list_elem_of_here.
Defined.

End ScenarioChecks.

(** * Further properties *)

(** ** The sub-message stream of a link *)

Section StreamProperties.
Context `{Crypto} `{Overlay} `{!Codec} `{!Host}.

Lemma plain_seal key b :
  24 <= size b <= ZT_CLUSTER_MAX_MESSAGE_LENGTH ->
  plain key (seal_frame key b) = drop 24 b.
Proof.
  intros Hb. pose proof (unseal_seal key b Hb) as Hu.
  apply unseal_Some in Hu. done.
Qed.

Lemma frames_to_app m l1 l2 : frames_to m (l1 ++ l2) = frames_to m l1 ++ frames_to m l2.
Proof. unfold frames_to. apply omap_app. Qed.

Lemma queue_ok_size c m : queue_ok c m -> 28 <= size (q (_members c m)).
Proof.
  intros (iv & pending & Hiv & Hq & _). rewrite Hq, size_app, size_open_q by done.
  pose proof (size_nonneg pending). lia.
Qed.

Lemma open_q_drop24 iv from to pending :
  length iv = 16%nat ->
  drop 24 (open_q iv from to ++ pending) = be16 from ++ be16 to ++ pending.
Proof.
  intros Hiv. unfold open_q. rewrite <- !app_assoc, (app_assoc iv).
  apply drop_app_length'. rewrite length_app, Hiv. done.
Qed.

Lemma open_q_drop28 iv from to pending :
  length iv = 16%nat -> drop 28 (open_q iv from to ++ pending) = pending.
Proof.
  intros Hiv. apply drop_app_length'.
  unfold open_q. rewrite !length_app, Hiv. done.
Qed.

Lemma stream_step_refl m c : queue_ok c m -> stream_step m c c [] [].
Proof.
  intros Hok. unfold stream_step. split_and!; try done.
  - by rewrite app_nil_r.
  - simpl. by rewrite app_nil_r.
Qed.

Lemma stream_step_trans m c c1 c2 fs1 fs2 a1 a2 :
  stream_step m c c1 fs1 a1 -> stream_step m c1 c2 fs2 a2 ->
  stream_step m c c2 (fs1 ++ fs2) (a1 ++ a2).
Proof.
  intros (F1 & U1 & S1 & K1 & I1 & Q1) (F2 & U2 & S2 & K2 & I2 & Q2).
  unfold stream_step. rewrite K1 in U2, S2. rewrite I1 in U2. split_and!.
  - by rewrite F2, F1, app_assoc.
  - by apply Forall_app.
  - rewrite map_app, concat_app, <- app_assoc, S2, !app_assoc. by rewrite S1.
  - congruence.
  - congruence.
  - done.
Qed.

Lemma _flush_big m c :
  28 < size (q (_members c m)) ->
  events (_flush m c)
  = events c ++ [EvSendFunction m (seal_frame (key (_members c m)) (q (_members c m)))]
  /\ q (_members (_flush m c) m)
     = open_q (map (secureRandom (randomCalls c)) (seq 0 16)) (_id c) m
  /\ key (_members (_flush m c) m) = key (_members c m)
  /\ _id (_flush m c) = _id c.
Proof.
  intros Hs. unfold _flush.
  replace (24 + 2 + 2 <? size (q (_members c m))) with true
    by (symmetry; apply Z.ltb_lt; lia).
  cbn -[seal_frame open_q map seq]. rewrite Z.eqb_refl. done.
Qed.

Lemma stream_flush m c :
  queue_ok c m ->
  exists fs, stream_step m c (_flush m c) fs []
             /\ drop 28 (q (_members (_flush m c) m)) = [].
Proof.
  intros Hok. pose proof (queue_ok_size c m Hok) as H28.
  destruct Hok as (iv & pending & Hiv & Hq & Hmax).
  destruct (decide (28 < size (q (_members c m)))) as [E|E].
  - destruct (_flush_big m c E) as (He & Hq' & Hk' & Hi').
    assert (length (map (secureRandom (randomCalls c)) (seq 0 16)) = 16%nat) as Hiv'
      by (by rewrite length_map, length_seq).
    exists [seal_frame (key (_members c m)) (q (_members c m))].
    assert (plain (key (_members c m))
              (seal_frame (key (_members c m)) (q (_members c m)))
            = be16 (_id c) ++ be16 m ++ pending) as Hp.
    { rewrite plain_seal by lia. rewrite Hq. by apply open_q_drop24. }
    split.
    2:{ rewrite Hq'. rewrite <- (app_nil_r (open_q _ _ _)). by apply open_q_drop28. }
    unfold stream_step. split_and!; try done.
    + rewrite He, frames_to_app. simpl. by rewrite Z.eqb_refl.
    + constructor; [| constructor]. exists pending.
      rewrite unseal_seal by lia. rewrite Hq. f_equal. by apply open_q_drop24.
    + unfold frame_body. cbn [map concat]. rewrite Hp, app_nil_r.
      rewrite Hq'. rewrite <- (app_nil_r (open_q _ _ _)).
      rewrite open_q_drop28 by done. rewrite app_nil_r.
      rewrite Hq, open_q_drop28 by done. simpl. by rewrite app_nil_r.
    + exists (map (secureRandom (randomCalls c)) (seq 0 16)), [].
      rewrite Hi', Hq', app_nil_r. split_and!; try done.
  - assert (pending = []) as ->.
    { rewrite Hq, size_app, size_open_q in E by done.
      destruct pending; [done |]. unfold size in E. simpl in E. lia. }
    rewrite _flush_small by lia.
    exists []. split.
    + apply stream_step_refl. exists iv, []. done.
    + rewrite Hq. by apply open_q_drop28.
Qed.

Lemma stream_append m c b :
  queue_ok c m ->
  size (q (_members c m)) + size b <= ZT_CLUSTER_MAX_MESSAGE_LENGTH ->
  stream_step m c (upd_member m (fun r => with_q (q r ++ b) r) c) [] b.
Proof.
  intros (iv & pending & Hiv & Hq & Hmax) Hfit.
  unfold stream_step. simpl. rewrite Z.eqb_refl. simpl. split_and!; try done.
  - by rewrite app_nil_r.
  - rewrite Hq, <- app_assoc, !open_q_drop28 by done. done.
  - exists iv, (pending ++ b). simpl. rewrite Z.eqb_refl. simpl. split_and!; try done.
    + by rewrite Hq, app_assoc.
    + rewrite size_app. lia.
Qed.

Lemma stream_send m type msg c :
  queue_ok c m ->
  exists fs, stream_step m c (_send m type msg c) fs
               (if fits msg then submessage type msg else []).
Proof.
  intros Hok. unfold _send, fits.
  destruct (ZT_CLUSTER_MAX_MESSAGE_LENGTH - (24 + 2 + 2) <? size msg + 3) eqn:E1.
  { apply Z.ltb_lt in E1.
    replace (size msg + 3 <=? ZT_CLUSTER_MAX_MESSAGE_LENGTH - (24 + 2 + 2)) with false
      by (symmetry; apply Z.leb_gt; lia).
    exists []. by apply stream_step_refl. }
  apply Z.ltb_ge in E1.
  replace (size msg + 3 <=? ZT_CLUSTER_MAX_MESSAGE_LENGTH - (24 + 2 + 2)) with true
    by (symmetry; apply Z.leb_le; lia).
  destruct (ZT_CLUSTER_MAX_MESSAGE_LENGTH <? size (q (_members c m)) + size msg + 3) eqn:E2.
  - apply Z.ltb_lt in E2.
    destruct (stream_flush m c Hok) as (fs & Hstep & Hbare).
    exists (fs ++ []). change (submessage type msg) with ([] ++ submessage type msg).
    eapply stream_step_trans; [exact Hstep |].
    destruct Hstep as (_ & _ & _ & _ & _ & Hok').
    apply stream_append; [done |].
    destruct Hok' as (iv & pending & Hiv & Hq & _).
    rewrite Hq in Hbare. rewrite open_q_drop28 in Hbare by done. subst pending.
    rewrite Hq, app_nil_r, size_open_q, size_submessage by done. lia.
  - apply Z.ltb_ge in E2. exists [].
    apply stream_append; [done |]. rewrite size_submessage. lia.
Qed.

Lemma stream_enqueue_all m msgs c :
  queue_ok c m ->
  exists fs, stream_step m c (enqueue_all m msgs c) fs
               (serialized (filter (fun tm => fits tm.2) msgs)).
Proof.
  revert c. induction msgs as [|tm msgs IH]; intros c Hok.
  { exists []. by apply stream_step_refl. }
  change (enqueue_all m (tm :: msgs) c)
    with (enqueue_all m msgs (_send m tm.1 tm.2 c)).
  destruct (stream_send m tm.1 tm.2 c Hok) as (fs1 & Hs1).
  pose proof Hs1 as (_ & _ & _ & _ & _ & Hok1).
  destruct (IH _ Hok1) as (fs2 & Hs2).
  exists (fs1 ++ fs2).
  replace (serialized (filter (fun tm0 => fits tm0.2) (tm :: msgs)))
    with ((if fits tm.2 then submessage tm.1 tm.2 else [])
          ++ serialized (filter (fun tm0 => fits tm0.2) msgs)).
  - by eapply stream_step_trans.
  - rewrite filter_cons. destruct (fits tm.2) eqn:E.
    + rewrite decide_True by done. done.
    + rewrite decide_False by (by intros ?). done.
Qed.

Lemma frames_to_send_other j m type msg c :
  j <> m -> frames_to m (events (_send j type msg c)) = frames_to m (events c).
Proof.
  intros Hne.
  assert (frames_to m (events (_flush j c)) = frames_to m (events c)) as Hfl.
  { destruct (decide (28 < size (q (_members c j)))) as [E|E].
    - destruct (_flush_big j c E) as (He & _). rewrite He, frames_to_app. simpl.
      replace (j =? m) with false by (symmetry; by apply Z.eqb_neq).
      by rewrite app_nil_r.
    - rewrite _flush_small by lia. done. }
  unfold _send.
  destruct (ZT_CLUSTER_MAX_MESSAGE_LENGTH - (24 + 2 + 2) <? size msg + 3); [done |].
  cbn [events upd_member set_member with_members].
  destruct (ZT_CLUSTER_MAX_MESSAGE_LENGTH <? _); [exact Hfl | done].
Qed.

Lemma stream_send_other j m type msg c :
  j <> m -> queue_ok c m -> stream_step m c (_send j type msg c) [] [].
Proof.
  intros Hne Hok.
  assert (_members (_send j type msg c) m = _members c m) as Hm
    by (apply _send_other; congruence).
  destruct (same_tables_send j type msg c) as (_ & Hid & _).
  unfold stream_step. rewrite Hm, Hid, frames_to_send_other by done.
  split_and!; try done.
  - by rewrite app_nil_r.
  - simpl. by rewrite app_nil_r.
  - unfold queue_ok. rewrite Hm, Hid. exact Hok.
Qed.

Lemma stream_send_each m type msg (l : list Z) c :
  NoDup l -> queue_ok c m ->
  exists fs,
    stream_step m c (fold_left (fun c' i => _send i type msg c') l c) fs
      (if bool_decide (m ∈ l) && fits msg then submessage type msg else []).
Proof.
  intros Hnd. revert c. induction Hnd as [|x l Hx Hnd IH]; intros c Hok.
  { exists []. by apply stream_step_refl. }
  simpl. destruct (decide (x = m)) as [->|Hne].
  - destruct (stream_send m type msg c Hok) as (fs1 & Hs1).
    pose proof Hs1 as (_ & _ & _ & _ & _ & Hok1).
    destruct (IH _ Hok1) as (fs2 & Hs2).
    rewrite bool_decide_eq_false_2 in Hs2 by done. simpl in Hs2.
    rewrite bool_decide_eq_true_2 by apply list_elem_of_here. simpl.
    exists (fs1 ++ fs2).
    rewrite <- (app_nil_r (if fits msg then _ else _)).
    by eapply stream_step_trans.
  - pose proof (stream_send_other x m type msg c Hne Hok) as Hs1.
    pose proof Hs1 as (_ & _ & _ & _ & _ & Hok1).
    destruct (IH _ Hok1) as (fs2 & Hs2).
    exists ([] ++ fs2).
    replace (bool_decide (m ∈ x :: l)) with (bool_decide (m ∈ l)).
    + change (if bool_decide (m ∈ l) && fits msg then submessage type msg else [])
        with ([] ++ (if bool_decide (m ∈ l) && fits msg then submessage type msg else [])).
      by eapply stream_step_trans.
    + apply bool_decide_ext. rewrite elem_of_cons.
      split; [by right | intros [E|E]; [congruence | done]].
Qed.

Lemma send_each_untouched type msg (l : list Z) j c :
  j ∉ l -> _members (fold_left (fun c' i => _send i type msg c') l c) j = _members c j.
Proof.
  revert c. induction l as [|x l IH]; intros c Hj; [done |].
  simpl. rewrite IH by (intros ?; apply Hj; by apply list_elem_of_further).
  apply _send_other. intros ->. apply Hj. apply list_elem_of_here.
Qed.

(** X1 — the sub-message stream of a link.  On a well-formed queue, any
    run of [_send] calls followed by [_flush] hands member [m] a sequence
    of frames, each of which unseals under the member's key to our id, the
    member's id and a body; the bodies, concatenated in sending order, are
    exactly what was pending before followed by the serialized
    sub-messages of the calls, in call order, without those too long to
    fit in any frame (which [_send] drops); afterwards the queue is a
    bare header.  Nothing is lost, repeated or reordered when [_send]
    flushes by itself. *)
Theorem enqueue_flush_stream (c : Cluster) (m : Z) (msgs : list (Z * list Z)) :
  queue_ok c m ->
  exists fs,
    frames_to m (events (_flush m (enqueue_all m msgs c)))
    = frames_to m (events c) ++ fs
    /\ Forall (fun f => exists body,
                  unseal_frame (key (_members c m)) f
                  = Some (be16 (_id c) ++ be16 m ++ body)) fs
    /\ concat (map (frame_body (key (_members c m))) fs)
       = drop 28 (q (_members c m))
         ++ serialized (filter (fun tm => fits tm.2) msgs)
    /\ exists iv, length iv = 16%nat
                  /\ q (_members (_flush m (enqueue_all m msgs c)) m)
                     = open_q iv (_id c) m.
Proof.
  intros Hok.
  destruct (stream_enqueue_all m msgs c Hok) as (fs1 & Hs1).
  pose proof Hs1 as (_ & _ & _ & _ & _ & Hok1).
  destruct (stream_flush m _ Hok1) as (fs2 & Hs2 & Hbare).
  pose proof (stream_step_trans _ _ _ _ _ _ _ _ Hs1 Hs2) as (F & U & S & K & I & Q).
  exists (fs1 ++ fs2). rewrite Hbare, !app_nil_r in S. split_and!; try done.
  destruct Q as (iv & pending & Hiv & Hq & _).
  rewrite Hq, open_q_drop28 in Hbare by done. subst pending.
  exists iv. rewrite app_nil_r in Hq. rewrite I in Hq. done.
Qed.

(** X2 — a broadcast reaches every member once.  The loop shared by
    [replicateHavePeer], [replicateMulticastLike] and
    [replicateCertificateOfNetworkMembership], run over a duplicate-free
    [_memberIds] with a sub-message that fits in a frame, adds exactly one
    copy of the sub-message to the stream of every member whose queue is
    well formed, behind what was pending for it, and leaves the record of
    every id outside [_memberIds] as it was. *)
Theorem broadcast_once (c : Cluster) (type : Z) (msg : list Z) :
  NoDup (_memberIds c) ->
  fits msg = true ->
  (forall m, m ∈ _memberIds c -> queue_ok c m ->
     exists fs,
       frames_to m (events (send_to_all type msg c)) = frames_to m (events c) ++ fs
       /\ concat (map (frame_body (key (_members c m))) fs)
          ++ drop 28 (q (_members (send_to_all type msg c) m))
          = drop 28 (q (_members c m)) ++ submessage type msg
       /\ queue_ok (send_to_all type msg c) m)
  /\ (forall j, j ∉ _memberIds c ->
        _members (send_to_all type msg c) j = _members c j).
Proof.
  intros Hnd Hfit. split.
  - intros m Hm Hok.
    destruct (stream_send_each m type msg (_memberIds c) c Hnd Hok)
      as (fs & F & _ & S & _ & _ & Q).
    rewrite bool_decide_eq_true_2, Hfit in S by done.
    exists fs. done.
  - intros j Hj. by apply send_each_untouched.
Qed.

End StreamProperties.

(** ** Member registry *)

Lemma insert_sorted_perm x l : insert_sorted x l ≡ₚ x :: l.
Proof.
  induction l as [|y l IH]; simpl; [done |].
  destruct (x <=? y); [done |].
  rewrite IH. apply Permutation_swap.
Qed.

Lemma insert_sorted_sorted x l :
  StronglySorted Z.lt l -> x ∉ l -> StronglySorted Z.lt (insert_sorted x l).
Proof.
  induction l as [|y l IH]; intros Hs Hx; simpl.
  { repeat constructor. }
  apply StronglySorted_inv in Hs as [Hs Hy].
  assert (x <> y) as Hxy by (intros ->; apply Hx; apply list_elem_of_here).
  assert (x ∉ l) as Hxl by (intros ?; apply Hx; by apply list_elem_of_further).
  destruct (x <=? y) eqn:E.
  - apply Z.leb_le in E. constructor.
    + by constructor.
    + constructor; [lia |]. eapply Forall_impl; [exact Hy |]. simpl. intros; lia.
  - apply Z.leb_gt in E. constructor; [by apply IH |].
    rewrite insert_sorted_perm. by constructor.
Qed.

Lemma insert_all_sorted (l acc : list Z) :
  StronglySorted Z.lt acc -> NoDup (l ++ acc) ->
  StronglySorted Z.lt (fold_right insert_sorted acc l)
  /\ fold_right insert_sorted acc l ≡ₚ l ++ acc.
Proof.
  intros Hacc. induction l as [|x l IH]; intros Hnd; simpl; [done |].
  simpl in Hnd. apply NoDup_cons in Hnd as [Hx Hnd].
  destruct (IH Hnd) as [Hs Hp]. split.
  - apply insert_sorted_sorted; [done |]. by rewrite Hp.
  - by rewrite insert_sorted_perm, Hp.
Qed.

Lemma StronglySorted_lt_NoDup (l : list Z) : StronglySorted Z.lt l -> NoDup l.
Proof.
  induction 1 as [|x l Hs IH Hx]; constructor; [| done].
  intros Hin. rewrite Forall_forall in Hx. specialize (Hx x Hin). lia.
Qed.

Lemma sort_ids_snoc (l : list Z) x :
  StronglySorted Z.lt l -> x ∉ l ->
  StronglySorted Z.lt (sort_ids (l ++ [x])) /\ sort_ids (l ++ [x]) ≡ₚ x :: l.
Proof.
  intros Hs Hx. unfold sort_ids. rewrite fold_right_app. simpl.
  destruct (insert_all_sorted l [x]) as [Hs' Hp].
  - repeat constructor.
  - rewrite NoDup_app. split_and!.
    + by apply StronglySorted_lt_NoDup.
    + intros y Hy Hyx. apply list_elem_of_singleton in Hyx as ->. done.
    + apply NoDup_singleton.
  - split; [done |]. rewrite Hp. symmetry. apply Permutation_cons_append.
Qed.

Lemma Forall_filter_keep {A} (P Q : A -> Prop) `{!forall x, Decision (Q x)} (l : list A) :
  Forall P l -> Forall P (filter Q l).
Proof.
  rewrite !Forall_forall. intros HP x Hx.
  apply list_elem_of_filter in Hx as [_ Hx]. by apply HP.
Qed.

Lemma StronglySorted_lt_filter (P : Z -> Prop) `{!forall x, Decision (P x)} (l : list Z) :
  StronglySorted Z.lt l -> StronglySorted Z.lt (filter P l).
Proof.
  induction 1 as [|x l Hs IH Hx]; [constructor |].
  rewrite filter_cons. destruct (decide (P x)); [| done].
  constructor; [done |]. by apply Forall_filter_keep.
Qed.

Section RegistryProperties.
Context `{Crypto} `{Overlay} `{!Codec} `{!Host}.

Lemma addMember_rejected m c :
  ZT_CLUSTER_MAX_MEMBERS <= m \/ m = _id c \/ m ∈ _memberIds c -> addMember m c = c.
Proof.
  intros Hr. unfold addMember.
  destruct (ZT_CLUSTER_MAX_MEMBERS <=? m) eqn:E1; [done |].
  destruct (m =? _id c) eqn:E2; [done |]. simpl.
  destruct (bool_decide (m ∈ _memberIds c)) eqn:E3; [done |].
  apply Z.leb_gt in E1. apply Z.eqb_neq in E2. apply bool_decide_eq_false in E3.
  destruct Hr as [?|[?|?]]; [lia | done | done].
Qed.

Lemma addMember_accepted m c :
  m < ZT_CLUSTER_MAX_MEMBERS -> m <> _id c -> m ∉ _memberIds c ->
  _memberIds (addMember m c) = sort_ids (_memberIds c ++ [m])
  /\ _id (addMember m c) = _id c
  /\ _peerAffinities (addMember m c) = _peerAffinities c
  /\ events (addMember m c) = events c
  /\ (forall j, j <> m -> _members (addMember m c) j = _members c j)
  /\ _members (addMember m c) m
     = with_q (open_q (map (secureRandom (randomCalls c)) (seq 0 16)) (_id c) m)
         (with_key (derive_key (_masterSecret c) m) _Member_clear).
Proof.
  intros H1' H2' H3'. unfold addMember.
  replace (ZT_CLUSTER_MAX_MEMBERS <=? m) with false by (symmetry; apply Z.leb_gt; lia).
  replace (m =? _id c) with false by (symmetry; by apply Z.eqb_neq).
  rewrite bool_decide_eq_false_2 by done.
  cbn -[sort_ids open_q derive_key map seq]. rewrite !Z.eqb_refl.
  split_and!; try done.
  intros j Hj. by replace (j =? m) with false by (symmetry; by apply Z.eqb_neq).
Qed.

(** X3 — the member id set.  [addMember] and [removeMember] keep
    [_memberIds] strictly increasing (so free of duplicates) and made of
    ids below [ZT_CLUSTER_MAX_MEMBERS] other than the local id.
    [addMember] adds its argument exactly when it is below the bound, is
    not the local id and is not yet present, and changes no other
    membership; [removeMember] removes its argument and nothing else. *)
Theorem member_ids_kept (c : Cluster) (m : Z) :
  wf_members c ->
  0 <= m ->
  wf_members (addMember m c)
  /\ (forall j, j ∈ _memberIds (addMember m c)
                <-> j ∈ _memberIds c
                    \/ (j = m /\ m < ZT_CLUSTER_MAX_MEMBERS /\ m <> _id c))
  /\ wf_members (removeMember m c)
  /\ (forall j, j ∈ _memberIds (removeMember m c) <-> j ∈ _memberIds c /\ j <> m).
Proof.
  intros [Hs Hb] Hm.
  assert (wf_members (removeMember m c)
          /\ forall j, j ∈ _memberIds (removeMember m c) <-> j ∈ _memberIds c /\ j <> m)
    as Hrem.
  { split.
    - split; simpl.
      + by apply StronglySorted_lt_filter.
      + by apply Forall_filter_keep.
    - intros j. simpl. by rewrite list_elem_of_filter, (comm and). }
  destruct (decide (ZT_CLUSTER_MAX_MEMBERS <= m \/ m = _id c \/ m ∈ _memberIds c))
    as [Hr|Hr].
  - rewrite (addMember_rejected m c Hr). split_and!; try done; try apply Hrem.
    intros j. split; [auto |]. intros [?|(-> & ? & ?)]; [done |].
    destruct Hr as [?|[?|?]]; [lia | done | done].
  - assert (m < ZT_CLUSTER_MAX_MEMBERS) as Hlt by (destruct (decide (m < ZT_CLUSTER_MAX_MEMBERS)); [done | exfalso; apply Hr; lia]).
    assert (m <> _id c) as Hne by (intros ?; apply Hr; auto).
    assert (m ∉ _memberIds c) as Hni by (intros ?; apply Hr; auto).
    destruct (addMember_accepted m c Hlt Hne Hni) as (Hids & Hid & _).
    destruct (sort_ids_snoc (_memberIds c) m Hs Hni) as [Hs' Hp].
    split_and!; try apply Hrem.
    + split; rewrite Hids; [done |]. rewrite Hid, Hp. by constructor.
    + intros j. rewrite Hids, Hp, elem_of_cons. split.
      * intros [->|?]; auto.
      * intros [?|(-> & _)]; auto.
Qed.

(** X4 — what [addMember] opens.  When [addMember] accepts id [m], the
    member's queue is a bare header from the local id to [m] with nothing
    pending, its link key is the one derived from the master secret and
    [m], and its record is otherwise cleared, so that the redirector does
    not consider the member until an ALIVE from it has been handled; the
    records of the other ids, the affinity table and the history of
    outside calls are as before. *)
Theorem addMember_opens_link (c : Cluster) (m : Z) :
  m < ZT_CLUSTER_MAX_MEMBERS ->
  m <> _id c ->
  m ∉ _memberIds c ->
  queue_ok (addMember m c) m
  /\ drop 28 (q (_members (addMember m c) m)) = []
  /\ key (_members (addMember m c) m) = derive_key (_masterSecret c) m
  /\ (forall now, considered now (_members (addMember m c) m) = false)
  /\ (forall j, j <> m -> _members (addMember m c) j = _members c j)
  /\ _peerAffinities (addMember m c) = _peerAffinities c
  /\ events (addMember m c) = events c.
Proof.
  intros Hlt Hne Hni.
  destruct (addMember_accepted m c Hlt Hne Hni) as (_ & Hid & Ha & He & Ho & Hm).
  assert (length (map (secureRandom (randomCalls c)) (seq 0 16)) = 16%nat) as Hiv
    by (by rewrite length_map, length_seq).
  split_and!; try done.
  - exists (map (secureRandom (randomCalls c)) (seq 0 16)), [].
    rewrite Hm, Hid, app_nil_r. split_and!; try done.
  - rewrite Hm. cbn [q with_q].
    rewrite <- (app_nil_r (open_q _ _ _)). by apply open_q_drop28.
  - by rewrite Hm.
  - intros now. rewrite Hm. unfold considered. cbn.
    by rewrite andb_false_r.
Qed.

End RegistryProperties.

(** ** Big-endian fields *)

Lemma be_bytes_S w v :
  be_bytes (S w) v = (v / 256 ^ Z.of_nat w) mod 256 :: be_bytes w v.
Proof.
  unfold be_bytes. rewrite seq_S, rev_app_distr. done.
Qed.

Lemma length_be_bytes w v : length (be_bytes w v) = w.
Proof. unfold be_bytes. by rewrite length_map, length_rev, length_seq. Qed.

Lemma size_be_bytes w v : size (be_bytes w v) = Z.of_nat w.
Proof. unfold size. by rewrite length_be_bytes. Qed.

Lemma be_decode_from acc bs :
  fold_left (fun a x => a * 256 + x mod 256) bs acc
  = acc * 256 ^ Z.of_nat (length bs) + be_decode bs.
Proof.
  unfold be_decode. revert acc. induction bs as [|b bs IH]; intros acc.
  { simpl. lia. }
  cbn [fold_left length]. rewrite IH, (IH (0 * 256 + b mod 256)).
  rewrite Nat2Z.inj_succ, Z.pow_succ_r by lia. lia.
Qed.

Lemma be_decode_be_bytes w v : be_decode (be_bytes w v) = v mod 256 ^ Z.of_nat w.
Proof.
  induction w as [|w IH].
  { simpl. by rewrite Z.mod_1_r. }
  rewrite be_bytes_S. unfold be_decode. cbn [fold_left].
  rewrite be_decode_from, IH, length_be_bytes, Z.mod_mod by lia.
  rewrite Nat2Z.inj_succ, Z.pow_succ_r by lia.
  rewrite (Z.mul_comm 256), Z.rem_mul_r by lia. lia.
Qed.

Lemma to_int32_be_decode v :
  - 2 ^ 31 <= v < 2 ^ 31 -> to_int32 (be_decode (be_bytes 4 v)) = v.
Proof.
  intros Hv. rewrite be_decode_be_bytes. change (256 ^ Z.of_nat 4) with (2 ^ 32).
  unfold to_int32. destruct (decide (0 <= v)) as [Hp|Hn].
  - rewrite Z.mod_small by lia.
    replace (v <? 2 ^ 31) with true by (symmetry; apply Z.ltb_lt; lia). done.
  - replace (v mod 2 ^ 32) with (v + 2 ^ 32).
    + replace (v + 2 ^ 32 <? 2 ^ 31) with false by (symmetry; apply Z.ltb_ge; lia). lia.
    + apply Z.mod_unique with (-1); lia.
Qed.

(** Reading a field that sits between a prefix and a suffix. *)
Lemma Buffer_field_at (b p a r : list Z) (i l : Z) :
  b = p ++ a ++ r -> i = size p -> l = size a -> Buffer_field b i l = Some a.
Proof. intros -> -> ->. apply Buffer_field_middle. Qed.

Lemma Buffer_at_at (w : nat) (b p r : list Z) (v i : Z) :
  b = p ++ be_bytes w v ++ r -> i = size p ->
  Buffer_at (Z.of_nat w) b i = Some (v mod 256 ^ Z.of_nat w).
Proof.
  intros Hb Hi. unfold Buffer_at.
  rewrite (Buffer_field_at b p (be_bytes w v) r) by (done || by rewrite size_be_bytes).
  simpl. by rewrite be_decode_be_bytes.
Qed.

Lemma Buffer_index_at (b p r : list Z) (x i : Z) :
  b = p ++ [x] ++ r -> i = size p -> Buffer_index b i = Some (x mod 256).
Proof.
  intros -> ->. unfold Buffer_index.
  replace ((0 <=? size p) && (size p <? size (p ++ [x] ++ r))) with true.
  - unfold size. rewrite Nat2Z.id.
    rewrite lookup_app_r by lia. by rewrite Nat.sub_diag.
  - symmetry. rewrite andb_true_iff, Z.leb_le, Z.ltb_lt, !size_app.
    pose proof (size_nonneg p). pose proof (size_nonneg r).
    change (size [x]) with 1. lia.
Qed.

(** ** The decoding loop on what the framer sends *)

Lemma size_singleton {A} (x : A) : size [x] = 1.
Proof. done. Qed.

Section DecoderProperties.
Context `{Crypto} `{Overlay} `{!Codec} `{!Host}.

(** The checks between unsealing and the decoding loop. *)
Lemma handle_accepts now f d a c :
  unseal_frame (_key c) f = Some d ->
  Buffer_at16 d 0 = Some a ->
  Buffer_at16 d 2 = Some (_id c) ->
  a <> _id c ->
  a ∈ _memberIds c ->
  handleIncomingStateMessage now f c = parse_loop (length d) a now d 4 c.
Proof.
  intros Hu Ha Hto Hne Hin. unfold handleIncomingStateMessage. rewrite Hu.
  pose proof (Buffer_at_size _ _ _ _ Hto) as Hsz.
  replace (size d <? 4) with false by (symmetry; apply Z.ltb_ge; lia).
  rewrite Ha, Hto.
  replace (a =? _id c) with false by (symmetry; by apply Z.eqb_neq).
  rewrite Z.eqb_refl. simpl.
  by rewrite bool_decide_eq_true_2 by done.
Qed.

Lemma serialized_cons t p msgs :
  serialized ((t, p) :: msgs) = submessage t p ++ serialized msgs.
Proof. done. Qed.

(** On sub-messages laid out one after the other the loop runs one round
    per sub-message. *)
Lemma parse_loop_serialized from now dmsg msgs :
  Forall (fun tm => size tm.2 < 65535) msgs ->
  forall pre fuel c,
    dmsg = pre ++ serialized msgs ->
    size (serialized msgs) <= Z.of_nat fuel ->
    parse_loop fuel from now dmsg (size pre) c
    = dispatch_all from now dmsg (size pre) msgs c.
Proof.
  induction 1 as [|[t p] msgs Hp _ IH]; intros pre fuel c Hd Hfuel.
  - unfold serialized in Hd. simpl in Hd. rewrite app_nil_r in Hd. subst dmsg.
    destruct fuel; simpl; [done |]. by rewrite Z.ltb_irrefl.
  - rewrite serialized_cons in Hd, Hfuel.
    rewrite size_app, size_submessage in Hfuel.
    pose proof (size_nonneg (serialized msgs)). pose proof (size_nonneg p).
    simpl in Hp.
    destruct fuel as [|fuel]; [lia |].
    assert (size dmsg = size pre + (size p + 3) + size (serialized msgs)) as Hsz
      by (subst dmsg; rewrite !size_app, size_submessage; lia).
    assert (Buffer_at16 dmsg (size pre) = Some (size p + 1)) as Hlen.
    { subst dmsg. unfold submessage. rewrite <- !app_assoc.
      rewrite Buffer_at16_middle. f_equal. apply Z.mod_small. lia. }
    cbn [parse_loop dispatch_all snd].
    replace (size pre <? size dmsg) with true by (symmetry; apply Z.ltb_lt; lia).
    rewrite Hlen.
    replace (size dmsg <? size pre + 2 + (size p + 1)) with false
      by (symmetry; apply Z.ltb_ge; lia).
    replace (size pre + 2 + (size p + 1)) with (size (pre ++ submessage t p))
      by (rewrite size_app, size_submessage; lia).
    replace (size pre + 3 + size p) with (size (pre ++ submessage t p))
      by (rewrite size_app, size_submessage; lia).
    apply IH.
    + subst dmsg. by rewrite <- app_assoc.
    + lia.
Qed.

Lemma serialized_small msgs :
  28 + serialized_size msgs <= ZT_CLUSTER_MAX_MESSAGE_LENGTH ->
  Forall (fun tm => size tm.2 < 65535) msgs.
Proof.
  unfold ZT_CLUSTER_MAX_MESSAGE_LENGTH.
  induction msgs as [|[t p] msgs IH]; intros Hs; [done |].
  simpl in Hs. pose proof (serialized_size_nonneg msgs). pose proof (size_nonneg p).
  constructor; [simpl; lia | apply IH; lia].
Qed.

(** One frame across a link: what [_flush] seals from a queue holding
    [msgs], the handler of the addressed member, holding the same key,
    decodes round by round. *)
Lemma link_frame (cA cB : Cluster) (b : Z) (iv : list Z) (msgs : list (Z * list Z)) now :
  length iv = 16%nat ->
  q (_members cA b) = open_q iv (_id cA) b ++ serialized msgs ->
  msgs <> [] ->
  28 + serialized_size msgs <= ZT_CLUSTER_MAX_MESSAGE_LENGTH ->
  _key cB = key (_members cA b) ->
  _id cB = b ->
  0 <= b < 65536 ->
  0 <= _id cA < 65536 ->
  _id cA <> b ->
  _id cA ∈ _memberIds cB ->
  events (_flush b cA)
  = events cA ++ [EvSendFunction b (seal_frame (key (_members cA b)) (q (_members cA b)))]
  /\ handleIncomingStateMessage now
       (seal_frame (key (_members cA b)) (q (_members cA b))) cB
     = dispatch_all (_id cA) now (be16 (_id cA) ++ be16 b ++ serialized msgs) 4 msgs cB.
Proof.
  intros Hiv Hq Hne Hsz Hkey Hid Hb Ha Hab Hin.
  assert (size (q (_members cA b)) = 28 + serialized_size msgs) as Hqs
    by (rewrite Hq, size_app, size_open_q, size_serialized by done; lia).
  assert (0 < serialized_size msgs) as Hpos.
  { destruct msgs as [|[t p] msgs]; [done |]. simpl.
    pose proof (serialized_size_nonneg msgs). pose proof (size_nonneg p). lia. }
  split; [apply _flush_events; lia |].
  set (d := be16 (_id cA) ++ be16 b ++ serialized msgs).
  assert (unseal_frame (_key cB) (seal_frame (key (_members cA b)) (q (_members cA b)))
          = Some d) as Hu.
  { rewrite Hkey, unseal_seal by lia. by rewrite Hq, open_q_drop24. }
  rewrite (handle_accepts now _ d (_id cA) cB Hu).
  - change 4 with (size (be16 (_id cA) ++ be16 b)).
    apply parse_loop_serialized.
    + by apply serialized_small.
    + unfold d. by rewrite <- app_assoc.
    + unfold d, size. rewrite !length_app. lia.
  - change (Buffer_at16 d 0)
      with (Buffer_at16 ([] ++ be16 (_id cA) ++ be16 b ++ serialized msgs) (size (@nil Z))).
    rewrite Buffer_at16_middle. f_equal. apply Z.mod_small. lia.
  - unfold d. change 2 with (size (be16 (_id cA))).
    rewrite Buffer_at16_middle, Hid. f_equal. apply Z.mod_small. lia.
  - congruence.
  - done.
Qed.

(** X5 — a link delivers in order.  Member A enqueues sub-messages for
    member B on an empty queue, all fitting in one frame, and flushes;
    B, whose inbound key is the key A holds for B and which counts A as
    a member, handles the frame: its loop accepts the frame and runs the
    inner decoder exactly once per sub-message, in the order of the
    [_send] calls, at the position of that sub-message's type byte; a
    sub-message whose decoding raises does not stop the ones after it. *)
Theorem link_delivery (cA cB : Cluster) (b : Z) (iv : list Z)
    (msgs : list (Z * list Z)) (now : Z) :
  length iv = 16%nat ->
  q (_members cA b) = open_q iv (_id cA) b ->
  msgs <> [] ->
  28 + serialized_size msgs <= ZT_CLUSTER_MAX_MESSAGE_LENGTH ->
  _key cB = key (_members cA b) ->
  _id cB = b ->
  0 <= b < 65536 ->
  0 <= _id cA < 65536 ->
  _id cA <> b ->
  _id cA ∈ _memberIds cB ->
  exists f,
    events (_flush b (enqueue_all b msgs cA)) = events cA ++ [EvSendFunction b f]
    /\ handleIncomingStateMessage now f cB
       = dispatch_all (_id cA) now (be16 (_id cA) ++ be16 b ++ serialized msgs) 4 msgs cB.
Proof.
  intros Hiv Hq Hne Hsz Hkey Hid Hb Ha Hab Hin.
  assert (size (q (_members cA b)) = 28) as Hqs by (by rewrite Hq, size_open_q).
  destruct (enqueue_all_fits b msgs cA) as (He & Hq' & Hk'); [lia | lia |].
  assert (_id (enqueue_all b msgs cA) = _id cA) as Hid'.
  { unfold enqueue_all. apply (R_fold (fun c c' => _id c' = _id c)).
    - done.
    - intros x y z E1 E2. congruence.
    - intros c' tm. by destruct (same_tables_send b tm.1 tm.2 c') as (_ & E & _). }
  destruct (link_frame (enqueue_all b msgs cA) cB b iv msgs now) as [Hf Hh];
    rewrite ?Hid', ?Hk', ?Hq', ?Hq; try done.
  eexists. split.
  - rewrite Hf, He, Hk'. done.
  - rewrite Hid', Hk' in Hh. exact Hh.
Qed.

End DecoderProperties.

(** ** Broadcasts across a link *)

Section BroadcastProperties.
Context `{Crypto} `{Overlay} `{!Codec} `{!Host}.

Lemma send_each_frames_other type msg (l : list Z) b c :
  b ∉ l ->
  frames_to b (events (fold_left (fun c' i => _send i type msg c') l c))
  = frames_to b (events c).
Proof.
  revert c. induction l as [|x l IH]; intros c Hb; [done |].
  simpl. rewrite IH by (intros ?; apply Hb; by apply list_elem_of_further).
  apply frames_to_send_other. intros ->. apply Hb. apply list_elem_of_here.
Qed.

Lemma send_each_id type msg (l : list Z) c :
  _id (fold_left (fun c' i => _send i type msg c') l c) = _id c.
Proof.
  apply (R_fold (fun c c' => _id c' = _id c)).
  - done.
  - intros x y z E1 E2. congruence.
  - intros c' m. by destruct (same_tables_send m type msg c') as (_ & E & _).
Qed.

(** A broadcast that finds room in the queue of [b] appends one copy
    there and sends [b] nothing. *)
Lemma send_each_fresh type msg (l : list Z) b c :
  NoDup l -> b ∈ l ->
  28 <= size (q (_members c b)) ->
  size (q (_members c b)) + size msg + 3 <= ZT_CLUSTER_MAX_MESSAGE_LENGTH ->
  q (_members (fold_left (fun c' i => _send i type msg c') l c) b)
  = q (_members c b) ++ submessage type msg
  /\ key (_members (fold_left (fun c' i => _send i type msg c') l c) b)
     = key (_members c b)
  /\ frames_to b (events (fold_left (fun c' i => _send i type msg c') l c))
     = frames_to b (events c).
Proof.
  intros Hnd. revert c. induction Hnd as [|x l Hx Hnd IH]; intros c Hb H28 Hfit.
  { by apply elem_of_nil in Hb. }
  simpl. destruct (decide (x = b)) as [->|Hne].
  - rewrite send_each_untouched, send_each_frames_other by done.
    rewrite _send_fits by done. cbn. by rewrite Z.eqb_refl.
  - apply elem_of_cons in Hb as [Hb|Hb]; [congruence |].
    assert (_members (_send x type msg c) b = _members c b) as Hm
      by (apply _send_other; congruence).
    destruct (IH (_send x type msg c) Hb) as (Hq & Hk & Hf); rewrite ?Hm; try done.
    rewrite Hq, Hk, Hf, Hm. by rewrite frames_to_send_other.
Qed.

(** A broadcast sub-message, flushed from an empty queue, is what the
    addressed member's decoder runs on. *)
Lemma broadcast_link (cA cB : Cluster) (b : Z) (iv : list Z) type msg now :
  NoDup (_memberIds cA) ->
  b ∈ _memberIds cA ->
  length iv = 16%nat ->
  q (_members cA b) = open_q iv (_id cA) b ->
  fits msg = true ->
  _key cB = key (_members cA b) ->
  _id cB = b ->
  0 <= b < 65536 ->
  0 <= _id cA < 65536 ->
  _id cA <> b ->
  _id cA ∈ _memberIds cB ->
  exists f,
    frames_to b (events (_flush b (send_to_all type msg cA)))
    = frames_to b (events cA) ++ [f]
    /\ handleIncomingStateMessage now f cB
       = catch (dispatch (_id cA) now
                  (be16 (_id cA) ++ be16 b ++ submessage type msg) 6) cB.
Proof.
  intros Hnd Hin Hiv Hq Hfit Hkey Hid Hb Ha Hab HinB.
  unfold fits in Hfit. apply Z.leb_le in Hfit.
  assert (size (q (_members cA b)) = 28) as Hqs by (by rewrite Hq, size_open_q).
  destruct (send_each_fresh type msg (_memberIds cA) b cA Hnd Hin) as (Hq' & Hk' & Hf');
    [lia | lia |].
  fold (send_to_all type msg cA) in Hq', Hk', Hf'.
  assert (_id (send_to_all type msg cA) = _id cA) as Hid' by apply send_each_id.
  destruct (link_frame (send_to_all type msg cA) cB b iv [(type, msg)] now) as [Hf Hh];
    rewrite ?Hid', ?Hk', ?Hq', ?Hq; try done.
  { unfold serialized. simpl. by rewrite app_nil_r. }
  { simpl. lia. }
  eexists. split.
  - rewrite Hf, frames_to_app, Hf'. simpl. by rewrite Z.eqb_refl.
  - rewrite Hid' in Hh. rewrite Hh. unfold serialized. simpl. by rewrite app_nil_r.
Qed.

(** The type byte of a sub-message laid out behind [pre]. *)
Lemma dispatch_type pre t payload post :
  Buffer_index (pre ++ submessage t payload ++ post) (size pre + 2)
  = Some (t mod 256).
Proof.
  rewrite (Buffer_index_at _ (pre ++ be16 (size payload + 1)) (payload ++ post) (t mod 256)).
  - by rewrite Z.mod_mod.
  - unfold submessage. by rewrite <- !app_assoc.
  - by rewrite size_app, size_be16.
Qed.

Lemma Buffer_at64_at (b p r : list Z) (v i : Z) :
  b = p ++ be_bytes 8 v ++ r -> i = size p -> Buffer_at64 b i = Some (v mod 2 ^ 64).
Proof. apply (Buffer_at_at 8). Qed.

Lemma Buffer_at32_at (b p r : list Z) (v i : Z) :
  b = p ++ be_bytes 4 v ++ r -> i = size p -> Buffer_at32 b i = Some (v mod 2 ^ 32).
Proof. apply (Buffer_at_at 4). Qed.

Lemma Buffer_at16_at (b p r : list Z) (v i : Z) :
  b = p ++ be16 v ++ r -> i = size p -> Buffer_at16 b i = Some (v mod 65536).
Proof. intros -> ->. apply Buffer_at16_middle. Qed.

Lemma case_MULTICAST_LIKE_decode from now b p r ptr nwid addr mac adi c :
  b = p ++ (be_bytes 8 nwid ++ Address_bytes addr ++ be_bytes 6 mac ++ be_bytes 4 adi) ++ r ->
  ptr = size p ->
  case_MULTICAST_LIKE from now b ptr c
  = (Some tt, emit (EvMulticastAdd now (nwid mod 2 ^ 64) (mac mod 2 ^ 48)
                      (adi mod 2 ^ 32) (addr mod 2 ^ 40)) c).
Proof.
  intros Hb Hp. unfold Address_bytes in Hb. rewrite <- !app_assoc in Hb.
  unfold case_MULTICAST_LIKE, bind, lift, modify.
  rewrite (Buffer_at64_at b p (be_bytes 5 addr ++ be_bytes 6 mac ++ be_bytes 4 adi ++ r) nwid)
    by done.
  rewrite (Buffer_field_at b (p ++ be_bytes 8 nwid) (be_bytes 5 addr)
             (be_bytes 6 mac ++ be_bytes 4 adi ++ r));
    [| by rewrite Hb, <- !app_assoc | rewrite size_app, size_be_bytes; lia
     | by rewrite size_be_bytes].
  rewrite (Buffer_field_at b (p ++ be_bytes 8 nwid ++ be_bytes 5 addr) (be_bytes 6 mac)
             (be_bytes 4 adi ++ r));
    [| by rewrite Hb, <- !app_assoc
     | rewrite !size_app, !size_be_bytes; unfold ZT_ADDRESS_LENGTH; lia
     | by rewrite size_be_bytes].
  rewrite (Buffer_at32_at b (p ++ be_bytes 8 nwid ++ be_bytes 5 addr ++ be_bytes 6 mac) r adi);
    [| by rewrite Hb, <- !app_assoc
     | rewrite !size_app, !size_be_bytes; unfold ZT_ADDRESS_LENGTH; lia].
  by rewrite !be_decode_be_bytes.
Qed.

(** X6 — a multicast subscription crosses the cluster.  Member A calls
    [replicateMulticastLike] with its queue for member B empty and
    flushes it; B handles the frame.  B then makes exactly one call,
    [mc->add] with the network id, MAC, ADI and peer address A was given
    (each reduced to the width of its field), and changes nothing
    else. *)
Theorem multicast_like_delivery (cA cB : Cluster) (b : Z) (iv : list Z)
    (nwid peerAddress mac adi now : Z) :
  NoDup (_memberIds cA) ->
  b ∈ _memberIds cA ->
  length iv = 16%nat ->
  q (_members cA b) = open_q iv (_id cA) b ->
  _key cB = key (_members cA b) ->
  _id cB = b ->
  0 <= b < 65536 ->
  0 <= _id cA < 65536 ->
  _id cA <> b ->
  _id cA ∈ _memberIds cB ->
  exists f,
    frames_to b (events (_flush b (replicateMulticastLike nwid peerAddress mac adi cA)))
    = frames_to b (events cA) ++ [f]
    /\ handleIncomingStateMessage now f cB
       = emit (EvMulticastAdd now (nwid mod 2 ^ 64) (mac mod 2 ^ 48) (adi mod 2 ^ 32)
                 (peerAddress mod 2 ^ 40)) cB.
Proof.
  intros Hnd Hin Hiv Hq Hkey Hid Hb Ha Hab HinB.
  unfold replicateMulticastLike.
  remember (be_bytes 8 nwid ++ Address_bytes peerAddress ++ be_bytes 6 mac ++ be_bytes 4 adi)
    as msg eqn:Hmsg.
  assert (size msg = 23) as Hsz
    by (rewrite Hmsg; unfold Address_bytes; by rewrite !size_app, !size_be_bytes).
  destruct (broadcast_link cA cB b iv (type_code STATE_MESSAGE_MULTICAST_LIKE) msg now)
    as (f & Hf & Hh); try done.
  { unfold fits. rewrite Hsz. done. }
  exists f. split; [exact Hf |]. rewrite Hh.
  unfold catch, dispatch, bind, lift.
  change 6 with (size (be16 (_id cA) ++ be16 b) + 2).
  replace (be16 (_id cA) ++ be16 b ++ submessage (type_code STATE_MESSAGE_MULTICAST_LIKE) msg)
    with ((be16 (_id cA) ++ be16 b)
          ++ submessage (type_code STATE_MESSAGE_MULTICAST_LIKE) msg ++ [])
    by (by rewrite app_nil_r, <- app_assoc).
  rewrite dispatch_type. cbn [type_code type_of_code Z.modulo Z.eqb].
  change (type_of_code (3 mod 256)) with (Some STATE_MESSAGE_MULTICAST_LIKE). cbv iota.
  rewrite (case_MULTICAST_LIKE_decode _ _ _
             ((be16 (_id cA) ++ be16 b) ++ be16 (size msg + 1) ++ [3 mod 256]) []
             _ nwid peerAddress mac adi).
  - done.
  - unfold submessage. rewrite Hmsg. by rewrite <- !app_assoc.
  - rewrite !size_app, !size_be16, size_singleton. lia.
Qed.

(** X7 — certificates are carried but not read.  What
    [replicateCertificateOfNetworkMembership] broadcasts reaches member
    B as a frame that B accepts, and handling it leaves B's state as it
    was: the COM case decodes nothing and makes no call. *)
Theorem com_delivery_inert (cA cB : Cluster) (b : Z) (iv : list Z) (com : list Z) (now : Z) :
  NoDup (_memberIds cA) ->
  b ∈ _memberIds cA ->
  length iv = 16%nat ->
  q (_members cA b) = open_q iv (_id cA) b ->
  fits com = true ->
  _key cB = key (_members cA b) ->
  _id cB = b ->
  0 <= b < 65536 ->
  0 <= _id cA < 65536 ->
  _id cA <> b ->
  _id cA ∈ _memberIds cB ->
  exists f,
    frames_to b (events (_flush b (replicateCertificateOfNetworkMembership com cA)))
    = frames_to b (events cA) ++ [f]
    /\ unseal_frame (_key cB) f
       = Some (be16 (_id cA) ++ be16 b ++ submessage (type_code STATE_MESSAGE_COM) com)
    /\ handleIncomingStateMessage now f cB = cB.
Proof.
  intros Hnd Hin Hiv Hq Hfit Hkey Hid Hb Ha Hab HinB.
  destruct (broadcast_link cA cB b iv (type_code STATE_MESSAGE_COM) com now)
    as (f & Hf & Hh); try done.
  exists f. split; [exact Hf |].
  split.
  - unfold replicateCertificateOfNetworkMembership in Hf.
    unfold fits in Hfit. apply Z.leb_le in Hfit.
    assert (size (q (_members cA b)) = 28) as Hqs by (by rewrite Hq, size_open_q).
    destruct (send_each_fresh (type_code STATE_MESSAGE_COM) com (_memberIds cA) b cA Hnd Hin)
      as (Hq' & Hk' & Hf'); [lia | lia |].
    fold (send_to_all (type_code STATE_MESSAGE_COM) com cA) in Hq', Hk', Hf'.
    destruct (_flush_big b (send_to_all (type_code STATE_MESSAGE_COM) com cA)) as (He & _).
    { rewrite Hq', size_app, size_submessage. pose proof (size_nonneg com). lia. }
    rewrite He, frames_to_app, Hf' in Hf. simpl in Hf. rewrite Z.eqb_refl in Hf.
    apply app_inv_head in Hf. injection Hf as <-.
    change (send_to_all 4 com cA) with (send_to_all (type_code STATE_MESSAGE_COM) com cA).
    rewrite Hkey, Hk', unseal_seal.
    + rewrite Hq', Hq. by rewrite open_q_drop24.
    + rewrite Hq', size_app, size_submessage. pose proof (size_nonneg com). lia.
  - rewrite Hh. unfold catch, dispatch, bind, lift.
    change 6 with (size (be16 (_id cA) ++ be16 b) + 2).
    replace (be16 (_id cA) ++ be16 b ++ submessage (type_code STATE_MESSAGE_COM) com)
      with ((be16 (_id cA) ++ be16 b)
            ++ submessage (type_code STATE_MESSAGE_COM) com ++ [])
      by (by rewrite app_nil_r, <- app_assoc).
    rewrite dispatch_type. done.
Qed.

End BroadcastProperties.

(** ** HAVE_PEER across a link *)

Section HavePeerProperties.
Context `{Crypto} `{Overlay} `{!Codec} `{!Host}.

Lemma case_HAVE_PEER_decode from now b p r ptr id pa c :
  Identity_round_trip id ->
  InetAddress_round_trip pa ->
  Identity_bool id = true ->
  b = p ++ (Identity_serialize id ++ InetAddress_serialize pa) ++ r ->
  ptr = size p ->
  (case_HAVE_PEER from now b ptr c).2
  = with_peerAffinities
      (<[Identity_address id := mk_PA now from]> (_peerAffinities c))
      (emit (EvSaveIdentity id)
         (if InetAddress_bool pa
             && Topology_getPeerNoCache (events c) (Identity_address id) now
          then emit (EvRemovePathByAddress (Identity_address id) pa) c
          else c)).
Proof.
  intros Hid Hpa Hv -> ->. unfold case_HAVE_PEER, bind, lift.
  rewrite <- !app_assoc. rewrite Hid.
  unfold InetAddress_read.
  replace (p ++ Identity_serialize id ++ InetAddress_serialize pa ++ r)
    with ((p ++ Identity_serialize id) ++ InetAddress_serialize pa ++ r)
    by (by rewrite <- app_assoc).
  rewrite <- size_app, Hpa, Hv.
  unfold ask, modify.
  destruct (InetAddress_bool pa); [| done].
  destruct (Topology_getPeerNoCache (events c) (Identity_address id) now); done.
Qed.

(** X8 — a takeover announcement crosses the cluster.  Member A, not
    yet the owner of a peer, calls [replicateHavePeer] with its queue for
    member B empty and flushes it; B handles the frame at time [nowB].
    Afterwards A's table names A as the owner and B's table names A as
    the owner with time [nowB]; B has saved the identity, has dropped its
    own path to the peer at that address if it knew the peer, and has
    changed nothing else. *)
Theorem have_peer_delivery (cA cB : Cluster) (b : Z) (iv : list Z)
    (peerId : Identity) (physicalAddress : InetAddress) (nowA nowB : Z) :
  NoDup (_memberIds cA) ->
  b ∈ _memberIds cA ->
  length iv = 16%nat ->
  q (_members cA b) = open_q iv (_id cA) b ->
  Identity_round_trip peerId ->
  InetAddress_round_trip physicalAddress ->
  Identity_bool peerId = true ->
  fits (Identity_serialize peerId ++ InetAddress_serialize physicalAddress) = true ->
  owned_by (_id cA) (_peerAffinities cA !! Identity_address peerId) = false ->
  _key cB = key (_members cA b) ->
  _id cB = b ->
  0 <= b < 65536 ->
  0 <= _id cA < 65536 ->
  _id cA <> b ->
  _id cA ∈ _memberIds cB ->
  let cA' := _flush b (replicateHavePeer nowA peerId physicalAddress cA) in
  exists f,
    frames_to b (events cA') = frames_to b (events cA) ++ [f]
    /\ _peerAffinities cA' !! Identity_address peerId = Some (mk_PA nowA (_id cA))
    /\ handleIncomingStateMessage nowB f cB
       = with_peerAffinities
           (<[Identity_address peerId := mk_PA nowB (_id cA)]> (_peerAffinities cB))
           (emit (EvSaveIdentity peerId)
              (if InetAddress_bool physicalAddress
                  && Topology_getPeerNoCache (events cB) (Identity_address peerId) nowB
               then emit (EvRemovePathByAddress (Identity_address peerId) physicalAddress) cB
               else cB)).
Proof.
  intros Hnd Hin Hiv Hq Hrid Hrpa Hv Hfit Hown Hkey Hid Hb Ha Hab HinB cA'.
  subst cA'. unfold replicateHavePeer. rewrite Hown. cbn [negb].
  remember (Identity_serialize peerId ++ InetAddress_serialize physicalAddress)
    as msg eqn:Hmsg.
  set (c1 := with_peerAffinities _ cA).
  destruct (broadcast_link c1 cB b iv (type_code STATE_MESSAGE_HAVE_PEER) msg nowB)
    as (f & Hf & Hh); try done.
  exists f. split; [exact Hf |]. split.
  - destruct (same_tables_flush b (send_to_all (type_code STATE_MESSAGE_HAVE_PEER) msg c1))
      as (-> & _).
    destruct (same_tables_send_to_all (type_code STATE_MESSAGE_HAVE_PEER) msg c1)
      as (-> & _).
    apply lookup_insert_eq.
  - rewrite Hh. unfold catch, dispatch, bind, lift.
    change 6 with (size (be16 (_id c1) ++ be16 b) + 2).
    replace (be16 (_id c1) ++ be16 b ++ submessage (type_code STATE_MESSAGE_HAVE_PEER) msg)
      with ((be16 (_id c1) ++ be16 b)
            ++ submessage (type_code STATE_MESSAGE_HAVE_PEER) msg ++ [])
      by (by rewrite app_nil_r, <- app_assoc).
    rewrite dispatch_type.
    change (type_of_code (type_code STATE_MESSAGE_HAVE_PEER mod 256))
      with (Some STATE_MESSAGE_HAVE_PEER). cbv iota.
    rewrite (case_HAVE_PEER_decode _ _ _
               ((be16 (_id c1) ++ be16 b) ++ be16 (size msg + 1)
                ++ [type_code STATE_MESSAGE_HAVE_PEER mod 256]) []
               _ peerId physicalAddress); try done.
    unfold submessage. rewrite Hmsg. by rewrite <- !app_assoc.
Qed.

End HavePeerProperties.

(** ** ALIVE across a link *)

Lemma to_int32_mod v : - 2 ^ 31 <= v < 2 ^ 31 -> to_int32 (v mod 2 ^ 32) = v.
Proof.
  intros Hv. rewrite <- (to_int32_be_decode v Hv) at 2.
  by rewrite be_decode_be_bytes.
Qed.

Section AliveProperties.
Context `{Crypto} `{Overlay} `{!Codec} `{!Host}.

Lemma writes_member_refl from c : writes_member from (_members c from) c c.
Proof. split_and!; [done | done |]. by destruct c. Qed.

Lemma writes_member_trans from m1 m2 c c1 c2 :
  writes_member from m1 c c1 -> writes_member from m2 c1 c2 ->
  writes_member from m2 c c2.
Proof.
  intros (A1 & A2 & A3) (B1 & B2 & B3). split_and!.
  - done.
  - intros j Hj. by rewrite B2, A2.
  - destruct c, c1, c2. cbn in *.
    injection A3. injection B3. intros. subst. reflexivity.
Qed.

Lemma writes_member_upd from f c :
  writes_member from (f (_members c from)) c (upd_member from f c).
Proof.
  split_and!.
  - cbn. by rewrite Z.eqb_refl.
  - intros j Hj. cbn. by replace (j =? from) with false by (symmetry; by apply Z.eqb_neq).
  - by destruct c.
Qed.

Lemma writes_member_then from f m1 c c1 :
  writes_member from m1 c c1 ->
  writes_member from (f m1) c (upd_member from f c1).
Proof.
  intros Hw. eapply writes_member_trans; [exact Hw |].
  destruct Hw as (<- & _). apply writes_member_upd.
Qed.

Lemma with_endpoints_same (m : _Member) :
  with_endpoints (zeroTierPhysicalEndpoints m) m = m.
Proof. by destruct m. Qed.

(** The endpoint loop on endpoints written one after the other keeps
    those that test true. *)
Lemma alive_endpoints_decode from b r eps :
  Forall InetAddress_round_trip eps ->
  forall p c,
    b = p ++ concat (map InetAddress_serialize eps) ++ r ->
    exists c',
      alive_endpoints (length eps) from b (size p) c = (Some tt, c')
      /\ writes_member from
           (with_endpoints (zeroTierPhysicalEndpoints (_members c from)
                            ++ filter InetAddress_bool eps) (_members c from)) c c'.
Proof.
  induction 1 as [|a eps Ha _ IH]; intros p c Hb.
  { exists c. split; [done |]. rewrite filter_nil, app_nil_r, with_endpoints_same.
    apply writes_member_refl. }
  assert (InetAddress_deserialize b (size p) = (a, Some (size (InetAddress_serialize a))))
    as Hd.
  { rewrite Hb. cbn [map concat]. rewrite <- app_assoc. apply Ha. }
  cbn [alive_endpoints length]. rewrite Hd. unfold bind, modify, lift.
  replace (size p + size (InetAddress_serialize a))
    with (size (p ++ InetAddress_serialize a)) by apply size_app.
  assert (b = (p ++ InetAddress_serialize a) ++ concat (map InetAddress_serialize eps) ++ r)
    as Hb' by (rewrite Hb; cbn [map concat]; by rewrite <- !app_assoc).
  destruct (InetAddress_bool a) eqn:Ea.
  - unfold ret.
    destruct (IH (p ++ InetAddress_serialize a)
                (upd_member from
                   (fun m => with_endpoints (zeroTierPhysicalEndpoints m ++ [a]) m) c) Hb')
      as (c' & He & Hw).
    exists c'. split; [exact He |].
    eapply writes_member_trans; [apply writes_member_upd |].
    destruct Hw as (Hw1 & Hw2 & Hw3). split_and!; [| done | done].
    rewrite Hw1, filter_cons_True by (by rewrite Ea).
    cbn -[filter]. rewrite Z.eqb_refl. cbn -[filter]. by rewrite <- app_assoc.
  - destruct (IH (p ++ InetAddress_serialize a)
                (upd_member from
                   (fun m => with_endpoints (removelast (zeroTierPhysicalEndpoints m)) m)
                   (upd_member from
                      (fun m => with_endpoints (zeroTierPhysicalEndpoints m ++ [a]) m) c))
                Hb')
      as (c' & He & Hw).
    exists c'. split; [exact He |].
    eapply writes_member_trans;
      [eapply writes_member_then; apply writes_member_upd |].
    destruct Hw as (Hw1 & Hw2 & Hw3). split_and!; [| done | done].
    rewrite Hw1, filter_cons_False by (rewrite Ea; exact id).
    cbn -[filter removelast]. rewrite !Z.eqb_refl. cbn -[filter removelast].
    by rewrite removelast_last.
Qed.

Lemma case_ALIVE_decode from now b p r ptr v7 x y z clock l flags eps c :
  size v7 = 7 -> size clock = 8 -> size flags = 8 ->
  size eps < 256 ->
  Forall InetAddress_round_trip eps ->
  b = p ++ (v7 ++ be_bytes 4 x ++ be_bytes 4 y ++ be_bytes 4 z ++ clock
            ++ be_bytes 8 l ++ flags ++ [size eps mod 256]
            ++ concat (map InetAddress_serialize eps)) ++ r ->
  ptr = size p ->
  exists c',
    case_ALIVE from now b ptr c = (Some tt, c')
    /\ writes_member from
         (mk_Member (key (_members c from)) (q (_members c from))
            (to_int32 (x mod 2 ^ 32)) (to_int32 (y mod 2 ^ 32)) (to_int32 (z mod 2 ^ 32))
            (l mod 2 ^ 64) (filter InetAddress_bool eps) now
            (lastAnnouncedAliveTo (_members c from))) c c'.
Proof.
  intros H7 Hc Hf Hn Hrt Hb ->. rewrite <- !app_assoc in Hb.
  pose proof (size_nonneg eps) as Hn0.
  unfold case_ALIVE, bind, lift, modify.
  rewrite (Buffer_at32_at b (p ++ v7)
             (be_bytes 4 y ++ be_bytes 4 z ++ clock ++ be_bytes 8 l ++ flags
              ++ [size eps mod 256] ++ concat (map InetAddress_serialize eps) ++ r) x);
    [| by rewrite Hb, <- !app_assoc | rewrite size_app; lia].
  rewrite (Buffer_at32_at b (p ++ v7 ++ be_bytes 4 x)
             (be_bytes 4 z ++ clock ++ be_bytes 8 l ++ flags
              ++ [size eps mod 256] ++ concat (map InetAddress_serialize eps) ++ r) y);
    [| by rewrite Hb, <- !app_assoc | rewrite !size_app, !size_be_bytes; lia].
  rewrite (Buffer_at32_at b (p ++ v7 ++ be_bytes 4 x ++ be_bytes 4 y)
             (clock ++ be_bytes 8 l ++ flags
              ++ [size eps mod 256] ++ concat (map InetAddress_serialize eps) ++ r) z);
    [| by rewrite Hb, <- !app_assoc | rewrite !size_app, !size_be_bytes; lia].
  rewrite (Buffer_at64_at b (p ++ v7 ++ be_bytes 4 x ++ be_bytes 4 y ++ be_bytes 4 z ++ clock)
             (flags ++ [size eps mod 256] ++ concat (map InetAddress_serialize eps) ++ r) l);
    [| by rewrite Hb, <- !app_assoc | rewrite !size_app, !size_be_bytes; lia].
  rewrite (Buffer_index_at b
             (p ++ v7 ++ be_bytes 4 x ++ be_bytes 4 y ++ be_bytes 4 z ++ clock
              ++ be_bytes 8 l ++ flags)
             (concat (map InetAddress_serialize eps) ++ r) (size eps mod 256));
    [| by rewrite Hb, <- !app_assoc | rewrite !size_app, !size_be_bytes; lia].
  cbv beta iota zeta.
  replace (Z.to_nat (size eps mod 256 mod 256)) with (length eps)
    by (rewrite Z.mod_mod, Z.mod_small by lia; unfold size; lia).
  set (c5 := upd_member from (with_endpoints []) _).
  destruct (alive_endpoints_decode from b r eps Hrt
              (p ++ v7 ++ be_bytes 4 x ++ be_bytes 4 y ++ be_bytes 4 z ++ clock
               ++ be_bytes 8 l ++ flags ++ [size eps mod 256]) c5)
    as (c6 & He & Hw).
  { by rewrite Hb, <- !app_assoc. }
  replace (size p + 7 + 4 + 4 + 4 + 8 + 8 + 8 + 1)
    with (size (p ++ v7 ++ be_bytes 4 x ++ be_bytes 4 y ++ be_bytes 4 z ++ clock
                ++ be_bytes 8 l ++ flags ++ [size eps mod 256]))
    by (rewrite !size_app, !size_be_bytes, size_singleton; lia).
  rewrite He. eexists. split; [reflexivity |].
  pose proof (writes_member_then from (with_endpoints []) _ _ _
               (writes_member_then from (with_load (l mod 2 ^ 64)) _ _ _
                  (writes_member_then from (with_z (to_int32 (z mod 2 ^ 32))) _ _ _
                     (writes_member_then from (with_y (to_int32 (y mod 2 ^ 32))) _ _ _
                        (writes_member_upd from (with_x (to_int32 (x mod 2 ^ 32))) c)))))
    as W5.
  fold c5 in W5.
  pose proof (writes_member_then from (with_lastReceivedAliveAnnouncement now) _ _ _
                (writes_member_trans _ _ _ _ _ _ W5 Hw)) as (W1 & W2 & W3).
  split_and!; [| done | done].
  rewrite W1. destruct W5 as (-> & _). reflexivity.
Qed.

End AliveProperties.

Section HeartbeatProperties.
Context `{Crypto} `{Overlay} `{!Codec} `{!Host}.

Lemma _flush_keeps_announced m c :
  lastAnnouncedAliveTo (_members (_flush m c) m) = lastAnnouncedAliveTo (_members c m).
Proof.
  unfold _flush. destruct (24 + 2 + 2 <? size (q (_members c m))); [| done].
  cbn -[seal_frame open_q map seq]. by rewrite Z.eqb_refl.
Qed.

(** X9 — a heartbeat crosses the cluster.  When the periodic loop of
    member A finds the heartbeat to member B due and its queue for B
    empty, it sends B one frame and notes the time.  B, handling that
    frame at time [nowB], rewrites its record of A and nothing else: the
    coordinates are those of A (zero when A has no geolocation
    function), the load is zero, the endpoints are those of A that test
    true, in A's order, and the time of the last heartbeat is [nowB];
    the link key and the send queue B holds for A are untouched. *)
Theorem heartbeat_delivery (cA cB : Cluster) (b : Z) (iv : list Z) (nowA nowB : Z) :
  length iv = 16%nat ->
  q (_members cA b) = open_q iv (_id cA) b ->
  ZT_CLUSTER_TIMEOUT / 2 - 1000 <= u64_sub nowA (lastAnnouncedAliveTo (_members cA b)) ->
  Forall InetAddress_round_trip (_zeroTierPhysicalEndpoints cA) ->
  size (_zeroTierPhysicalEndpoints cA) < 256 ->
  size (alive_message nowA cA) <= 2048 ->
  - 2 ^ 31 <= _x cA < 2 ^ 31 ->
  - 2 ^ 31 <= _y cA < 2 ^ 31 ->
  - 2 ^ 31 <= _z cA < 2 ^ 31 ->
  _key cB = key (_members cA b) ->
  _id cB = b ->
  0 <= b < 65536 ->
  0 <= _id cA < 65536 ->
  _id cA <> b ->
  _id cA ∈ _memberIds cB ->
  let located := _hasAddressToLocationFunction cA in
  let mB := _members cB (_id cA) in
  exists f,
    events (flush_member nowA cA b) = events cA ++ [EvSendFunction b f]
    /\ lastAnnouncedAliveTo (_members (flush_member nowA cA b) b) = nowA
    /\ writes_member (_id cA)
         (mk_Member (key mB) (q mB)
            (if located then _x cA else 0)
            (if located then _y cA else 0)
            (if located then _z cA else 0)
            0 (filter InetAddress_bool (_zeroTierPhysicalEndpoints cA)) nowB
            (lastAnnouncedAliveTo mB))
         cB (handleIncomingStateMessage nowB f cB).
Proof.
  intros Hiv Hq Hdue Hrt Hn Hsz Hx Hy Hz Hkey Hid Hb Ha Hab HinB located mB.
  assert (size (q (_members cA b)) = 28) as Hqs by (by rewrite Hq, size_open_q).
  unfold flush_member.
  replace (ZT_CLUSTER_TIMEOUT / 2 - 1000
           <=? u64_sub nowA (lastAnnouncedAliveTo (_members cA b)))
    with true by (symmetry; by apply Z.leb_le).
  rewrite _send_fits by (unfold ZT_CLUSTER_MAX_MESSAGE_LENGTH; lia).
  set (c1 := upd_member b (with_lastAnnouncedAliveTo nowA) _).
  assert (q (_members c1 b)
          = open_q iv (_id c1) b
            ++ serialized [(type_code STATE_MESSAGE_ALIVE, alive_message nowA cA)]) as Hq1.
  { unfold c1. cbn -[submessage open_q alive_message]. rewrite !Z.eqb_refl.
    cbn -[submessage open_q alive_message]. by rewrite Hq, app_nil_r. }
  assert (key (_members c1 b) = key (_members cA b)) as Hk1.
  { unfold c1. cbn -[submessage open_q alive_message]. rewrite !Z.eqb_refl. done. }
  destruct (link_frame c1 cB b iv
              [(type_code STATE_MESSAGE_ALIVE, alive_message nowA cA)] nowB)
    as [Hf Hh]; rewrite ?Hk1; try done.
  { unfold serialized_size, ZT_CLUSTER_MAX_MESSAGE_LENGTH. cbn [fold_right snd]. lia. }
  eexists. split; [exact Hf |]. split.
  { rewrite _flush_keeps_announced. unfold c1.
    cbn -[submessage open_q alive_message]. by rewrite !Z.eqb_refl. }
  rewrite Hh. cbn [dispatch_all].
  unfold catch, dispatch, bind, lift.
  change (4 + 2) with (size (be16 (_id c1) ++ be16 b) + 2).
  replace (be16 (_id c1) ++ be16 b
           ++ serialized [(type_code STATE_MESSAGE_ALIVE, alive_message nowA cA)])
    with ((be16 (_id c1) ++ be16 b)
          ++ submessage (type_code STATE_MESSAGE_ALIVE) (alive_message nowA cA) ++ [])
    by (by rewrite <- app_assoc).
  rewrite dispatch_type.
  change (type_of_code (type_code STATE_MESSAGE_ALIVE mod 256))
    with (Some STATE_MESSAGE_ALIVE). cbv iota.
  destruct (case_ALIVE_decode (_id c1) nowB
              ((be16 (_id c1) ++ be16 b)
               ++ submessage (type_code STATE_MESSAGE_ALIVE) (alive_message nowA cA) ++ [])
              ((be16 (_id c1) ++ be16 b) ++ be16 (size (alive_message nowA cA) + 1)
               ++ [type_code STATE_MESSAGE_ALIVE mod 256]) []
              (size (be16 (_id c1) ++ be16 b) + 2 + 1)
              (be16 ZEROTIER_ONE_VERSION_MAJOR ++ be16 ZEROTIER_ONE_VERSION_MINOR
               ++ be16 ZEROTIER_ONE_VERSION_REVISION ++ [ZT_PROTO_VERSION mod 256])
              (if located then _x cA else 0)
              (if located then _y cA else 0)
              (if located then _z cA else 0)
              (be_bytes 8 nowA) 0 (be_bytes 8 0)
              (_zeroTierPhysicalEndpoints cA) cB)
    as (c' & He & Hw); try done.
  { unfold submessage, alive_message. fold located.
    destruct located; by rewrite <- !app_assoc. }
  rewrite He. cbn [snd].
  rewrite !to_int32_mod in Hw by (destruct located; lia).
  exact Hw.
Qed.

End HeartbeatProperties.

(** ** PROXY_UNITE and PROXY_SEND across a link *)

Section UniteProperties.
Context `{Crypto} `{Overlay} `{!Codec} `{!Host}.

Lemma case_PROXY_SEND_decode from now b p r ptr rcpt verb data c :
  size data < 65536 ->
  size data <= Packet_capacity ->
  b = p ++ (Address_bytes rcpt ++ [verb] ++ be16 (size data) ++ data) ++ r ->
  ptr = size p ->
  case_PROXY_SEND from now b ptr c
  = (Some tt, emit (EvSwitchSend (mkPacket (rcpt mod 2 ^ 40) identity_address
                                    (verb mod 256) data) true 0) c).
Proof.
  intros Hlt Hcap Hb ->. unfold Address_bytes in Hb. rewrite <- !app_assoc in Hb.
  pose proof (size_nonneg data) as Hd0.
  unfold case_PROXY_SEND, bind, lift, modify.
  rewrite (Buffer_field_at b p (be_bytes 5 rcpt) ([verb] ++ be16 (size data) ++ data ++ r));
    [| done | done | by rewrite size_be_bytes].
  rewrite (Buffer_index_at b (p ++ be_bytes 5 rcpt) (be16 (size data) ++ data ++ r) verb);
    [| by rewrite Hb, <- !app_assoc
     | rewrite size_app, size_be_bytes; unfold ZT_ADDRESS_LENGTH; lia].
  rewrite (Buffer_at16_at b (p ++ be_bytes 5 rcpt ++ [verb]) (data ++ r) (size data));
    [| by rewrite Hb, <- !app_assoc
     | rewrite !size_app, size_be_bytes, size_singleton; unfold ZT_ADDRESS_LENGTH; lia].
  rewrite (Z.mod_small (size data)) by lia.
  rewrite (Buffer_field_at b (p ++ be_bytes 5 rcpt ++ [verb] ++ be16 (size data)) data r);
    [| by rewrite Hb, <- !app_assoc
     | rewrite !size_app, size_be_bytes, size_singleton, size_be16;
       unfold ZT_ADDRESS_LENGTH; lia
     | done].
  unfold Packet_append. cbn [pk_payload pk_dest pk_source pk_verb].
  replace (size (@nil Z) + size data <=? Packet_capacity) with true
    by (symmetry; apply Z.leb_le; change (size (@nil Z)) with 0; lia).
  by rewrite be_decode_be_bytes.
Qed.

Lemma read_paths_decode b r paths :
  Forall InetAddress_round_trip paths ->
  forall p,
    b = p ++ concat (map InetAddress_serialize paths) ++ r ->
    read_paths (length paths) b (size p) = Some paths.
Proof.
  induction 1 as [|a paths Ha _ IH]; intros p Hb; [done |].
  cbn [read_paths length]. unfold InetAddress_read.
  assert (InetAddress_deserialize b (size p) = (a, Some (size (InetAddress_serialize a))))
    as ->.
  { rewrite Hb. cbn [map concat]. rewrite <- app_assoc. apply Ha. }
  rewrite <- size_app, IH; [done |].
  rewrite Hb. cbn [map concat]. by rewrite <- !app_assoc.
Qed.

(** The PROXY_UNITE case when the local peer is known and an address
    pair is found. *)
Lemma case_PROXY_UNITE_decode from now b p r ptr localPeer remotePeer paths lo re iplen c :
  0 < size paths < 256 ->
  Forall InetAddress_round_trip paths ->
  b = p ++ unite_payload localPeer remotePeer paths ++ r ->
  ptr = size p ->
  Topology_getPeerNoCache (events c) (localPeer mod 2 ^ 40) now = true ->
  unite_match (Peer_getBestActiveAddresses (events c) (localPeer mod 2 ^ 40) now)
    (best_remote paths) = Some (lo, re, iplen) ->
  (case_PROXY_UNITE from now b ptr c).2
  = emit (EvSwitchSend
            (mkPacket (localPeer mod 2 ^ 40) identity_address VERB_RENDEZVOUS
               ([0] ++ Address_bytes remotePeer ++ rendezvous_tail re iplen)) true 0)
      (_flush from
         (_send from (type_code STATE_MESSAGE_PROXY_SEND)
            ((Address_bytes remotePeer ++ [VERB_RENDEZVOUS mod 256] ++ be16 (9 + iplen)
              ++ [0] ++ Address_bytes localPeer) ++ rendezvous_tail lo iplen) c)).
Proof.
  intros Hn Hrt Hb -> Hknown Hmatch.
  unfold unite_payload, Address_bytes in Hb. rewrite <- ?app_assoc in Hb.
  unfold case_PROXY_UNITE, bind, lift, ask, modify.
  rewrite (Buffer_field_at b p (be_bytes 5 localPeer)
             (be_bytes 5 remotePeer ++ [size paths]
              ++ concat (map InetAddress_serialize paths) ++ r));
    [| done | done | by rewrite size_be_bytes].
  rewrite (Buffer_field_at b (p ++ be_bytes 5 localPeer) (be_bytes 5 remotePeer)
             ([size paths] ++ concat (map InetAddress_serialize paths) ++ r));
    [| by rewrite Hb, <- !app_assoc
     | rewrite size_app, size_be_bytes; unfold ZT_ADDRESS_LENGTH; lia
     | by rewrite size_be_bytes].
  rewrite (Buffer_index_at b (p ++ be_bytes 5 localPeer ++ be_bytes 5 remotePeer)
             (concat (map InetAddress_serialize paths) ++ r) (size paths));
    [| by rewrite Hb, <- !app_assoc
     | rewrite !size_app, !size_be_bytes; unfold ZT_ADDRESS_LENGTH; lia].
  rewrite (Z.mod_small (size paths)) by lia.
  replace (Z.to_nat (size paths)) with (length paths) by (unfold size; lia).
  replace (size p + ZT_ADDRESS_LENGTH + ZT_ADDRESS_LENGTH + 1)
    with (size (p ++ be_bytes 5 localPeer ++ be_bytes 5 remotePeer ++ [size paths]))
    by (rewrite !size_app, !size_be_bytes, size_singleton; unfold ZT_ADDRESS_LENGTH; lia).
  rewrite (read_paths_decode b r paths Hrt) by (by rewrite Hb, <- !app_assoc).
  rewrite be_decode_be_bytes. change (256 ^ Z.of_nat 5) with (2 ^ 40).
  cbv beta iota zeta. rewrite Hknown.
  replace (0 <? size paths) with true by (symmetry; apply Z.ltb_lt; lia).
  cbn [andb].
  unfold unite_match in Hmatch.
  destruct (Peer_getBestActiveAddresses (events c) (localPeer mod 2 ^ 40) now)
    as [l4 l6].
  destruct (best_remote paths) as [r4 r6]. cbn [fst snd] in Hmatch.
  destruct (InetAddress_bool l6 && InetAddress_bool r6).
  { injection Hmatch as <- <- <-. reflexivity. }
  destruct (InetAddress_bool l4 && InetAddress_bool r4); [| done].
  injection Hmatch as <- <- <-. reflexivity.
Qed.

End UniteProperties.

Section UniteProtocol.
Context `{Crypto} `{Overlay} `{!Codec} `{!Host}.

Lemma size_rendezvous_tail a iplen :
  0 <= iplen <= size (rawIpData a) -> size (rendezvous_tail a iplen) = 3 + iplen.
Proof.
  intros Hi. unfold rendezvous_tail.
  rewrite !size_app, size_be16, size_singleton. unfold size in *.
  rewrite length_take. lia.
Qed.

Lemma unite_match_iplen bl br lo re iplen :
  unite_match bl br = Some (lo, re, iplen) -> iplen = 16 \/ iplen = 4.
Proof.
  unfold unite_match. destruct (_ && _); [intros [= _ _ <-]; auto |].
  destruct (_ && _); [intros [= _ _ <-]; auto | done].
Qed.

(** X10 — uniting two peers through the cluster.  Member A's queue for
    member B holds one PROXY_UNITE naming a peer of B, a peer of A and
    the latter's paths, and is flushed.  B knows its peer and finds an
    address pair (IPv6 on both sides, else IPv4 on both sides).  Then B,
    handling the frame, sends A one frame at once and sends its peer a
    RENDEZVOUS naming the address of A's peer; and A, handling B's frame,
    sends its peer a RENDEZVOUS naming the address of B's peer, and does
    nothing else.  Each peer thus learns the other's address of the same
    family, the declared payload length [9 + iplen] being the length of
    what B appended. *)
Theorem unite_rendezvous (cA cB cA' : Cluster) (b : Z) (ivA ivB : list Z)
    (localPeer remotePeer : Z) (paths : list InetAddress) (nowA nowB : Z)
    (lo re : InetAddress) (iplen : Z) :
  length ivA = 16%nat ->
  q (_members cA b)
  = open_q ivA (_id cA) b
    ++ submessage (type_code STATE_MESSAGE_PROXY_UNITE)
         (unite_payload localPeer remotePeer paths) ->
  0 < size paths < 256 ->
  Forall InetAddress_round_trip paths ->
  fits (unite_payload localPeer remotePeer paths) = true ->
  _key cB = key (_members cA b) ->
  _id cB = b ->
  0 <= b < 65536 ->
  0 <= _id cA < 65536 ->
  _id cA <> b ->
  _id cA ∈ _memberIds cB ->
  length ivB = 16%nat ->
  q (_members cB (_id cA)) = open_q ivB b (_id cA) ->
  Topology_getPeerNoCache (events cB) (localPeer mod 2 ^ 40) nowB = true ->
  unite_match (Peer_getBestActiveAddresses (events cB) (localPeer mod 2 ^ 40) nowB)
    (best_remote paths) = Some (lo, re, iplen) ->
  iplen <= size (rawIpData lo) ->
  9 + iplen <= Packet_capacity ->
  _key cA' = key (_members cB (_id cA)) ->
  _id cA' = _id cA ->
  b ∈ _memberIds cA' ->
  exists f1 f2,
    events (_flush b cA) = events cA ++ [EvSendFunction b f1]
    /\ events (handleIncomingStateMessage nowB f1 cB)
       = events cB
         ++ [EvSendFunction (_id cA) f2;
             EvSwitchSend
               (mkPacket (localPeer mod 2 ^ 40) identity_address VERB_RENDEZVOUS
                  ([0] ++ Address_bytes remotePeer ++ rendezvous_tail re iplen)) true 0]
    /\ handleIncomingStateMessage nowA f2 cA'
       = emit (EvSwitchSend
                 (mkPacket (remotePeer mod 2 ^ 40) identity_address
                    (VERB_RENDEZVOUS mod 256)
                    ([0] ++ Address_bytes localPeer ++ rendezvous_tail lo iplen)) true 0)
           cA'.
Proof.
  intros HivA HqA Hn Hrt Hfit Hkey Hid Hb Ha Hab HinB HivB HqB Hknown Hmatch Hraw Hcap
    Hkey' Hid' HinA.
  pose proof (unite_match_iplen _ _ _ _ _ Hmatch) as Hip.
  unfold fits in Hfit. apply Z.leb_le in Hfit.
  remember (unite_payload localPeer remotePeer paths) as payload eqn:Hpayload.
  pose proof (size_nonneg payload) as Hp0.
  (* A to B *)
  destruct (link_frame cA cB b ivA [(type_code STATE_MESSAGE_PROXY_UNITE, payload)] nowB)
    as [Hf1 Hh1]; try done.
  { rewrite HqA. unfold serialized. cbn [map concat fst snd]. by rewrite app_nil_r. }
  { unfold serialized_size. cbn [fold_right snd]. lia. }
  (* what B does *)
  set (data := [0] ++ Address_bytes localPeer ++ rendezvous_tail lo iplen).
  set (msg := (Address_bytes remotePeer ++ [VERB_RENDEZVOUS mod 256] ++ be16 (9 + iplen)
               ++ [0] ++ Address_bytes localPeer) ++ rendezvous_tail lo iplen).
  assert (size data = 9 + iplen) as Hdata.
  { unfold data, Address_bytes.
    rewrite !size_app, size_singleton, size_be_bytes, size_rendezvous_tail; lia. }
  assert (size msg = 17 + iplen) as Hmsg.
  { unfold msg, Address_bytes.
    rewrite !size_app, !size_singleton, !size_be_bytes, size_be16, size_rendezvous_tail;
      lia. }
  assert (size (q (_members cB (_id cA))) = 28) as HqBs by (by rewrite HqB, size_open_q).
  set (cB1 := _send (_id cA) (type_code STATE_MESSAGE_PROXY_SEND) msg cB).
  assert (cB1 = upd_member (_id cA)
                  (fun m => with_q (q m ++ submessage (type_code STATE_MESSAGE_PROXY_SEND) msg) m)
                  cB) as HcB1
    by (apply _send_fits; unfold ZT_CLUSTER_MAX_MESSAGE_LENGTH; lia).
  assert (q (_members cB1 (_id cA))
          = open_q ivB b (_id cA)
            ++ serialized [(type_code STATE_MESSAGE_PROXY_SEND, msg)]) as HqB1.
  { rewrite HcB1. cbn -[submessage open_q]. rewrite Z.eqb_refl.
    cbn -[submessage open_q]. by rewrite HqB, app_nil_r. }
  assert (key (_members cB1 (_id cA)) = key (_members cB (_id cA))) as HkB1.
  { rewrite HcB1. cbn -[submessage open_q]. by rewrite Z.eqb_refl. }
  assert (_id cB1 = b) as HidB1 by (by rewrite HcB1).
  assert (events cB1 = events cB) as HeB1 by (by rewrite HcB1).
  (* B to A *)
  destruct (link_frame cB1 cA' (_id cA) ivB
              [(type_code STATE_MESSAGE_PROXY_SEND, msg)] nowA)
    as [Hf2 Hh2]; rewrite ?HidB1, ?HkB1; try done.
  { unfold serialized_size, ZT_CLUSTER_MAX_MESSAGE_LENGTH. cbn [fold_right snd]. lia. }
  exists (seal_frame (key (_members cA b)) (q (_members cA b))),
         (seal_frame (key (_members cB1 (_id cA))) (q (_members cB1 (_id cA)))).
  split; [exact Hf1 |]. split.
  - rewrite Hh1. cbn [dispatch_all].
    unfold catch, dispatch, bind, lift.
    change (4 + 2) with (size (be16 (_id cA) ++ be16 b) + 2).
    replace (be16 (_id cA) ++ be16 b
             ++ serialized [(type_code STATE_MESSAGE_PROXY_UNITE, payload)])
      with ((be16 (_id cA) ++ be16 b)
            ++ submessage (type_code STATE_MESSAGE_PROXY_UNITE) payload ++ [])
      by (by rewrite <- app_assoc).
    rewrite dispatch_type.
    change (type_of_code (type_code STATE_MESSAGE_PROXY_UNITE mod 256))
      with (Some STATE_MESSAGE_PROXY_UNITE). cbv iota.
    rewrite (case_PROXY_UNITE_decode (_id cA) nowB _
               ((be16 (_id cA) ++ be16 b) ++ be16 (size payload + 1)
                ++ [type_code STATE_MESSAGE_PROXY_UNITE mod 256]) []
               _ localPeer remotePeer paths lo re iplen cB); try done.
    + fold msg. fold cB1. cbn [events emit with_events]. rewrite Hf2, HeB1.
      by rewrite <- app_assoc.
    + unfold submessage. rewrite Hpayload. by rewrite <- !app_assoc.
  - rewrite Hh2, HidB1. cbn [dispatch_all].
    unfold catch, dispatch, bind, lift.
    change (4 + 2) with (size (be16 b ++ be16 (_id cA)) + 2).
    replace (be16 b ++ be16 (_id cA)
             ++ serialized [(type_code STATE_MESSAGE_PROXY_SEND, msg)])
      with ((be16 b ++ be16 (_id cA))
            ++ submessage (type_code STATE_MESSAGE_PROXY_SEND) msg ++ [])
      by (by rewrite <- app_assoc).
    rewrite dispatch_type.
    change (type_of_code (type_code STATE_MESSAGE_PROXY_SEND mod 256))
      with (Some STATE_MESSAGE_PROXY_SEND). cbv iota.
    rewrite (case_PROXY_SEND_decode b nowA _
               ((be16 b ++ be16 (_id cA)) ++ be16 (size msg + 1)
                ++ [type_code STATE_MESSAGE_PROXY_SEND mod 256]) []
               _ remotePeer (VERB_RENDEZVOUS mod 256) data cA'); try lia.
    + cbn [snd]. by rewrite Z.mod_mod.
    + unfold submessage, msg. rewrite Hdata. fold data. by rewrite <- !app_assoc.
    + rewrite !size_app, !size_be16, size_singleton. lia.
Qed.

End UniteProtocol.

(** ** Relaying through the owner of a peer *)

Section RelayProperties.
Context `{Crypto} `{Overlay} `{!Codec} `{!Host}.




End RelayProperties.

(** ** What every call preserves *)

Section FrameSteps.
Context `{Crypto} `{Overlay} `{!Codec} `{!Host}.

Lemma same_config_refl c : same_config c c.
Proof. by repeat split. Qed.

Lemma same_config_trans a b c : same_config a b -> same_config b c -> same_config a c.
Proof.
  intros (A1 & A2 & A3 & A4 & A5 & A6 & A7 & A8) (B1 & B2 & B3 & B4 & B5 & B6 & B7 & B8).
  unfold same_config. split_and!; congruence.
Qed.

Lemma frame_step_refl c : frame_step c c.
Proof.
  unfold frame_step. split_and!; try done; try apply same_config_refl; auto.
Qed.

Lemma frame_step_trans a b c : frame_step a b -> frame_step b c -> frame_step a c.
Proof.
  intros (A1 & A2 & A3 & A4 & A5) (B1 & B2 & B3 & B4 & B5).
  unfold frame_step. split_and!.
  - by eapply same_config_trans.
  - congruence.
  - intros m. by rewrite B3.
  - auto.
  - intros P pa Hpa. destruct A1 as (Hid & _).
    destruct (B5 P pa Hpa) as [E|[E|E]]; [auto | right; left; congruence |].
    right. right. by rewrite <- A2.
Qed.

(** Writes outside the member table, the affinity table and the member
    ids. *)
Lemma frame_step_outside c c' :
  same_config c c' ->
  _memberIds c' = _memberIds c ->
  _members c' = _members c ->
  _peerAffinities c' = _peerAffinities c ->
  frame_step c c'.
Proof.
  intros Hc Hi Hm Ha. unfold frame_step. split_and!; try done.
  - intros m. by rewrite Hm.
  - intros m. unfold queue_ok. destruct Hc as (-> & _). by rewrite Hm.
  - intros P pa. rewrite Ha. auto.
Qed.

Lemma frame_step_emit e c : frame_step c (emit e c).
Proof. by apply frame_step_outside. Qed.

(** A write to a member record that leaves its key and its queue. *)
Lemma frame_step_upd i f c :
  (forall m, key (f m) = key m) -> (forall m, q (f m) = q m) ->
  frame_step c (upd_member i f c).
Proof.
  intros Hk Hq. unfold frame_step. split; [| split; [| split; [| split]]].
  - done.
  - done.
  - intros m. cbn. destruct (m =? i) eqn:E; [| done].
    apply Z.eqb_eq in E as ->. apply Hk.
  - intros m. unfold queue_ok. cbn. destruct (m =? i) eqn:E; [| done].
    apply Z.eqb_eq in E as ->. by rewrite Hq.
  - auto.
Qed.

(** A write to the affinity table that names the local id or a member. *)
Lemma frame_step_affinity P now m c :
  m = _id c \/ m ∈ _memberIds c ->
  frame_step c (with_peerAffinities (<[P := mk_PA now m]> (_peerAffinities c)) c).
Proof.
  intros Hm. unfold frame_step. split; [| split; [| split; [| split]]].
  - done.
  - done.
  - done.
  - done.
  - intros P' pa. cbn. destruct (decide (P' = P)) as [->|Hne].
    + rewrite lookup_insert_eq. intros [= <-]. right. exact Hm.
    + rewrite lookup_insert_ne by done. auto.
Qed.

Lemma _flush_q_le m c : size (q (_members (_flush m c) m)) <= 28.
Proof.
  destruct (decide (28 < size (q (_members c m)))) as [E|E].
  - rewrite _flush_q by done. lia.
  - rewrite _flush_small by lia. lia.
Qed.

Lemma frame_step_flush m c : frame_step c (_flush m c).
Proof.
  destruct (decide (28 < size (q (_members c m)))) as [E|E];
    [| rewrite _flush_small by lia; apply frame_step_refl].
  destruct (_flush_big m c E) as (He & Hq & Hk & Hi).
  destruct (same_tables_flush m c) as (T1 & T2 & T3 & _).
  unfold frame_step. split; [| split; [| split; [| split]]].
  - unfold _flush. destruct (24 + 2 + 2 <? _); done.
  - done.
  - intros j. destruct (decide (j = m)) as [->|Hne]; [done |].
    by rewrite _flush_other.
  - intros j Hok. destruct (decide (j = m)) as [->|Hne].
    + exists (map (secureRandom (randomCalls c)) (seq 0 16)), [].
      rewrite Hq, Hi, app_nil_r.
      split; [by rewrite length_map, length_seq |]. split; [done |].
      rewrite size_open_q by (by rewrite length_map, length_seq).
      unfold ZT_CLUSTER_MAX_MESSAGE_LENGTH. lia.
    + unfold queue_ok. by rewrite Hi, _flush_other.
  - intros P pa. rewrite T1. auto.
Qed.

(** Appending to a queue that has room. *)
Lemma frame_step_append m b c :
  size (q (_members c m)) + size b <= ZT_CLUSTER_MAX_MESSAGE_LENGTH ->
  frame_step c (upd_member m (fun r => with_q (q r ++ b) r) c).
Proof.
  intros Hfit. unfold frame_step. split; [| split; [| split; [| split]]].
  - done.
  - done.
  - intros j. cbn. destruct (j =? m) eqn:E; [| done]. by apply Z.eqb_eq in E as ->.
  - intros j Hok. destruct (decide (j = m)) as [->|Hne].
    + by destruct (stream_append m c b Hok Hfit) as (_ & _ & _ & _ & _ & Q).
    + unfold queue_ok. cbn.
      by replace (j =? m) with false by (symmetry; by apply Z.eqb_neq).
  - auto.
Qed.

Lemma frame_step_send m type msg c : frame_step c (_send m type msg c).
Proof.
  unfold _send.
  destruct (ZT_CLUSTER_MAX_MESSAGE_LENGTH - (24 + 2 + 2) <? size msg + 3) eqn:E1;
    [apply frame_step_refl |].
  apply Z.ltb_ge in E1.
  destruct (ZT_CLUSTER_MAX_MESSAGE_LENGTH <? size (q (_members c m)) + size msg + 3) eqn:E2.
  - eapply frame_step_trans; [apply frame_step_flush |].
    apply frame_step_append. pose proof (_flush_q_le m c). rewrite size_submessage. lia.
  - apply Z.ltb_ge in E2. apply frame_step_append. rewrite size_submessage. lia.
Qed.

Lemma frame_step_fold {A} (f : Cluster -> A -> Cluster) (l : list A) c :
  (forall c' a, frame_step c' (f c' a)) -> frame_step c (fold_left f l c).
Proof. apply (R_fold frame_step frame_step_refl frame_step_trans). Qed.

Lemma frame_step_send_to_all type msg c : frame_step c (send_to_all type msg c).
Proof. apply frame_step_fold. intros c' m. apply frame_step_send. Qed.

Lemma frame_step_replicateHavePeer now peerId physicalAddress c :
  frame_step c (replicateHavePeer now peerId physicalAddress c).
Proof.
  unfold replicateHavePeer.
  assert (frame_step c
            (send_to_all (type_code STATE_MESSAGE_HAVE_PEER)
               (Identity_serialize peerId ++ InetAddress_serialize physicalAddress)
               (with_peerAffinities
                  (<[Identity_address peerId := mk_PA now (_id c)]> (_peerAffinities c)) c)))
    as Hann.
  { eapply frame_step_trans; [apply frame_step_affinity; by left |].
    apply frame_step_send_to_all. }
  destruct (negb _); [exact Hann |].
  destruct (_ <? _); [apply frame_step_refl | exact Hann].
Qed.

Lemma frame_step_sendViaCluster now fromPeer toPeer data unite c :
  frame_step c (sendViaCluster now fromPeer toPeer data unite c).2.
Proof.
  unfold sendViaCluster.
  destruct (16384 <? size data); [apply frame_step_refl |].
  destruct (_peerAffinities c !! toPeer) as [pa|]; [| apply frame_step_refl].
  destruct (_ && _); [| apply frame_step_refl].
  cbv zeta. cbn [snd].
  set (c1 := if 0 <? _ then _ else c).
  assert (frame_step c c1) as Hc1
    by (unfold c1; destruct (0 <? _); [apply frame_step_send | apply frame_step_refl]).
  destruct (zeroTierPhysicalEndpoints (_members c1 (mid pa))); [done |].
  eapply frame_step_trans; [exact Hc1 | apply frame_step_emit].
Qed.

Lemma frame_step_flush_member now c m : frame_step c (flush_member now c m).
Proof.
  unfold flush_member.
  eapply frame_step_trans; [| apply frame_step_flush].
  destruct (_ <=? _); [| apply frame_step_refl].
  eapply frame_step_trans; [apply frame_step_send |].
  by apply frame_step_upd.
Qed.

Lemma frame_step_periodic_sweep now c : frame_step c (periodic_sweep now c).
Proof.
  unfold periodic_sweep. destruct (_ <=? _); [| apply frame_step_refl].
  unfold frame_step. split; [| split; [| split; [| split]]];
    [done | done | done | done |].
  intros P pa Hpa. cbn in Hpa. apply sweep_lookup in Hpa as [Hpa _]. auto.
Qed.

Lemma frame_step_periodic_announce now c : frame_step c (periodic_announce now c).
Proof.
  unfold periodic_announce. destruct (_ <=? _); [| apply frame_step_refl].
  eapply frame_step_trans;
    [by apply (frame_step_outside c (with_lastCheckedPeersForAnnounce now c)) |].
  apply frame_step_fold. intros c' peer. unfold announce_peer.
  destruct (Peer_getBestPath _ _ _);
    [apply frame_step_replicateHavePeer | apply frame_step_refl].
Qed.

Lemma frame_step_periodic_flush now c : frame_step c (periodic_flush now c).
Proof.
  unfold periodic_flush. destruct (_ <=? _); [| apply frame_step_refl].
  eapply frame_step_trans;
    [by apply (frame_step_outside c (with_lastFlushed now c)) |].
  apply frame_step_fold. intros c' m. apply frame_step_flush_member.
Qed.

Lemma frame_step_doPeriodicTasks now c : frame_step c (doPeriodicTasks now c).
Proof.
  unfold doPeriodicTasks.
  eapply frame_step_trans; [apply frame_step_periodic_sweep |].
  eapply frame_step_trans; [apply frame_step_periodic_announce |].
  apply frame_step_periodic_flush.
Qed.

End FrameSteps.

(** ** What handling a frame can change *)

Section HandlerSteps.
Context `{Crypto} `{Overlay} `{!Codec} `{!Host}.

Variable from : Z.

Lemma handler_step_refl c : handler_step from c c.
Proof.
  unfold handler_step. split; [apply frame_step_refl |].
  split_and!; try done. exists []. by rewrite app_nil_r.
Qed.

Lemma handler_step_trans a b c :
  handler_step from a b -> handler_step from b c -> handler_step from a c.
Proof.
  intros (A1 & A2 & A3 & A4 & A5 & A6 & e1 & A7 & A8)
         (B1 & B2 & B3 & B4 & B5 & B6 & e2 & B7 & B8).
  unfold handler_step. split; [by eapply frame_step_trans |].
  split; [intros j Hj; by rewrite B2, A2 |].
  split_and!; try congruence.
  exists (e1 ++ e2). split; [by rewrite B7, A7, app_assoc | by apply Forall_app].
Qed.

Lemma handler_step_emit e c : handler_event from e -> handler_step from c (emit e c).
Proof.
  intros He. unfold handler_step. split; [apply frame_step_emit |].
  split_and!; try done. exists [e]. split; [done | by constructor].
Qed.

Lemma handler_step_upd f c :
  (forall m, key (f m) = key m) -> (forall m, q (f m) = q m) ->
  (forall m, lastAnnouncedAliveTo (f m) = lastAnnouncedAliveTo m) ->
  handler_step from c (upd_member from f c).
Proof.
  intros Hk Hq Ha. unfold handler_step. split; [by apply frame_step_upd |].
  split; [| split; [| split; [| split; [| split]]]]; try done.
  - intros j Hj. cbn. by replace (j =? from) with false by (symmetry; by apply Z.eqb_neq).
  - cbn. by rewrite Z.eqb_refl.
  - exists []. by rewrite app_nil_r.
Qed.

Lemma _flush_timers m c :
  _lastCleanedPeerAffinities (_flush m c) = _lastCleanedPeerAffinities c
  /\ _lastCheckedPeersForAnnounce (_flush m c) = _lastCheckedPeersForAnnounce c
  /\ _lastFlushed (_flush m c) = _lastFlushed c.
Proof. unfold _flush. by destruct (24 + 2 + 2 <? _). Qed.

Lemma handler_step_flush c : handler_step from c (_flush from c).
Proof.
  destruct (_flush_timers from c) as (T1 & T2 & T3).
  unfold handler_step. split; [apply frame_step_flush |].
  split; [| split; [| split; [| split; [| split]]]]; try done.
  - intros j Hj. by apply _flush_other.
  - apply _flush_keeps_announced.
  - destruct (decide (28 < size (q (_members c from)))) as [E|E].
    + destruct (_flush_big from c E) as (He & _).
      eexists. split; [exact He |]. by constructor.
    + rewrite _flush_small by lia. exists []. by rewrite app_nil_r.
Qed.

Lemma handler_step_append b c :
  size (q (_members c from)) + size b <= ZT_CLUSTER_MAX_MESSAGE_LENGTH ->
  handler_step from c (upd_member from (fun r => with_q (q r ++ b) r) c).
Proof.
  intros Hfit. unfold handler_step. split; [by apply frame_step_append |].
  split; [| split; [| split; [| split; [| split]]]]; try done.
  - intros j Hj. cbn. by replace (j =? from) with false by (symmetry; by apply Z.eqb_neq).
  - cbn. by rewrite Z.eqb_refl.
  - exists []. by rewrite app_nil_r.
Qed.

Lemma handler_step_send type msg c : handler_step from c (_send from type msg c).
Proof.
  unfold _send.
  destruct (ZT_CLUSTER_MAX_MESSAGE_LENGTH - (24 + 2 + 2) <? size msg + 3) eqn:E1;
    [apply handler_step_refl |].
  apply Z.ltb_ge in E1.
  destruct (ZT_CLUSTER_MAX_MESSAGE_LENGTH <? size (q (_members c from)) + size msg + 3)
    eqn:E2.
  - eapply handler_step_trans; [apply handler_step_flush |].
    apply handler_step_append. pose proof (_flush_q_le from c).
    rewrite size_submessage. lia.
  - apply Z.ltb_ge in E2. apply handler_step_append. rewrite size_submessage. lia.
Qed.

Lemma handler_step_affinity P now c :
  from ∈ _memberIds c ->
  handler_step from c
    (with_peerAffinities (<[P := mk_PA now from]> (_peerAffinities c)) c).
Proof.
  intros Hin. unfold handler_step. split; [apply frame_step_affinity; by right |].
  split_and!; try done. exists []. by rewrite app_nil_r.
Qed.

Lemma member_handler_step_refl c : member_handler_step from c c.
Proof. intros _. apply handler_step_refl. Qed.

Lemma member_handler_step_trans a b c :
  member_handler_step from a b -> member_handler_step from b c ->
  member_handler_step from a c.
Proof.
  intros Hab Hbc Hin. specialize (Hab Hin).
  eapply handler_step_trans; [exact Hab |]. apply Hbc.
  destruct Hab as ((_ & -> & _) & _). exact Hin.
Qed.

Ltac handler_step_tac :=
  cbv beta zeta;
  match goal with
  | |- respects _ (bind _ _) =>
      apply (respects_bind _ member_handler_step_trans); [| intros ?]
  | |- respects _ (ret _) => apply (respects_ret _ member_handler_step_refl)
  | |- respects _ (lift _) => apply (respects_lift _ member_handler_step_refl)
  | |- respects _ (ask _) => apply (respects_ask _ member_handler_step_refl)
  | |- respects _ (modify (upd_member _ _)) =>
      apply respects_modify; intros ? _; by apply handler_step_upd
  | |- respects _ (modify (emit _)) =>
      apply respects_modify; intros ? _; by apply handler_step_emit
  | |- respects _ (modify (_send _ _ _)) =>
      apply respects_modify; intros ? _; apply handler_step_send
  | |- respects _ (modify (_flush _)) =>
      apply respects_modify; intros ? _; apply handler_step_flush
  | |- respects _ (modify (fun c => with_peerAffinities _ c)) =>
      apply respects_modify; intros ? ?; by apply handler_step_affinity
  | |- respects _ (match ?x with _ => _ end) => destruct x
  end.

Lemma handler_step_alive_endpoints n dmsg ptr :
  respects (member_handler_step from) (alive_endpoints n from dmsg ptr).
Proof.
  revert ptr. induction n as [|n IH]; intros ptr; simpl.
  - apply (respects_ret _ member_handler_step_refl).
  - repeat handler_step_tac. apply IH.
Qed.

Lemma handler_step_dispatch now dmsg ptr :
  respects (member_handler_step from) (dispatch from now dmsg ptr).
Proof.
  unfold dispatch.
  apply (respects_bind _ member_handler_step_trans);
    [apply (respects_lift _ member_handler_step_refl) |].
  intros mtype. cbv zeta. destruct (type_of_code mtype) as [[]|].
  - apply (respects_ret _ member_handler_step_refl).
  - unfold case_ALIVE. repeat handler_step_tac. apply handler_step_alive_endpoints.
  - unfold case_HAVE_PEER. repeat handler_step_tac.
  - unfold case_MULTICAST_LIKE. repeat handler_step_tac.
  - apply (respects_ret _ member_handler_step_refl).
  - unfold case_PROXY_UNITE. repeat handler_step_tac.
  - unfold case_PROXY_SEND. repeat handler_step_tac.
  - apply (respects_ret _ member_handler_step_refl).
Qed.

Lemma handler_step_parse_loop fuel now dmsg ptr c :
  member_handler_step from c (parse_loop fuel from now dmsg ptr c).
Proof.
  revert ptr c. induction fuel as [|fuel IH]; intros ptr c; simpl;
    [apply member_handler_step_refl |].
  destruct (ptr <? size dmsg); [| apply member_handler_step_refl].
  destruct (Buffer_at16 dmsg ptr) as [mlen|]; [| apply member_handler_step_refl].
  destruct (size dmsg <? ptr + 2 + mlen); [apply member_handler_step_refl |].
  eapply member_handler_step_trans; [| apply IH]. apply handler_step_dispatch.
Qed.

End HandlerSteps.

Section HandlerFootprint.
Context `{Crypto} `{Overlay} `{!Codec} `{!Host}.

(** A frame is dropped, or it comes from a member and does what a frame
    from that member can do. *)
Lemma handle_steps now msg c :
  handleIncomingStateMessage now msg c = c
  \/ exists from,
       from ∈ _memberIds c /\ from <> _id c
       /\ Buffer_at16 (plain (_key c) msg) 0 = Some from
       /\ handler_step from c (handleIncomingStateMessage now msg c).
Proof.
  unfold handleIncomingStateMessage.
  destruct (unseal_frame (_key c) msg) as [dmsg|] eqn:Hu; [| by left].
  apply unseal_Some in Hu as ->.
  destruct (size _ <? 4); [by left |].
  destruct (Buffer_at16 _ 0) as [from|] eqn:Hfrom; [| by left].
  destruct (Buffer_at16 _ 2) as [to|]; [| by left].
  destruct (from =? _id c) eqn:E1; [by left |].
  destruct (negb (to =? _id c)); [by left |].
  destruct (bool_decide (from ∈ _memberIds c)) eqn:E3; simpl; [| by left].
  apply Z.eqb_neq in E1. apply bool_decide_eq_true in E3.
  right. exists from. split_and!; try done.
  by apply handler_step_parse_loop.
Qed.

(** X12 — what handling a frame never does.  Whatever bytes
    [handleIncomingStateMessage] is given, either it leaves the object
    as it was, or the frame names as its sender a member [from] other
    than the local id, and then: the configuration, the member ids, the
    timers of the periodic loop and every link key are unchanged; the
    record of every id other than [from] is unchanged; the time of the
    last heartbeat sent to [from] is unchanged and its queue, if well
    formed, stays so; the calls made are added after the earlier ones,
    never relay a packet ([putPacket]) and send frames to [from]
    only. *)
Theorem handler_footprint (c : Cluster) (now : Z) (msg : list Z) :
  let c' := handleIncomingStateMessage now msg c in
  c' = c
  \/ exists from,
       from ∈ _memberIds c /\ from <> _id c
       /\ Buffer_at16 (plain (_key c) msg) 0 = Some from
       /\ same_config c c'
       /\ _memberIds c' = _memberIds c
       /\ _lastCleanedPeerAffinities c' = _lastCleanedPeerAffinities c
       /\ _lastCheckedPeersForAnnounce c' = _lastCheckedPeersForAnnounce c
       /\ _lastFlushed c' = _lastFlushed c
       /\ (forall m, key (_members c' m) = key (_members c m))
       /\ (forall j, j <> from -> _members c' j = _members c j)
       /\ lastAnnouncedAliveTo (_members c' from)
          = lastAnnouncedAliveTo (_members c from)
       /\ (queue_ok c from -> queue_ok c' from)
       /\ exists evs,
            events c' = events c ++ evs
            /\ Forall (fun e => match e with
                                | EvSendFunction m _ => m = from
                                | EvPutPacket _ _ _ => False
                                | _ => True
                                end) evs.
Proof.
  intros c'. subst c'.
  destruct (handle_steps now msg c) as [E|(from & Hin & Hne & Hfrom & Hs)]; [by left |].
  right. exists from.
  destruct Hs as ((S1 & S2 & S3 & S4 & S5) & O & A & T1 & T2 & T3 & evs & E1 & E2).
  split_and!; try done; [by apply S4 |].
  exists evs. split; [done |].
  eapply Forall_impl; [exact E2 |]. intros e He. by destruct e.
Qed.

End HandlerFootprint.

(** ** The invariant of the object *)

Section Invariant.
Context `{Crypto} `{Overlay} `{!Codec} `{!Host}.

Lemma cluster_inv_new id eps x y z loc : cluster_inv (Cluster_new id eps x y z loc).
Proof.
  unfold cluster_inv, wf_members, linked. cbn -[derive_key].
  split; [split; constructor |]. split; [done |]. split; [done |].
  split; [| split].
  - intros m Hm. by apply elem_of_nil in Hm.
  - intros m [Hm|(P & pa & Hpa & _)]; [by apply elem_of_nil in Hm |].
    by rewrite lookup_empty in Hpa.
  - intros P pa Hpa. by rewrite lookup_empty in Hpa.
Qed.

Lemma cluster_inv_frame_step c c' : cluster_inv c -> frame_step c c' -> cluster_inv c'.
Proof.
  intros ((Hs & Hb) & I2 & I3 & I4 & I5 & I6)
         ((C1 & C2 & C3 & C4 & C5 & C6 & C7 & C8) & F2 & F3 & F4 & F5).
  assert (forall m, m ∈ _memberIds c -> 0 <= m < ZT_CLUSTER_MAX_MEMBERS) as Hrange
    by (intros m Hm; by apply (proj1 (Forall_forall _ _) Hb m) in Hm as [? _]).
  unfold cluster_inv, wf_members. rewrite F2, C1, C5, C6.
  split; [done |]. split; [done |]. split; [done |]. split; [| split].
  - intros m Hm. rewrite F3. by apply I4.
  - intros m Hl. apply F4, I5.
    destruct Hl as [Hm|(P & pa & Hpa & Hmid & Hne)]; [left; by rewrite <- F2 |].
    rewrite C1 in Hne.
    destruct (F5 P pa Hpa) as [E|[E|E]].
    + right. by exists P, pa.
    + congruence.
    + left. by rewrite <- Hmid.
  - intros P pa Hpa. destruct (F5 P pa Hpa) as [E|[E|E]]; [by eapply I6 | by left |].
    right. by apply Hrange.
Qed.

Lemma same_config_addMember m c : same_config c (addMember m c).
Proof.
  unfold addMember. destruct (_ || _); [apply same_config_refl |].
  destruct (bool_decide _); [apply same_config_refl | done].
Qed.

Lemma cluster_inv_addMember m c : 0 <= m -> cluster_inv c -> cluster_inv (addMember m c).
Proof.
  intros Hm0 Hinv.
  destruct (decide (ZT_CLUSTER_MAX_MEMBERS <= m \/ m = _id c \/ m ∈ _memberIds c))
    as [Hr|Hr]; [by rewrite addMember_rejected |].
  assert (m < ZT_CLUSTER_MAX_MEMBERS) as Hlt
    by (destruct (decide (m < ZT_CLUSTER_MAX_MEMBERS)); [done | exfalso; apply Hr; lia]).
  assert (m <> _id c) as Hne by (intros ?; apply Hr; auto).
  assert (m ∉ _memberIds c) as Hni by (intros ?; apply Hr; auto).
  destruct Hinv as ((Hs & Hb) & I2 & I3 & I4 & I5 & I6).
  destruct (addMember_accepted m c Hlt Hne Hni) as (Hids & Hid & Ha & He & Ho & Hrec).
  destruct (same_config_addMember m c) as (_ & _ & _ & _ & C5 & C6 & _).
  destruct (sort_ids_snoc (_memberIds c) m Hs Hni) as [Hs' Hp].
  assert (forall j, j ∈ _memberIds (addMember m c) <-> j = m \/ j ∈ _memberIds c) as Hmem
    by (intros j; by rewrite Hids, Hp, elem_of_cons).
  assert (queue_ok (addMember m c) m) as Hqm.
  { exists (map (secureRandom (randomCalls c)) (seq 0 16)), [].
    rewrite Hrec, Hid, app_nil_r. cbn [q with_q].
    split; [by rewrite length_map, length_seq |]. split; [done |].
    rewrite size_open_q by (by rewrite length_map, length_seq).
    unfold ZT_CLUSTER_MAX_MESSAGE_LENGTH. lia. }
  unfold cluster_inv, wf_members. rewrite Hid, Ha, C5, C6.
  split; [split |]; [| | split; [done |]; split; [done |]; split; [| split; [| done]]].
  - by rewrite Hids.
  - rewrite Hids, Hp. by constructor.
  - intros j Hj. apply Hmem in Hj as [->|Hj].
    + by rewrite Hrec.
    + rewrite Ho by (intros ->; done). by apply I4.
  - intros j Hl. destruct (decide (j = m)) as [->|Hjm]; [done |].
    unfold queue_ok. rewrite Hid, Ho by done. apply I5.
    destruct Hl as [Hj|(P & pa & Hpa & Hmid & Hn)].
    + apply Hmem in Hj as [?|Hj]; [done | by left].
    + right. exists P, pa. by rewrite <- Ha, <- Hid.
Qed.

Lemma cluster_inv_removeMember m c : cluster_inv c -> cluster_inv (removeMember m c).
Proof.
  intros ((Hs & Hb) & I2 & I3 & I4 & I5 & I6).
  unfold cluster_inv, wf_members, removeMember. cbn -[derive_key].
  split; [split |]; [| | split; [done |]; split; [done |]; split; [| split; [| done]]].
  - by apply StronglySorted_lt_filter.
  - by apply Forall_filter_keep.
  - intros j Hj. apply list_elem_of_filter in Hj as [_ Hj]. by apply I4.
  - intros j Hl. apply (I5 j).
    destruct Hl as [Hj|Hl]; [left | by right].
    cbn in Hj. by apply list_elem_of_filter in Hj as [_ Hj].
Qed.

Lemma frame_step_interface c c' :
  interface_step c c' ->
  (exists m, 0 <= m /\ c' = addMember m c) \/ (exists m, c' = removeMember m c)
  \/ frame_step c c'.
Proof.
  intros [m c0 Hm|m c0|now msg c0|now f t data unite c0|now id pa c0
          |nwid a mac adi c0|com c0|now c0].
  - left. by exists m.
  - right. left. by exists m.
  - right. right.
    destruct (handle_steps now msg c0) as [->|(from & _ & _ & _ & Hs & _)];
      [apply frame_step_refl | exact Hs].
  - right. right. apply frame_step_sendViaCluster.
  - right. right. apply frame_step_replicateHavePeer.
  - right. right. apply frame_step_send_to_all.
  - right. right. apply frame_step_send_to_all.
  - right. right. apply frame_step_doPeriodicTasks.
Qed.

(** X13 — the invariant of the object.  In every state reached from
    the constructor by calls of [addMember] (with a non-negative id),
    [removeMember], [handleIncomingStateMessage], [sendViaCluster],
    the three [replicate] functions and [doPeriodicTasks]: the member
    ids are strictly increasing, below [ZT_CLUSTER_MAX_MEMBERS] and
    differ from the local id; the inbound key and each member's link key
    are the keys derived from the identity's secret and the respective
    id (so two members built on one identity agree on the key of each
    link); every record the code indexes (a member's, or that of an
    owner named by the affinity table) has a well-formed queue within
    the buffer's capacity; and every owner named by the affinity table
    is the local id or lies below [ZT_CLUSTER_MAX_MEMBERS], so that
    [_members[canHasPeer]] in [sendViaCluster] is inside the array. *)
Theorem cluster_inv_reachable (c : Cluster) :
  reachable c ->
  (StronglySorted Z.lt (_memberIds c)
   /\ Forall (fun m => 0 <= m < ZT_CLUSTER_MAX_MEMBERS /\ m <> _id c) (_memberIds c))
  /\ _key c = derive_key identity_sha512PrivateKey (_id c)
  /\ (forall m, m ∈ _memberIds c ->
        key (_members c m) = derive_key identity_sha512PrivateKey m)
  /\ (forall m, m ∈ _memberIds c -> queue_ok c m)
  /\ (forall P pa, _peerAffinities c !! P = Some pa ->
        mid pa = _id c
        \/ (0 <= mid pa < ZT_CLUSTER_MAX_MEMBERS /\ queue_ok c (mid pa))).
Proof.
  intros Hr.
  assert (cluster_inv c) as Hinv.
  { induction Hr as [id eps x y z loc|c c' _ IH Hstep]; [apply cluster_inv_new |].
    destruct (frame_step_interface c c' Hstep) as [(m & Hm & ->)|[(m & ->)|Hf]].
    - by apply cluster_inv_addMember.
    - by apply cluster_inv_removeMember.
    - by eapply cluster_inv_frame_step. }
  destruct Hinv as (I1 & I2 & I3 & I4 & I5 & I6).
  rewrite I2 in I3, I4.
  split; [done |]. split; [done |]. split; [done |]. split.
  - intros m Hm. apply I5. by left.
  - intros P pa Hpa. destruct (decide (mid pa = _id c)) as [E|E]; [by left |].
    right. split.
    + destruct (I6 P pa Hpa) as [?|?]; [done | done].
    + apply I5. right. by exists P, pa.
Qed.

End Invariant.

(** ** The periodic loop *)

Section PeriodicProperties.
Context `{Crypto} `{Overlay} `{!Codec} `{!Host}.

Lemma same_timers_refl c : same_timers c c.
Proof. by repeat split. Qed.

Lemma same_timers_trans a b c : same_timers a b -> same_timers b c -> same_timers a c.
Proof. intros (A1 & A2 & A3) (B1 & B2 & B3). unfold same_timers. split_and!; congruence. Qed.

Lemma same_timers_send m type msg c : same_timers c (_send m type msg c).
Proof.
  unfold _send. destruct (_ <? _); [apply same_timers_refl |].
  destruct (_ <? _); [| by repeat split].
  destruct (_flush_timers m c) as (T1 & T2 & T3). by repeat split.
Qed.

Lemma same_timers_fold {A} (f : Cluster -> A -> Cluster) (l : list A) c :
  (forall c' a, same_timers c' (f c' a)) -> same_timers c (fold_left f l c).
Proof. apply (R_fold same_timers same_timers_refl same_timers_trans). Qed.

Lemma same_timers_replicateHavePeer now peerId physicalAddress c :
  same_timers c (replicateHavePeer now peerId physicalAddress c).
Proof.
  unfold replicateHavePeer.
  assert (forall t, same_timers c
            (send_to_all (type_code STATE_MESSAGE_HAVE_PEER)
               (Identity_serialize peerId ++ InetAddress_serialize physicalAddress)
               (with_peerAffinities t c))) as Hann.
  { intros t. eapply same_timers_trans; [| apply same_timers_fold].
    - by repeat split.
    - intros c' m. apply same_timers_send. }
  destruct (negb _); [apply Hann |].
  destruct (_ <? _); [apply same_timers_refl | apply Hann].
Qed.

Lemma same_timers_flush_member now c m : same_timers c (flush_member now c m).
Proof.
  unfold flush_member.
  eapply same_timers_trans; [| apply _flush_timers].
  destruct (_ <=? _); [| apply same_timers_refl].
  eapply same_timers_trans; [apply same_timers_send | by repeat split].
Qed.





Lemma same_timers_periodic_announce now c :
  _lastCleanedPeerAffinities (periodic_announce now c) = _lastCleanedPeerAffinities c
  /\ _lastFlushed (periodic_announce now c) = _lastFlushed c
  /\ _lastCheckedPeersForAnnounce (periodic_announce now c)
     = if ZT_CLUSTER_HAVE_PEER_ANNOUNCE_PERIOD / 4
          <=? u64_sub now (_lastCheckedPeersForAnnounce c)
       then now else _lastCheckedPeersForAnnounce c.
Proof.
  unfold periodic_announce. destruct (_ <=? _); [| done].
  destruct (same_timers_fold (announce_peer now) (Topology_eachPeer (events c))
              (with_lastCheckedPeersForAnnounce now c)) as (T1 & T2 & T3).
  { intros c' peer. unfold announce_peer.
    destruct (Peer_getBestPath _ _ _);
      [apply same_timers_replicateHavePeer | apply same_timers_refl]. }
  by rewrite T1, T2, T3.
Qed.

Lemma same_timers_periodic_flush now c :
  _lastCleanedPeerAffinities (periodic_flush now c) = _lastCleanedPeerAffinities c
  /\ _lastCheckedPeersForAnnounce (periodic_flush now c) = _lastCheckedPeersForAnnounce c
  /\ _lastFlushed (periodic_flush now c)
     = if ZT_CLUSTER_FLUSH_PERIOD <=? u64_sub now (_lastFlushed c)
       then now else _lastFlushed c.
Proof.
  unfold periodic_flush. destruct (_ <=? _); [| done].
  destruct (same_timers_fold (flush_member now) (_memberIds c) (with_lastFlushed now c))
    as (T1 & T2 & T3).
  { intros c' m. apply same_timers_flush_member. }
  by rewrite T1, T2, T3.
Qed.

Lemma same_timers_periodic_sweep now c :
  _lastCheckedPeersForAnnounce (periodic_sweep now c) = _lastCheckedPeersForAnnounce c
  /\ _lastFlushed (periodic_sweep now c) = _lastFlushed c
  /\ _lastCleanedPeerAffinities (periodic_sweep now c)
     = if ZT_PEER_ACTIVITY_TIMEOUT * 5 <=? u64_sub now (_lastCleanedPeerAffinities c)
       then now else _lastCleanedPeerAffinities c.
Proof. unfold periodic_sweep. by destruct (_ <=? _). Qed.


(** X15 — the periodic loop is idempotent at one instant.  A second
    call of [doPeriodicTasks] at the time of the first changes nothing:
    each of the three blocks runs at most once per period, whatever the
    other blocks do. *)
Theorem doPeriodicTasks_idempotent (c : Cluster) (now : Z) :
  doPeriodicTasks now (doPeriodicTasks now c) = doPeriodicTasks now c.
Proof.
  assert (forall c0, u64_sub now (_lastCleanedPeerAffinities c0) < ZT_PEER_ACTIVITY_TIMEOUT * 5 ->
            periodic_sweep now c0 = c0) as Hsweep.
  { intros c0 Hlt. unfold periodic_sweep.
    by replace (_ <=? _) with false by (symmetry; by apply Z.leb_gt). }
  assert (forall c0, u64_sub now (_lastCheckedPeersForAnnounce c0)
                     < ZT_CLUSTER_HAVE_PEER_ANNOUNCE_PERIOD / 4 ->
            periodic_announce now c0 = c0) as Hann.
  { intros c0 Hlt. unfold periodic_announce.
    by replace (_ <=? _) with false by (symmetry; by apply Z.leb_gt). }
  assert (forall c0, u64_sub now (_lastFlushed c0) < ZT_CLUSTER_FLUSH_PERIOD ->
            periodic_flush now c0 = c0) as Hfl.
  { intros c0 Hlt. unfold periodic_flush.
    by replace (_ <=? _) with false by (symmetry; by apply Z.leb_gt). }
  set (c1 := periodic_sweep now c).
  set (c2 := periodic_announce now c1).
  set (c3 := periodic_flush now c2).
  change (doPeriodicTasks now c) with c3.
  destruct (same_timers_periodic_sweep now c) as (S1 & S2 & S3). fold c1 in S1, S2, S3.
  destruct (same_timers_periodic_announce now c1) as (A1 & A2 & A3). fold c2 in A1, A2, A3.
  destruct (same_timers_periodic_flush now c2) as (F1 & F2 & F3). fold c3 in F1, F2, F3.
  unfold doPeriodicTasks.
  rewrite Hsweep, Hann, Hfl; try done.
  - rewrite F3.
    destruct (ZT_CLUSTER_FLUSH_PERIOD <=? u64_sub now (_lastFlushed c2)) eqn:E;
      [by rewrite u64_sub_diag |].
    by apply Z.leb_gt in E.
  - rewrite F2, A3.
    destruct (ZT_CLUSTER_HAVE_PEER_ANNOUNCE_PERIOD / 4
              <=? u64_sub now (_lastCheckedPeersForAnnounce c1)) eqn:E;
      [by rewrite u64_sub_diag |].
    by apply Z.leb_gt in E.
  - rewrite F1, A1, S3.
    destruct (ZT_PEER_ACTIVITY_TIMEOUT * 5
              <=? u64_sub now (_lastCleanedPeerAffinities c)) eqn:E;
      [by rewrite u64_sub_diag |].
    by apply Z.leb_gt in E.
Qed.

End PeriodicProperties.

(** ** The redirector, exactly *)

Section RedirectorProperties.
Context `{Crypto} `{Overlay} `{!Codec} `{!Host}.

(** X16 — what the redirector answers.  With a geolocation function
    and a point for the peer's address: if no member is considered and
    closer than the baseline, the answer is no; otherwise there is a
    member that is considered, closer than the baseline, and to which no
    considered member is strictly closer, such that the answer is the
    first endpoint, in the order that member advertised them, whose
    address family is that of the peer's address, and no if it has
    none. *)
Theorem findBetterEndpoint_nearest (c : Cluster) (now peerAddress : Z)
    (peerPhysicalAddress : InetAddress) (offload : bool) (px py pz : Z) :
  _hasAddressToLocationFunction c = true ->
  addressToLocationFunction peerPhysicalAddress = Some (px, py, pz) ->
  let base := baseline offload c px py pz in
  let answer := findBetterEndpoint now peerAddress peerPhysicalAddress offload c in
  ((forall M, M ∈ _memberIds c -> ~ beats now px py pz c base M) -> answer = None)
  /\ ((exists M, M ∈ _memberIds c /\ beats now px py pz c base M) ->
      exists M,
        M ∈ _memberIds c
        /\ beats now px py pz c base M
        /\ nearest_of now px py pz c (_memberIds c) M
        /\ answer = first_in_family (ss_family peerPhysicalAddress)
                      (zeroTierPhysicalEndpoints (_members c M))).
Proof.
  intros Hloc Hpt base answer. subst answer. unfold findBetterEndpoint.
  rewrite Hloc, Hpt.
  pose proof (scan_members now px py pz c offload) as Hinv. fold base in Hinv.
  fold base.
  destruct (fold_left _ _ _) as [[bd bm] best].
  destruct Hinv as [(_ & Hnil & Hno)|(M & HM & Hb & Hn & _ & He)]; simpl in *.
  - subst best. split; [done |]. intros (M & HM & Hb). by destruct (Hno M HM).
  - subst best. split.
    + intros Hno. by destruct (Hno M HM).
    + intros _. by exists M.
Qed.

(** X17 — what removing a member does and does not do.  After
    [removeMember m]: a frame naming [m] as its sender is dropped
    without any effect; the redirector answers only with endpoints of
    members other than [m]; but [sendViaCluster] decides, queues and
    relays exactly as before the removal, because the affinity entries
    owned by [m] stay in the table and [sendViaCluster] does not look at
    the member ids. *)
Theorem removeMember_effects (c : Cluster) (m : Z) (now : Z) (msg : list Z) :
  Buffer_at16 (plain (_key c) msg) 0 = Some m ->
  handleIncomingStateMessage now msg (removeMember m c) = removeMember m c
  /\ (forall peerAddress peerPhysicalAddress offload E,
        findBetterEndpoint now peerAddress peerPhysicalAddress offload (removeMember m c)
        = Some E ->
        exists M, M <> m /\ M ∈ _memberIds c
                  /\ E ∈ zeroTierPhysicalEndpoints (_members c M))
  /\ (forall fromPeerAddress toPeerAddress data unite,
        sendViaCluster now fromPeerAddress toPeerAddress data unite (removeMember m c)
        = ((sendViaCluster now fromPeerAddress toPeerAddress data unite c).1,
           removeMember m (sendViaCluster now fromPeerAddress toPeerAddress data unite c).2)).
Proof.
  intros Hfrom. split_and!.
  - unfold handleIncomingStateMessage.
    change (_key (removeMember m c)) with (_key c).
    destruct (unseal_frame (_key c) msg) as [dmsg|] eqn:Hu; [| done].
    apply unseal_Some in Hu as ->. rewrite Hfrom.
    destruct (size _ <? 4); [done |].
    destruct (Buffer_at16 _ 2) as [to|]; [| done].
    destruct (m =? _id (removeMember m c)); [done |].
    destruct (negb _); [done |].
    rewrite bool_decide_eq_false_2; [done |].
    cbn. rewrite list_elem_of_filter. by intros [? _].
  - intros peerAddress phys offload E. unfold findBetterEndpoint.
    destruct (_hasAddressToLocationFunction _); [| done].
    destruct (addressToLocationFunction phys) as [[[px py] pz]|]; [| done].
    pose proof (scan_members now px py pz (removeMember m c) offload) as Hinv.
    destruct (fold_left _ _ _) as [[bd bm] best]. intros Hf.
    apply first_in_family_Some in Hf as [Hin _].
    destruct Hinv as [(_ & Hnil & _)|(M & HM & _ & _ & _ & He)]; simpl in *.
    { subst best. by apply elem_of_nil in Hin. }
    subst best. apply list_elem_of_filter in HM as [HMm HM]. by exists M.
  - intros fromPeer toPeer data unite. unfold sendViaCluster.
    destruct (16384 <? size data); [done |].
    change (_peerAffinities (removeMember m c)) with (_peerAffinities c).
    destruct (_peerAffinities c !! toPeer) as [pa|]; [| done].
    change (_id (removeMember m c)) with (_id c).
    destruct (_ && _); [| done].
    cbv zeta. cbn [fst snd]. f_equal.
    assert (forall i t b, _send i t b (removeMember m c) = removeMember m (_send i t b c))
      as Hsend.
    { intros i t b. unfold _send, _flush, removeMember.
      destruct (_ <? _); [done |]. cbn -[seal_frame open_q submessage map seq filter].
      destruct (_ <? _); [| done].
      destruct (_ <? _); done. }
    change (unite_request now fromPeer toPeer (removeMember m c))
      with (unite_request now fromPeer toPeer c).
    destruct (0 <? _); [rewrite Hsend |];
      change (_members (removeMember m ?x)) with (_members x);
      by destruct (zeroTierPhysicalEndpoints _).
Qed.

End RedirectorProperties.

(** ** Decoding up to a truncation *)

Section TruncationProperties.
Context `{Crypto} `{Overlay} `{!Codec} `{!Host}.

Lemma parse_loop_truncated from now dmsg msgs tail :
  Forall (fun tm => size tm.2 < 65535) msgs ->
  truncated tail ->
  forall pre fuel c,
    dmsg = pre ++ serialized msgs ++ tail ->
    size (serialized msgs) <= Z.of_nat fuel ->
    parse_loop fuel from now dmsg (size pre) c
    = dispatch_all from now dmsg (size pre) msgs c.
Proof.
  intros Hmsgs Htail.
  induction Hmsgs as [|[t p] msgs Hp _ IH]; intros pre fuel c Hd Hfuel.
  - cbn [dispatch_all]. destruct fuel as [|fuel]; [done |]. cbn [parse_loop].
    change (serialized []) with (@nil Z) in Hd. cbn [app] in Hd.
    destruct (size pre <? size dmsg) eqn:E; [| done].
    destruct Htail as [Hshort|(len & rest & -> & Hover)].
    + unfold Buffer_at16, Buffer_at, Buffer_field.
      replace (size pre + 2 <=? size dmsg) with false
        by (symmetry; apply Z.leb_gt; rewrite Hd, size_app; lia).
      by rewrite andb_false_r.
    + rewrite (Buffer_at16_at dmsg pre rest len) by done.
      replace (size dmsg <? size pre + 2 + len mod 65536) with true; [done |].
      symmetry. apply Z.ltb_lt. rewrite Hd, !size_app, size_be16. lia.
  - rewrite serialized_cons in Hd, Hfuel.
    rewrite size_app, size_submessage in Hfuel.
    pose proof (size_nonneg (serialized msgs)). pose proof (size_nonneg p).
    pose proof (size_nonneg tail).
    simpl in Hp.
    destruct fuel as [|fuel]; [lia |].
    assert (size dmsg = size pre + (size p + 3) + size (serialized msgs) + size tail) as Hsz
      by (subst dmsg; rewrite !size_app, size_submessage; lia).
    assert (Buffer_at16 dmsg (size pre) = Some (size p + 1)) as Hlen.
    { subst dmsg. unfold submessage. rewrite <- !app_assoc.
      rewrite Buffer_at16_middle. f_equal. apply Z.mod_small. lia. }
    cbn [parse_loop dispatch_all snd].
    replace (size pre <? size dmsg) with true by (symmetry; apply Z.ltb_lt; lia).
    rewrite Hlen.
    replace (size dmsg <? size pre + 2 + (size p + 1)) with false
      by (symmetry; apply Z.ltb_ge; lia).
    replace (size pre + 2 + (size p + 1)) with (size (pre ++ submessage t p))
      by (rewrite size_app, size_submessage; lia).
    replace (size pre + 3 + size p) with (size (pre ++ submessage t p))
      by (rewrite size_app, size_submessage; lia).
    apply IH.
    + subst dmsg. by rewrite <- !app_assoc.
    + lia.
Qed.

(** X18 — decoding stops at a truncation and keeps what came before.
    A frame accepted from member [a] that holds whole sub-messages
    followed by bytes that are no whole sub-message (fewer than the two
    bytes of a length, or a length that overruns the frame) is decoded
    as if those bytes were not there: every whole sub-message is
    dispatched, in order, and the rest is ignored. *)
Theorem decoding_stops_at_truncation (c : Cluster) (now a : Z) (f : list Z)
    (msgs : list (Z * list Z)) (tail : list Z) :
  unseal_frame (_key c) f
  = Some (be16 a ++ be16 (_id c) ++ serialized msgs ++ tail) ->
  0 <= a < 65536 ->
  0 <= _id c < 65536 ->
  a <> _id c ->
  a ∈ _memberIds c ->
  Forall (fun tm => size tm.2 < 65535) msgs ->
  truncated tail ->
  handleIncomingStateMessage now f c
  = dispatch_all a now (be16 a ++ be16 (_id c) ++ serialized msgs ++ tail) 4 msgs c.
Proof.
  intros Hu Ha Hid Hne Hin Hmsgs Htail.
  set (d := be16 a ++ be16 (_id c) ++ serialized msgs ++ tail) in *.
  rewrite (handle_accepts now f d a c Hu).
  - change 4 with (size (be16 a ++ be16 (_id c))).
    apply (parse_loop_truncated a now d msgs tail Hmsgs Htail).
    + unfold d. by rewrite <- app_assoc.
    + unfold d, size. rewrite !length_app. lia.
  - change (Buffer_at16 d 0)
      with (Buffer_at16 ([] ++ be16 a ++ be16 (_id c) ++ serialized msgs ++ tail)
              (size (@nil Z))).
    rewrite Buffer_at16_middle. f_equal. apply Z.mod_small. lia.
  - unfold d. change 2 with (size (be16 a)).
    rewrite Buffer_at16_middle. f_equal. apply Z.mod_small. lia.
  - done.
  - done.
Qed.

End TruncationProperties.

(** ** The announce block *)

Section AnnounceProperties.
Context `{Crypto} `{Overlay} `{!Codec} `{!Host}.

Lemma replicateHavePeer_owned now peerId physicalAddress c :
  owns now (replicateHavePeer now peerId physicalAddress c) (Identity_address peerId).
Proof.
  assert (_id (replicateHavePeer now peerId physicalAddress c) = _id c) as Hid
    by (by destruct (refresh_step_replicateHavePeer now peerId physicalAddress c)).
  unfold owns. rewrite Hid. unfold replicateHavePeer.
  assert (exists pa,
            _peerAffinities
              (send_to_all (type_code STATE_MESSAGE_HAVE_PEER)
                 (Identity_serialize peerId ++ InetAddress_serialize physicalAddress)
                 (with_peerAffinities
                    (<[Identity_address peerId := mk_PA now (_id c)]> (_peerAffinities c)) c))
              !! Identity_address peerId = Some pa
            /\ mid pa = _id c
            /\ u64_sub now (ts pa) < ZT_CLUSTER_HAVE_PEER_ANNOUNCE_PERIOD) as Hann.
  { exists (mk_PA now (_id c)).
    destruct (same_tables_send_to_all (type_code STATE_MESSAGE_HAVE_PEER)
                (Identity_serialize peerId ++ InetAddress_serialize physicalAddress)
                (with_peerAffinities
                   (<[Identity_address peerId := mk_PA now (_id c)]> (_peerAffinities c)) c))
      as (-> & _).
    cbn [_peerAffinities with_peerAffinities ts mid]. rewrite lookup_insert_eq.
    by rewrite u64_sub_diag. }
  destruct (_peerAffinities c !! Identity_address peerId) as [pa|] eqn:Hpa;
    cbn [owned_by negb from_option]; [| exact Hann].
  destruct (mid pa =? _id c) eqn:E; cbn [negb]; [| exact Hann].
  destruct (u64_sub now (ts pa) <? ZT_CLUSTER_HAVE_PEER_ANNOUNCE_PERIOD) eqn:E2;
    [| exact Hann].
  exists pa. apply Z.eqb_eq in E. apply Z.ltb_lt in E2. done.
Qed.

Lemma owns_refresh_step now c c' a : refresh_step now c c' -> owns now c a -> owns now c' a.
Proof.
  intros [Hid Hr] (pa & Hpa & Hmid & Hts). unfold owns. rewrite Hid.
  destruct (Hr a) as [E|E]; rewrite E.
  - by exists pa.
  - exists (mk_PA now (_id c)). cbn [ts mid]. by rewrite u64_sub_diag.
Qed.

Lemma refresh_step_announce_peer now c peer : refresh_step now c (announce_peer now c peer).
Proof.
  unfold announce_peer. destruct (Peer_getBestPath _ _ _);
    [apply refresh_step_replicateHavePeer | apply refresh_step_refl].
Qed.

Lemma announce_each_owns now (l : list Identity) c peer :
  peer ∈ l ->
  (forall evs, Peer_getBestPath evs (Identity_address peer) now <> None) ->
  owns now (fold_left (announce_peer now) l c) (Identity_address peer).
Proof.
  intros Hin Hpath. revert c. induction l as [|x l IH]; intros c.
  { by apply elem_of_nil in Hin. }
  simpl. apply elem_of_cons in Hin as [<-|Hin]; [| by apply IH].
  eapply owns_refresh_step.
  - apply (R_fold (refresh_step now) (refresh_step_refl now) (refresh_step_trans now)).
    intros c' peer'. apply refresh_step_announce_peer.
  - unfold announce_peer.
    destruct (Peer_getBestPath (events c) (Identity_address peer) now) as [p|] eqn:E;
      [apply replicateHavePeer_owned | by destruct (Hpath (events c))].
Qed.

(** X19 — the announce block claims what we hold.  When
    [doPeriodicTasks] finds the peer check due, then at the end of the
    call the affinity table names the local member as the owner of every
    peer of the topology that has a best path, by an entry refreshed
    less than an announce period ago; the flush block of the same call
    does not undo it. *)
Theorem periodic_announce_claims (c : Cluster) (now : Z) (peer : Identity) :
  ZT_CLUSTER_HAVE_PEER_ANNOUNCE_PERIOD / 4
  <= u64_sub now (_lastCheckedPeersForAnnounce c) ->
  peer ∈ Topology_eachPeer (events c) ->
  (forall evs, Peer_getBestPath evs (Identity_address peer) now <> None) ->
  exists pa,
    _peerAffinities (doPeriodicTasks now c) !! Identity_address peer = Some pa
    /\ mid pa = _id c
    /\ u64_sub now (ts pa) < ZT_CLUSTER_HAVE_PEER_ANNOUNCE_PERIOD.
Proof.
  intros Hdue Hin Hpath. unfold doPeriodicTasks.
  set (c1 := periodic_sweep now c).
  assert (events c1 = events c /\ _id c1 = _id c
          /\ _lastCheckedPeersForAnnounce c1 = _lastCheckedPeersForAnnounce c)
    as (He & Hid & Hlc)
    by (unfold c1, periodic_sweep; by destruct (_ <=? _)).
  assert (owns now (periodic_announce now c1) (Identity_address peer)) as Hown.
  { unfold periodic_announce. rewrite Hlc.
    replace (_ <=? _) with true by (symmetry; by apply Z.leb_le).
    apply announce_each_owns; [| done]. cbn [events with_lastCheckedPeersForAnnounce].
    by rewrite He. }
  assert (refresh_step now (periodic_announce now c1)
            (periodic_flush now (periodic_announce now c1))) as Hfl.
  { unfold periodic_flush. destruct (_ <=? _); [| apply refresh_step_refl].
    eapply refresh_step_trans;
      [| apply (R_fold (refresh_step now) (refresh_step_refl now) (refresh_step_trans now));
         intros c' m; apply same_affinities_flush_member].
    split; [done |]. intros P. by left. }
  destruct (owns_refresh_step _ _ _ _ Hfl Hown) as (pa & Hpa & Hmid & Hts).
  exists pa. split; [done |]. split; [| done].
  rewrite Hmid. destruct Hfl as [-> _].
  assert (_id (periodic_announce now c1) = _id c1) as ->; [| done].
  unfold periodic_announce. destruct (_ <=? _); [| done].
  by destruct (R_fold (refresh_step now) (refresh_step_refl now) (refresh_step_trans now)
                 (announce_peer now) (Topology_eachPeer (events c1))
                 (with_lastCheckedPeersForAnnounce now c1)
                 (fun c' p => refresh_step_announce_peer now c' p)) as [-> _].
Qed.

End AnnounceProperties.

(** ** The status surface *)

Lemma alter_unique_id (f : ZT_ClusterMemberStatus -> ZT_ClusterMemberStatus)
    (entries : list ZT_ClusterMemberStatus) (i : nat) (e : ZT_ClusterMemberStatus) :
  NoDup (map st_id entries) ->
  entries !! i = Some e ->
  alter f i entries
  = map (fun e' => if decide (st_id e' = st_id e) then f e' else e') entries.
Proof.
  revert i. induction entries as [|x entries IH]; intros i Hnd Hi; [done |].
  apply NoDup_cons in Hnd as [Hx Hnd].
  destruct i as [|i]; simpl in *.
  - injection Hi as ->. rewrite decide_True by done. f_equal.
    rewrite <- (map_id entries) at 1. apply map_ext_in. intros e' He'.
    rewrite decide_False; [done |]. intros Heq. apply Hx. rewrite <- Heq.
    apply list_elem_of_In in He'. by apply (list_elem_of_fmap_2 st_id).
  - rewrite decide_False.
    + f_equal. by apply IH.
    + intros Heq. apply Hx. rewrite Heq.
      apply list_elem_of_fmap_2. by eapply list_elem_of_lookup_2.
Qed.

Lemma with_peers_same (e : ZT_ClusterMemberStatus) : with_peers (st_peers e) e = e.
Proof. by destruct e. Qed.

Section StatusProperties.
Context `{Crypto} `{Overlay} `{!Codec} `{!Host} `{!StatusHost}.

Lemma status_members_spec now c (ids : list Z) :
  forall entries ms,
    ms_ok entries ms ->
    NoDup ids ->
    (forall m, m ∈ ids -> in_bounds m = true /\ m ∉ map st_id entries) ->
    size entries + size ids <= ZT_CLUSTER_MAX_MEMBERS ->
    exists ms',
      status_members now c ids entries ms
      = Some (entries ++ map (member_status now c) ids, ms')
      /\ ms_ok (entries ++ map (member_status now c) ids) ms'.
Proof.
  induction ids as [|x ids IH]; intros entries ms Hok Hnd Hids Hsz.
  { exists ms. simpl. by rewrite app_nil_r. }
  apply NoDup_cons in Hnd as [Hx Hnd].
  destruct (Hids x (list_elem_of_here _ _)) as [Hb Hfresh].
  assert (size (x :: ids) = 1 + size ids) as Hs by (unfold size; simpl; lia).
  pose proof (size_nonneg ids).
  cbn [status_members].
  replace (ZT_CLUSTER_MAX_MEMBERS <=? size entries) with false
    by (symmetry; apply Z.leb_gt; lia).
  rewrite Hb.
  destruct (IH (entries ++ [member_status now c x]) (<[x := length entries]> ms))
    as (ms' & He & Hok'); try done.
  - destruct Hok as [Hnd0 Hms]. split.
    + rewrite map_app. apply NoDup_app. split; [done |]. split; [| apply NoDup_singleton].
      intros y Hy Hy'. apply list_elem_of_singleton in Hy'. simpl in Hy'. by subst y.
    + intros m i. destruct (decide (m = x)) as [->|Hne].
      * rewrite lookup_insert_eq. split.
        -- intros [= <-]. by rewrite lookup_app_r, Nat.sub_diag by lia.
        -- intros Hi. f_equal.
           destruct (decide (i < length entries)%nat) as [Hlt|Hge].
           ++ rewrite lookup_app_l in Hi by done.
              destruct (entries !! i) as [e|] eqn:Ee; [| done].
              simpl in Hi. injection Hi as Hi. exfalso. apply Hfresh. rewrite <- Hi.
              apply list_elem_of_fmap_2. by eapply list_elem_of_lookup_2.
           ++ rewrite lookup_app_r in Hi by lia.
              destruct (i - length entries)%nat as [|k] eqn:Ek; [lia | done].
      * rewrite lookup_insert_ne by done. rewrite Hms. split.
        -- intros Hi. destruct (entries !! i) as [e|] eqn:Ee; [| done].
           by rewrite (lookup_app_l_Some _ _ _ _ Ee).
        -- intros Hi. destruct (decide (i < length entries)%nat) as [Hlt|Hge].
           ++ by rewrite lookup_app_l in Hi.
           ++ rewrite lookup_app_r in Hi by lia.
              destruct (i - length entries)%nat as [|k]; simpl in Hi; [congruence | done].
  - intros m Hm. destruct (Hids m (list_elem_of_further _ _ _ Hm)) as [Hbm Hfm].
    split; [done |]. rewrite map_app. intros Hin. apply elem_of_app in Hin as [Hin|Hin].
    + done.
    + apply list_elem_of_singleton in Hin. simpl in Hin. subst m. done.
  - rewrite size_app. change (size [member_status now c x]) with 1. lia.
  - exists ms'. rewrite <- app_assoc in He, Hok'. done.
Qed.

Lemma peer_count_with_peers now c vs n e :
  peer_count now c vs (with_peers n e) = peer_count now c vs e.
Proof. done. Qed.

Lemma peer_count_cons now c v vs e :
  peer_count now c (v :: vs) e
  = (if decide (mid v = st_id e /\ st_id e <> _id c
                /\ u64_sub now (ts v) < ZT_PEER_ACTIVITY_TIMEOUT) then 1 else 0)
    + peer_count now c vs e.
Proof.
  unfold peer_count. rewrite filter_cons. destruct (decide _); [| lia].
  unfold size. simpl. lia.
Qed.

Lemma ms_ok_ids entries entries' ms :
  map st_id entries' = map st_id entries -> ms_ok entries ms -> ms_ok entries' ms.
Proof.
  intros Hids [Hnd Hms]. split; [by rewrite Hids |].
  intros m i. rewrite Hms, <- !list_lookup_fmap.
  change (st_id <$> entries') with (map st_id entries').
  change (st_id <$> entries) with (map st_id entries). by rewrite Hids.
Qed.

Lemma count_peers_spec now c ms (vs : list _PA) :
  forall entries,
    ms_ok entries ms ->
    (forall v, v ∈ vs -> in_bounds (mid v) = true) ->
    fold_left (count_peer now c ms) vs (Some entries)
    = Some (map (fun e => with_peers (st_peers e + peer_count now c vs e) e) entries).
Proof.
  induction vs as [|v vs IH]; intros entries Hok Hb.
  { simpl. f_equal. rewrite <- (map_id entries) at 1. apply map_ext.
    intros e. unfold peer_count. simpl. change (size []) with 0.
    by rewrite Z.add_0_r, with_peers_same. }
  cbn [fold_left].
  assert (count_peer now c ms (Some entries) v
          = Some (map (fun e =>
                         if decide (mid v = st_id e /\ st_id e <> _id c
                                    /\ u64_sub now (ts v) < ZT_PEER_ACTIVITY_TIMEOUT)
                         then with_peers (st_peers e + 1) e else e) entries)) as ->.
  { unfold count_peer. rewrite (Hb v (list_elem_of_here _ _)).
    destruct Hok as [Hnd Hms].
    destruct (ms !! mid v) as [i|] eqn:Ei.
    - apply Hms in Ei. destruct (entries !! i) as [e|] eqn:Ee; [| done].
      simpl in Ei. injection Ei as Ei.
      destruct (negb (mid v =? _id c)) eqn:E1;
        [destruct (u64_sub now (ts v) <? ZT_PEER_ACTIVITY_TIMEOUT) eqn:E2 |]; cbn [andb].
      + rewrite (alter_unique_id _ entries i e Hnd Ee). f_equal. apply map_ext.
        intros e'. apply negb_true_iff, Z.eqb_neq in E1. apply Z.ltb_lt in E2.
        destruct (decide (st_id e' = st_id e)) as [D|D].
        * rewrite decide_True; [done |]. rewrite D, Ei. done.
        * rewrite decide_False; [done |]. intros (D' & _). apply D. congruence.
      + f_equal. rewrite <- (map_id entries) at 1. apply map_ext. intros e'.
        apply Z.ltb_ge in E2. rewrite decide_False; [done |]. intros (_ & _ & ?). lia.
      + f_equal. rewrite <- (map_id entries) at 1. apply map_ext. intros e'.
        apply negb_false_iff, Z.eqb_eq in E1. rewrite decide_False; [done |].
        intros (D1 & D2 & _). congruence.
    - f_equal. rewrite <- (map_id entries) at 1. apply map_ext_in. intros e' He'.
      rewrite decide_False; [done |]. intros (D & _).
      apply list_elem_of_In, list_elem_of_lookup in He' as [i Hi].
      assert (ms !! mid v = Some i) as Hsome by (apply Hms; by rewrite Hi, D).
      congruence. }
  rewrite IH.
  - f_equal. rewrite map_map. apply map_ext. intros e.
    rewrite peer_count_cons. destruct (decide _).
    + rewrite peer_count_with_peers. destruct e. unfold with_peers. cbn [st_peers st_id].
      f_equal; lia.
    + destruct e. unfold with_peers. cbn [st_peers st_id]. f_equal; lia.
  - eapply ms_ok_ids; [| exact Hok]. rewrite map_map. apply map_ext.
    intros e. by destruct (decide _).
  - intros v' Hv'. apply Hb. by apply list_elem_of_further.
Qed.

End StatusProperties.

Section StatusTheorems.
Context `{Crypto} `{Overlay} `{!Codec} `{!Host} `{!StatusHost}.

Lemma reachable_cluster_inv c : reachable c -> cluster_inv c.
Proof.
  induction 1 as [id eps x y z loc|c c' _ IH Hstep]; [apply cluster_inv_new |].
  destruct (frame_step_interface c c' Hstep) as [(m & Hm & ->)|[(m & ->)|Hf]].
  - by apply cluster_inv_addMember.
  - by apply cluster_inv_removeMember.
  - by eapply cluster_inv_frame_step.
Qed.

(** Distinct ids below the bound, none of them the local id, itself
    below the bound: fewer than the bound. *)
Lemma member_count_bound c :
  wf_members c -> 0 <= _id c < ZT_CLUSTER_MAX_MEMBERS ->
  size (_memberIds c) < ZT_CLUSTER_MAX_MEMBERS.
Proof.
  intros [Hs Hb] Hid.
  assert (NoDup (_id c :: _memberIds c)) as Hnd.
  { apply NoDup_cons. split; [| by apply StronglySorted_lt_NoDup].
    intros Hin. by apply (proj1 (Forall_forall _ _) Hb) in Hin as [_ ?]. }
  assert (_id c :: _memberIds c ⊆+ seqZ 0 ZT_CLUSTER_MAX_MEMBERS) as Hsub.
  { apply NoDup_submseteq; [done |]. intros x Hx. apply elem_of_seqZ.
    apply elem_of_cons in Hx as [->|Hx]; [lia |].
    apply (proj1 (Forall_forall _ _) Hb) in Hx as [? _]. lia. }
  apply submseteq_length in Hsub. rewrite length_seqZ in Hsub.
  unfold size. simpl in Hsub. unfold ZT_CLUSTER_MAX_MEMBERS in *. lia.
Qed.

Lemma status_exact now c :
  cluster_inv c ->
  0 <= _id c < ZT_CLUSTER_MAX_MEMBERS ->
  status now c
  = Some (mkStatus (_id c)
            (map (fun e => with_peers
                             (st_peers e
                              + peer_count now c (map_to_list (_peerAffinities c)).*2 e) e)
               (self_status c :: map (member_status now c) (_memberIds c)))).
Proof.
  intros (Hwf & _ & _ & _ & _ & Hown) Hid.
  pose proof (member_count_bound c Hwf Hid) as Hcount.
  destruct Hwf as [Hs Hb].
  assert (in_bounds (_id c) = true) as Hbid
    by (unfold in_bounds; apply andb_true_iff; split; [apply Z.leb_le | apply Z.ltb_lt]; lia).
  unfold status. rewrite Hbid.
  destruct (status_members_spec now c (_memberIds c) [self_status c] {[_id c := 0%nat]})
    as (ms & -> & Hok).
  - split; [apply NoDup_singleton |]. intros m i.
    rewrite lookup_singleton_Some. destruct i as [|i]; simpl; [| by split; [intros [_ ?] |]].
    split; [by intros [-> _] | by intros [= ->]].
  - by apply StronglySorted_lt_NoDup.
  - intros m Hm. apply (proj1 (Forall_forall _ _) Hb) in Hm as [Hm Hne]. split.
    + unfold in_bounds. apply andb_true_iff. split; [apply Z.leb_le | apply Z.ltb_lt]; lia.
    + simpl. intros Hin. apply list_elem_of_singleton in Hin. done.
  - change (size [self_status c]) with 1. lia.
  - rewrite count_peers_spec; [done | done |].
    intros v Hv. apply list_elem_of_fmap in Hv as ([P v'] & -> & Hv).
    apply elem_of_map_to_list in Hv. simpl.
    unfold in_bounds. apply andb_true_iff.
    destruct (Hown P v' Hv) as [->|?]; split; (apply Z.leb_le || apply Z.ltb_lt); lia.
Qed.

Lemma peer_count_self now c vs : peer_count now c vs (self_status c) = 0.
Proof.
  unfold peer_count. induction vs as [|v vs IH]; [done |].
  rewrite filter_cons. destruct (decide _) as [(_ & Hne & _)|]; [| done].
  by destruct Hne.
Qed.

Lemma peer_count_member now c m :
  m <> _id c ->
  peer_count now c (map_to_list (_peerAffinities c)).*2 (member_status now c m)
  = size (owned_fresh now c m).
Proof.
  intros Hne. unfold peer_count, owned_fresh. f_equal.
  apply list_filter_iff. intros v. cbn [st_id member_status]. tauto.
Qed.

(** X20 — [status] stays inside its arrays.  In every reachable state
    whose local id is below [ZT_CLUSTER_MAX_MEMBERS], [status] indexes
    [ms] and [_members] inside their bounds, at the local id, at every
    member id and at every owner named by the affinity table; it reports
    the local id, then one record per member id in the order of
    [_memberIds], and the sanity check on [clusterSize] never cuts the
    list short. *)
Theorem status_defined (c : Cluster) (now : Z) :
  reachable c ->
  0 <= _id c < ZT_CLUSTER_MAX_MEMBERS ->
  exists st,
    status now c = Some st
    /\ myId st = _id c
    /\ map st_id (members st) = _id c :: _memberIds c
    /\ size (members st) <= ZT_CLUSTER_MAX_MEMBERS.
Proof.
  intros Hr Hid. pose proof (reachable_cluster_inv c Hr) as Hinv.
  pose proof (member_count_bound c (proj1 Hinv) Hid) as Hcount.
  eexists. split; [by apply status_exact |]. cbn [myId members].
  split; [done |]. split.
  - rewrite map_map. cbn [map]. f_equal.
    rewrite map_map. rewrite <- (map_id (_memberIds c)) at 2. by apply map_ext.
  - unfold size in *. rewrite length_map. simpl. rewrite length_map. lia.
Qed.

(** X21 — what [status] reports.  In a reachable state, when [status]
    returns: the first record is the local member's, alive, with the
    count of active peers of the topology; the record after it at
    position [k] is that of the [k]-th member id, with the location,
    load and first endpoints of its member record, the time since its
    last heartbeat capped at [2^32 - 1], alive exactly when that time is
    below [ZT_CLUSTER_TIMEOUT], and a peer count equal to the number of
    affinity entries that name it as owner and are not stale; and every
    member the redirector would consider at that time is reported
    alive. *)
Theorem status_records (c : Cluster) (now : Z) (st : ZT_ClusterStatus) :
  reachable c ->
  status now c = Some st ->
  members st !! 0%nat = Some (self_status c)
  /\ forall k m, _memberIds c !! k = Some m ->
       members st !! S k
       = Some (with_peers (size (owned_fresh now c m)) (member_status now c m))
       /\ (st_alive (member_status now c m) = 1
           <-> u64_sub now (lastReceivedAliveAnnouncement (_members c m))
               < ZT_CLUSTER_TIMEOUT)
       /\ (considered now (_members c m) = true -> st_alive (member_status now c m) = 1).
Proof.
  intros Hr Hst. pose proof (reachable_cluster_inv c Hr) as Hinv.
  assert (0 <= _id c < ZT_CLUSTER_MAX_MEMBERS) as Hid.
  { unfold status in Hst. destruct (in_bounds (_id c)) eqn:E; [| done].
    unfold in_bounds in E. apply andb_true_iff in E as [E1 E2].
    apply Z.leb_le in E1. apply Z.ltb_lt in E2. lia. }
  rewrite (status_exact now c Hinv Hid) in Hst. injection Hst as <-.
  cbn [members map]. split.
  { rewrite peer_count_self. unfold self_status, with_peers. cbn. by rewrite Z.add_0_r. }
  intros k m Hk.
  assert (m <> _id c) as Hne.
  { destruct Hinv as ((_ & Hb) & _).
    apply list_elem_of_lookup_2 in Hk.
    by apply (proj1 (Forall_forall _ _) Hb) in Hk as [_ ?]. }
  assert (st_alive (member_status now c m) = 1
          <-> u64_sub now (lastReceivedAliveAnnouncement (_members c m))
              < ZT_CLUSTER_TIMEOUT) as Halive.
  { cbn [st_alive member_status]. unfold ZT_CLUSTER_TIMEOUT.
    destruct (Z.min (2 ^ 32 - 1) _ <? 30000) eqn:E.
    - apply Z.ltb_lt in E. split; [intros _ | done]. lia.
    - apply Z.ltb_ge in E. split; [done | intros ?]. lia. }
  split_and!.
  - change ((?x :: ?l) !! S k) with (l !! k). rewrite map_map.
    change (map ?f ?l) with (f <$> l). rewrite list_lookup_fmap, Hk. simpl.
    by rewrite peer_count_member.
  - exact Halive.
  - intros Hc. apply Halive. unfold considered in Hc.
    apply andb_true_iff in Hc as [Hc _]. apply andb_true_iff in Hc as [Hc _].
    by apply Z.ltb_lt in Hc.
Qed.

End StatusTheorems.

Section StatusWalk.
Context `{Crypto} `{Overlay} `{!Codec} `{!Host} `{!StatusHost}.



End StatusWalk.

(** ** Two members on one identity *)

Section PairProperties.
Context `{Crypto} `{Overlay} `{!Codec} `{!Host}.

(** X23 — two members agree on the key of a link.  For two objects
    built on the same identity and used in any way, the key the first
    holds for the second, once it has added it as a member, is the
    inbound key of the second; and whenever the first has something
    pending for the second, what [_flush] sends unseals under the
    second's inbound key to the two ids, in the order the second's
    handler checks them, followed by what was pending. *)
Theorem link_keys_agree (cA cB : Cluster) :
  reachable cA ->
  reachable cB ->
  _id cB ∈ _memberIds cA ->
  key (_members cA (_id cB)) = _key cB
  /\ (28 < size (q (_members cA (_id cB))) ->
      exists f,
        events (_flush (_id cB) cA) = events cA ++ [EvSendFunction (_id cB) f]
        /\ unseal_frame (_key cB) f
           = Some (be16 (_id cA) ++ be16 (_id cB)
                   ++ drop 28 (q (_members cA (_id cB))))).
Proof.
  intros HA HB Hin.
  destruct (reachable_cluster_inv cA HA) as (_ & A2 & _ & A4 & A5 & _).
  destruct (reachable_cluster_inv cB HB) as (_ & B2 & B3 & _).
  assert (key (_members cA (_id cB)) = _key cB) as Hk
    by (rewrite A4, B3, A2, B2 by done; done).
  split; [exact Hk |]. intros Hpending.
  destruct (A5 (_id cB) (or_introl Hin)) as (iv & pending & Hiv & Hq & Hmax).
  exists (seal_frame (key (_members cA (_id cB))) (q (_members cA (_id cB)))).
  split; [by apply _flush_events |].
  rewrite <- Hk, unseal_seal by lia.
  by rewrite Hq, open_q_drop24, open_q_drop28.
Qed.

End PairProperties.

(** * Further scenarios *)

Section CoverageChecks.
#[local] Existing Instance test_crypto.
#[local] Existing Instance test_overlay.
#[local] Existing Instance test_codec.
#[local] Existing Instance test_host.

Lemma cluster_A_ids : _memberIds cluster_A = [2; 5].
Proof. vm_compute. reflexivity. Qed.

Lemma cluster_A_wf : wf_members cluster_A.
Proof.
  unfold wf_members. rewrite cluster_A_ids.
  change (_id cluster_A) with 1. unfold ZT_CLUSTER_MAX_MEMBERS.
  split; repeat constructor; lia.
Defined.

Lemma cluster_A_queue_ok m : m = 2 \/ m = 5 -> queue_ok cluster_A m.
Proof.
  intros [->| ->].
  - exists (map Z.of_nat (seq 0 16)), []. split_and!.
    + reflexivity.
    + vm_compute. reflexivity.
    + vm_compute. discriminate.
  - exists (map Z.of_nat (seq 17 16)), []. split_and!.
    + reflexivity.
    + vm_compute. reflexivity.
    + vm_compute. discriminate.
Defined.

(** X1 on two sub-messages queued for member 2. *)
Lemma enqueue_flush_stream_witness :
  let msgs := [(3, like_body); (2, [9])] in
  exists fs,
    frames_to 2 (events (_flush 2 (enqueue_all 2 msgs cluster_A)))
    = frames_to 2 (events cluster_A) ++ fs
    /\ concat (map (frame_body (key (_members cluster_A 2))) fs)
       = drop 28 (q (_members cluster_A 2))
         ++ serialized (filter (fun tm => fits tm.2) msgs).
Proof.
  intros msgs.
  destruct (enqueue_flush_stream cluster_A 2 msgs (cluster_A_queue_ok 2 (or_introl eq_refl)))
    as (fs & F & _ & S & _).
  exists fs. split; [exact F | exact S].
Defined.

Lemma cluster_A_not_7 : 7 ∉ _memberIds cluster_A.
Proof.
  rewrite cluster_A_ids. intros Hin.
  apply elem_of_cons in Hin as [Hin|Hin]; [discriminate |].
  apply elem_of_cons in Hin as [Hin|Hin]; [discriminate |].
  by apply elem_of_nil in Hin.
Defined.

(** X2 on a MULTICAST_LIKE broadcast to members 2 and 5. *)
Lemma broadcast_once_witness :
  (exists fs,
     frames_to 2 (events (send_to_all 3 like_body cluster_A))
     = frames_to 2 (events cluster_A) ++ fs
     /\ concat (map (frame_body (key (_members cluster_A 2))) fs)
        ++ drop 28 (q (_members (send_to_all 3 like_body cluster_A) 2))
        = drop 28 (q (_members cluster_A 2)) ++ submessage 3 like_body)
  /\ _members (send_to_all 3 like_body cluster_A) 7 = _members cluster_A 7.
Proof.
  assert (NoDup (_memberIds cluster_A)) as Hnd
    by (apply StronglySorted_lt_NoDup, cluster_A_wf).
  assert (fits like_body = true) as Hfit by (vm_compute; reflexivity).
  assert (2 ∈ _memberIds cluster_A) as Hin
    by (rewrite cluster_A_ids; apply list_elem_of_here).
  destruct (broadcast_once cluster_A 3 like_body Hnd Hfit) as [Hm Ho].
  split.
  - destruct (Hm 2 Hin (cluster_A_queue_ok 2 (or_introl eq_refl))) as (fs & F & S & _).
    exists fs. split; [exact F | exact S].
  - exact (Ho 7 cluster_A_not_7).
Defined.

(** X3: adding member 7 to members 2 and 5. *)
Lemma member_ids_kept_witness :
  wf_members (addMember 7 cluster_A) /\ wf_members (removeMember 7 cluster_A).
Proof.
  assert (0 <= 7) as Hm by lia.
  destruct (member_ids_kept cluster_A 7 cluster_A_wf Hm) as (Ha & _ & Hr & _).
  split; [exact Ha | exact Hr].
Defined.

(** X4: the link opened by adding member 7. *)
Lemma addMember_opens_link_witness :
  queue_ok (addMember 7 cluster_A) 7
  /\ key (_members (addMember 7 cluster_A) 7) = derive_key (_masterSecret cluster_A) 7.
Proof.
  assert (7 < ZT_CLUSTER_MAX_MEMBERS) as Hlt by (vm_compute; reflexivity).
  assert (7 <> _id cluster_A) as Hne by (vm_compute; discriminate).
  destruct (addMember_opens_link cluster_A 7 Hlt Hne cluster_A_not_7) as (Hq & _ & Hk & _).
  split; [exact Hq | exact Hk].
Defined.

Lemma cluster_A_id : _id cluster_A = 1.
Proof. reflexivity. Qed.

Lemma cluster_A_link_2 :
  length (map Z.of_nat (seq 0 16)) = 16%nat
  /\ q (_members cluster_A 2) = open_q (map Z.of_nat (seq 0 16)) (_id cluster_A) 2
  /\ _key cluster_B = key (_members cluster_A 2)
  /\ _id cluster_B = 2
  /\ 0 <= 2 < 65536
  /\ 0 <= _id cluster_A < 65536
  /\ _id cluster_A <> 2
  /\ _id cluster_A ∈ _memberIds cluster_B
  /\ NoDup (_memberIds cluster_A)
  /\ 2 ∈ _memberIds cluster_A.
Proof.
  split_and!.
  - reflexivity.
  - vm_compute. reflexivity.
  - vm_compute. reflexivity.
  - reflexivity.
  - lia.
  - lia.
  - rewrite cluster_A_id. lia.
  - rewrite cluster_A_id. lia.
  - rewrite cluster_A_id. discriminate.
  - vm_compute. apply list_elem_of_here.
  - apply StronglySorted_lt_NoDup, cluster_A_wf.
  - rewrite cluster_A_ids. apply list_elem_of_here.
Defined.

(** X5 on two sub-messages sent from member 1 to member 2. *)
Lemma link_delivery_witness :
  let msgs := [(3, like_body); (2, [9])] in
  exists f,
    events (_flush 2 (enqueue_all 2 msgs cluster_A))
    = events cluster_A ++ [EvSendFunction 2 f]
    /\ handleIncomingStateMessage 1000 f cluster_B
       = dispatch_all (_id cluster_A) 1000
           (be16 (_id cluster_A) ++ be16 2 ++ serialized msgs) 4 msgs cluster_B.
Proof.
  intros msgs.
  destruct cluster_A_link_2 as (Hiv & Hq & Hkey & Hid & Hb & Ha & Hab & Hin & _).
  assert (msgs <> []) as Hne by discriminate.
  assert (28 + serialized_size msgs <= ZT_CLUSTER_MAX_MESSAGE_LENGTH) as Hsz
    by (vm_compute; discriminate).
  exact (link_delivery cluster_A cluster_B 2 _ msgs 1000
           Hiv Hq Hne Hsz Hkey Hid Hb Ha Hab Hin).
Defined.

(** X6: member 1 replicates a subscription, member 2 records it. *)
Lemma multicast_like_delivery_witness :
  exists f,
    frames_to 2 (events (_flush 2 (replicateMulticastLike 0x1122334455667788 peer_P
                                     0x010203040506 0xAABBCCDD cluster_A)))
    = frames_to 2 (events cluster_A) ++ [f]
    /\ handleIncomingStateMessage 1000 f cluster_B
       = emit (EvMulticastAdd 1000 (0x1122334455667788 mod 2 ^ 64)
                 (0x010203040506 mod 2 ^ 48) (0xAABBCCDD mod 2 ^ 32) (peer_P mod 2 ^ 40))
           cluster_B.
Proof.
  destruct cluster_A_link_2 as (Hiv & Hq & Hkey & Hid & Hb & Ha & Hab & Hin & Hnd & H2).
  exact (multicast_like_delivery cluster_A cluster_B 2 _ 0x1122334455667788 peer_P
           0x010203040506 0xAABBCCDD 1000 Hnd H2 Hiv Hq Hkey Hid Hb Ha Hab Hin).
Defined.

(** X7: a certificate of three bytes reaches member 2 and changes
    nothing there. *)
Lemma com_delivery_inert_witness :
  exists f,
    frames_to 2 (events (_flush 2 (replicateCertificateOfNetworkMembership [7; 8; 9]
                                     cluster_A)))
    = frames_to 2 (events cluster_A) ++ [f]
    /\ handleIncomingStateMessage 1000 f cluster_B = cluster_B.
Proof.
  destruct cluster_A_link_2 as (Hiv & Hq & Hkey & Hid & Hb & Ha & Hab & Hin & Hnd & H2).
  assert (fits [7; 8; 9] = true) as Hfit by reflexivity.
  destruct (com_delivery_inert cluster_A cluster_B 2 _ [7; 8; 9] 1000
              Hnd H2 Hiv Hq Hfit Hkey Hid Hb Ha Hab Hin) as (f & Hf & _ & Hh).
  exists f. split; [exact Hf | exact Hh].
Defined.

Lemma test_Identity_round_trip (id : Z) : 0 <= id < 2 ^ 40 -> Identity_round_trip id.
Proof.
  intros Hid pre post. cbn [Identity_deserialize Identity_serialize test_codec].
  rewrite (Buffer_field_at _ pre (be_bytes 5 id) post) by (done || by rewrite size_be_bytes).
  rewrite be_decode_be_bytes, size_be_bytes. change (256 ^ Z.of_nat 5) with (2 ^ 40).
  by rewrite Z.mod_small.
Defined.

Lemma test_InetAddress_round_trip (a b c d port : Z) :
  0 <= port < 65536 -> InetAddress_round_trip (endpoint_v4 a b c d port).
Proof.
  intros Hp pre post. cbn [InetAddress_deserialize InetAddress_serialize test_codec].
  unfold test_InetAddress_deserialize, test_InetAddress_serialize, endpoint_v4.
  cbn [ss_family rawIpData ia_port]. change (AF_INET =? AF_INET) with true. cbv iota.
  rewrite (Buffer_index_at _ pre ([a; b; c; d] ++ be16 port ++ post) 4)
    by (done || by rewrite <- !app_assoc).
  change (4 mod 256 =? 0) with false. change (4 mod 256 =? 4) with true. cbv iota.
  rewrite (Buffer_field_at _ (pre ++ [4]) [a; b; c; d] (be16 port ++ post));
    [| by rewrite <- !app_assoc | by rewrite size_app | done].
  rewrite (Buffer_at16_at _ (pre ++ [4] ++ [a; b; c; d]) post port);
    [| by rewrite <- !app_assoc | rewrite !size_app; change (size [4]) with 1;
       change (size [a; b; c; d]) with 4; lia].
  rewrite Z.mod_small by lia. done.
Defined.

(** X8: member 1 takes over peer [0102030405]; member 2 learns it. *)
Lemma have_peer_delivery_witness :
  exists f,
    frames_to 2 (events (_flush 2 (replicateHavePeer 2000 peer_P peer_phys cluster_A)))
    = frames_to 2 (events cluster_A) ++ [f]
    /\ _peerAffinities (handleIncomingStateMessage 2500 f cluster_B) !! peer_P
       = Some (mk_PA 2500 1).
Proof.
  destruct cluster_A_link_2 as (Hiv & Hq & Hkey & Hid & Hb & Ha & Hab & Hin & Hnd & H2).
  assert (Identity_round_trip peer_P) as Hrid
    by (apply test_Identity_round_trip; vm_compute; split; [discriminate | reflexivity]).
  assert (InetAddress_round_trip peer_phys) as Hrpa
    by (apply test_InetAddress_round_trip; lia).
  assert (Identity_bool peer_P = true) as Hv by reflexivity.
  assert (fits (Identity_serialize peer_P ++ InetAddress_serialize peer_phys) = true)
    as Hfit by (vm_compute; reflexivity).
  assert (owned_by (_id cluster_A) (_peerAffinities cluster_A !! Identity_address peer_P)
          = false) as Hown by (vm_compute; reflexivity).
  destruct (have_peer_delivery cluster_A cluster_B 2 _ peer_P peer_phys 2000 2500
              Hnd H2 Hiv Hq Hrid Hrpa Hv Hfit Hown Hkey Hid Hb Ha Hab Hin)
    as (f & Hf & _ & Hh).
  exists f. split; [exact Hf |]. rewrite Hh.
  cbn [_peerAffinities with_peerAffinities]. apply lookup_insert_eq.
Defined.

(** X9: the heartbeat of member 1 as member 2 records it. *)
Lemma heartbeat_delivery_witness :
  exists f,
    events (flush_member 20000 cluster_A 2) = events cluster_A ++ [EvSendFunction 2 f]
    /\ zeroTierPhysicalEndpoints
         (_members (handleIncomingStateMessage 20500 f cluster_B) 1)
       = [endpoint_v4 192 0 2 1 9993]
    /\ lastReceivedAliveAnnouncement
         (_members (handleIncomingStateMessage 20500 f cluster_B) 1) = 20500.
Proof.
  destruct cluster_A_link_2 as (Hiv & Hq & Hkey & Hid & Hb & Ha & Hab & Hin & _).
  assert (ZT_CLUSTER_TIMEOUT / 2 - 1000
          <= u64_sub 20000 (lastAnnouncedAliveTo (_members cluster_A 2))) as Hdue
    by (vm_compute; discriminate).
  assert (Forall InetAddress_round_trip (_zeroTierPhysicalEndpoints cluster_A)) as Hrt.
  { change (_zeroTierPhysicalEndpoints cluster_A) with [endpoint_v4 192 0 2 1 9993].
    constructor; [apply test_InetAddress_round_trip; lia | constructor]. }
  assert (size (_zeroTierPhysicalEndpoints cluster_A) < 256) as Hn by reflexivity.
  assert (size (alive_message 20000 cluster_A) <= 2048) as Hsz
    by (vm_compute; discriminate).
  assert (- 2 ^ 31 <= _x cluster_A < 2 ^ 31) as Hx by (vm_compute; split; [discriminate | reflexivity]).
  assert (- 2 ^ 31 <= _y cluster_A < 2 ^ 31) as Hy by (vm_compute; split; [discriminate | reflexivity]).
  assert (- 2 ^ 31 <= _z cluster_A < 2 ^ 31) as Hz by (vm_compute; split; [discriminate | reflexivity]).
  destruct (heartbeat_delivery cluster_A cluster_B 2 _ 20000 20500
              Hiv Hq Hdue Hrt Hn Hsz Hx Hy Hz Hkey Hid Hb Ha Hab Hin)
    as (f & Hf & _ & Hw & _).
  exists f. split; [exact Hf |]. rewrite cluster_A_id in Hw. by rewrite Hw.
Defined.


(** X13: the invariant on member 1 with members 2 and 5. *)
Lemma cluster_inv_reachable_witness :
  _key cluster_A = derive_key identity_sha512PrivateKey (_id cluster_A)
  /\ key (_members cluster_A 2) = derive_key identity_sha512PrivateKey 2.
Proof.
  assert (reachable cluster_A) as Hr.
  { unfold cluster_A.
    apply reachable_step with (addMember 2 (Cluster_new 1 [endpoint_v4 192 0 2 1 9993] 0 0 0 true)).
    - apply reachable_step with (Cluster_new 1 [endpoint_v4 192 0 2 1 9993] 0 0 0 true).
      + apply reachable_new.
      + apply step_addMember. lia.
    - apply step_addMember. lia. }
  destruct (cluster_inv_reachable cluster_A Hr) as (_ & Hk & Hm & _).
  split; [exact Hk |]. apply Hm. rewrite cluster_A_ids. apply list_elem_of_here.
Defined.


(** X16 on scenario S6: the answer is the first IPv4 endpoint of a
    nearest member. *)
Lemma findBetterEndpoint_nearest_witness :
  exists M,
    M ∈ _memberIds (cluster_geo 100 (endpoint_v4 203 0 113 5 9993))
    /\ findBetterEndpoint 2000 peer_P peer_phys false
         (cluster_geo 100 (endpoint_v4 203 0 113 5 9993))
       = first_in_family (ss_family peer_phys)
           (zeroTierPhysicalEndpoints
              (_members (cluster_geo 100 (endpoint_v4 203 0 113 5 9993)) M)).
Proof.
  assert (_hasAddressToLocationFunction (cluster_geo 100 (endpoint_v4 203 0 113 5 9993))
          = true) as Hloc by reflexivity.
  assert (addressToLocationFunction peer_phys = Some (200, 0, 0)) as Hpt by reflexivity.
  assert (exists M,
            M ∈ _memberIds (cluster_geo 100 (endpoint_v4 203 0 113 5 9993))
            /\ beats 2000 200 0 0 (cluster_geo 100 (endpoint_v4 203 0 113 5 9993))
                 (baseline false (cluster_geo 100 (endpoint_v4 203 0 113 5 9993)) 200 0 0)
                 M) as Hsome.
  { exists 5. split; [vm_compute; apply list_elem_of_further, list_elem_of_here |].
    split; vm_compute; reflexivity. }
  pose proof (proj2 (findBetterEndpoint_nearest
                       (cluster_geo 100 (endpoint_v4 203 0 113 5 9993))
                       2000 peer_P peer_phys false 200 0 0 Hloc Hpt) Hsome) as Hthm.
  destruct Hthm as (M & HM & _ & _ & Hans).
  exists M. split; [exact HM | exact Hans].
Defined.

(** X17: after member 2 is removed, its HAVE_PEER frame is dropped. *)
Lemma removeMember_effects_witness :
  handleIncomingStateMessage 1000 have_peer_frame (removeMember 2 cluster_A)
  = removeMember 2 cluster_A.
Proof.
  assert (Buffer_at16 (plain (_key cluster_A) have_peer_frame) 0 = Some 2) as Hfrom
    by (vm_compute; reflexivity).
  exact (proj1 (removeMember_effects cluster_A 2 1000 have_peer_frame Hfrom)).
Defined.

(** X18: one MULTICAST_LIKE and a stray byte from member 2. *)
Lemma decoding_stops_at_truncation_witness :
  handleIncomingStateMessage 1000 truncated_frame cluster_A
  = dispatch_all 2 1000
      (be16 2 ++ be16 (_id cluster_A) ++ serialized [(3, like_body)] ++ [0]) 4
      [(3, like_body)] cluster_A.
Proof.
  assert (unseal_frame (_key cluster_A) truncated_frame
          = Some (be16 2 ++ be16 (_id cluster_A) ++ serialized [(3, like_body)] ++ [0]))
    as Hu by (vm_compute; reflexivity).
  assert (0 <= 2 < 65536) as Ha by lia.
  assert (0 <= _id cluster_A < 65536) as Hid by (rewrite cluster_A_id; lia).
  assert (2 <> _id cluster_A) as Hne by (rewrite cluster_A_id; discriminate).
  assert (2 ∈ _memberIds cluster_A) as Hin
    by (rewrite cluster_A_ids; apply list_elem_of_here).
  assert (Forall (fun tm : Z * list Z => size tm.2 < 65535) [(3, like_body)]) as Hmsgs
    by (constructor; [vm_compute; reflexivity | constructor]).
  assert (truncated [0]) as Htail by (left; reflexivity).
  exact (decoding_stops_at_truncation cluster_A 1000 2 truncated_frame [(3, like_body)] [0]
           Hu Ha Hid Hne Hin Hmsgs Htail).
Defined.

Lemma cluster_A_reachable : reachable cluster_A.
Proof.
  unfold cluster_A.
  apply reachable_step
    with (addMember 2 (Cluster_new 1 [endpoint_v4 192 0 2 1 9993] 0 0 0 true)).
  - apply reachable_step with (Cluster_new 1 [endpoint_v4 192 0 2 1 9993] 0 0 0 true).
    + apply reachable_new.
    + apply step_addMember. lia.
  - apply step_addMember. lia.
Defined.

Lemma cluster_B_reachable : reachable cluster_B.
Proof.
  unfold cluster_B.
  apply reachable_step with (Cluster_new 2 [endpoint_v4 192 0 2 2 9993] 7 (-8) 9 true).
  - apply reachable_new.
  - apply step_addMember. lia.
Defined.

(** X23: member 1 and member 2 agree on the key of their link. *)
Lemma link_keys_agree_witness : key (_members cluster_A (_id cluster_B)) = _key cluster_B.
Proof.
  assert (_id cluster_B ∈ _memberIds cluster_A) as Hin
    by (rewrite cluster_A_ids; apply list_elem_of_here).
  exact (proj1 (link_keys_agree cluster_A cluster_B cluster_A_reachable
                  cluster_B_reachable Hin)).
Defined.

End CoverageChecks.

Section CoverageChecksPeers.
#[local] Existing Instance test_crypto.
#[local] Existing Instance test_overlay.
#[local] Existing Instance test_codec.
#[local] Existing Instance test_host_peers.

(** X10: member 1 asks member 2 to unite the peers [0102030405] and
    [0a0b0c0d0e]; both get a RENDEZVOUS over IPv4. *)
Lemma unite_rendezvous_witness :
  exists f1 f2,
    events (_flush 2 cluster_uniting) = events cluster_uniting ++ [EvSendFunction 2 f1]
    /\ handleIncomingStateMessage 3000 f2 cluster_PA
       = emit (EvSwitchSend
                 (mkPacket (peer_P mod 2 ^ 40) identity_address (VERB_RENDEZVOUS mod 256)
                    ([0] ++ Address_bytes peer_Q
                     ++ rendezvous_tail (mkInetAddress AF_INET 9993 [10; 0; 0; 1]) 4))
                 true 0) cluster_PA.
Proof.
  assert (length (map Z.of_nat (seq 0 16)) = 16%nat) as Hiv by reflexivity.
  assert (q (_members cluster_uniting 2)
          = open_q (map Z.of_nat (seq 0 16)) (_id cluster_uniting) 2
            ++ submessage (type_code STATE_MESSAGE_PROXY_UNITE)
                 (unite_payload peer_Q peer_P paths_P)) as HqA
    by (vm_compute; reflexivity).
  assert (0 < size paths_P < 256) as Hn by (vm_compute; split; reflexivity).
  assert (Forall InetAddress_round_trip paths_P) as Hrt.
  { unfold paths_P. constructor; [| constructor]. apply test_InetAddress_round_trip. lia. }
  assert (fits (unite_payload peer_Q peer_P paths_P) = true) as Hfit
    by (vm_compute; reflexivity).
  assert (_key cluster_PB = key (_members cluster_uniting 2)) as Hkey
    by (vm_compute; reflexivity).
  assert (_id cluster_PB = 2) as Hid by reflexivity.
  assert (0 <= 2 < 65536) as Hb by lia.
  assert (0 <= _id cluster_uniting < 65536) as Ha
    by (vm_compute; split; [discriminate | reflexivity]).
  assert (_id cluster_uniting <> 2) as Hab by (vm_compute; discriminate).
  assert (_id cluster_uniting ∈ _memberIds cluster_PB) as HinB
    by (vm_compute; apply list_elem_of_here).
  assert (q (_members cluster_PB (_id cluster_uniting))
          = open_q (map Z.of_nat (seq 0 16)) 2 (_id cluster_uniting)) as HqB
    by (vm_compute; reflexivity).
  assert (Topology_getPeerNoCache (events cluster_PB) (peer_Q mod 2 ^ 40) 2500 = true)
    as Hknown by reflexivity.
  assert (unite_match
            (Peer_getBestActiveAddresses (events cluster_PB) (peer_Q mod 2 ^ 40) 2500)
            (best_remote paths_P)
          = Some (mkInetAddress AF_INET 9993 [10; 0; 0; 1],
                  endpoint_v4 198 51 100 7 9993, 4)) as Hmatch
    by (vm_compute; reflexivity).
  assert (4 <= size (rawIpData (mkInetAddress AF_INET 9993 [10; 0; 0; 1]))) as Hraw
    by (vm_compute; discriminate).
  assert (9 + 4 <= Packet_capacity) as Hcap by (vm_compute; discriminate).
  assert (_key cluster_PA = key (_members cluster_PB (_id cluster_uniting))) as Hkey'
    by (vm_compute; reflexivity).
  assert (_id cluster_PA = _id cluster_uniting) as Hid' by reflexivity.
  assert (2 ∈ _memberIds cluster_PA) as HinA by (vm_compute; apply list_elem_of_here).
  destruct (unite_rendezvous cluster_uniting cluster_PB cluster_PA 2 _ _
              peer_Q peer_P paths_P 3000 2500 _ _ 4
              Hiv HqA Hn Hrt Hfit Hkey Hid Hb Ha Hab HinB Hiv HqB Hknown Hmatch Hraw Hcap
              Hkey' Hid' HinA) as (f1 & f2 & H1' & _ & H3').
  exists f1, f2. split; [exact H1' | exact H3'].
Defined.

(** X19: a periodic run at time 20000 claims the peer of the topology. *)
Lemma periodic_announce_claims_witness :
  exists pa,
    _peerAffinities (doPeriodicTasks 20000 cluster_PA) !! Identity_address peer_P = Some pa
    /\ mid pa = _id cluster_PA.
Proof.
  assert (ZT_CLUSTER_HAVE_PEER_ANNOUNCE_PERIOD / 4
          <= u64_sub 20000 (_lastCheckedPeersForAnnounce cluster_PA)) as Hdue
    by (vm_compute; discriminate).
  assert (peer_P ∈ Topology_eachPeer (events cluster_PA)) as Hin
    by apply list_elem_of_here.
  assert (forall evs, Peer_getBestPath evs (Identity_address peer_P) 20000 <> None)
    as Hpath by (intros evs; discriminate).
  destruct (periodic_announce_claims cluster_PA 20000 peer_P Hdue Hin Hpath)
    as (pa & Hpa & Hmid & _).
  exists pa. split; [exact Hpa | exact Hmid].
Defined.

End CoverageChecksPeers.


Section CoverageChecksStatus.
#[local] Existing Instance test_crypto.
#[local] Existing Instance test_overlay.
#[local] Existing Instance test_codec.
#[local] Existing Instance test_host.
#[local] Existing Instance test_status_host.

(** X20: the status of member 1 with members 2 and 5. *)
Lemma status_defined_witness :
  exists st,
    status 2000 cluster_A = Some st
    /\ map st_id (members st) = _id cluster_A :: _memberIds cluster_A.
Proof.
  assert (0 <= _id cluster_A < ZT_CLUSTER_MAX_MEMBERS) as Hid
    by (vm_compute; split; [discriminate | reflexivity]).
  destruct (status_defined cluster_A 2000 cluster_A_reachable Hid) as (st & Hst & _ & Hids & _).
  exists st. split; [exact Hst | exact Hids].
Defined.

(** X21: the first record of that status is the local member's. *)
Lemma status_records_witness :
  exists st,
    status 2000 cluster_A = Some st
    /\ members st !! 0%nat = Some (self_status cluster_A).
Proof.
  destruct (status 2000 cluster_A) as [st|] eqn:Hst; [| vm_compute in Hst; discriminate].
  exists st. split; [reflexivity |].
  exact (proj1 (status_records cluster_A 2000 st cluster_A_reachable Hst)).
Defined.


End CoverageChecksStatus.
